(** * LMIS-MOBILE: the offline outbox and its synchronisation engine

    A shallow embedding of [src/lib/api.ts] (the [ApiClient] request
    gateway and the [OfflineService] outbox engine that the file bundles)
    together with the properties of section 8 of the specification, and
    with further properties of the same code: of the drain as a whole, of
    the endpoint methods, of the network listeners and the periodic sync
    ([OfflineProvider]), of the stores of images, and of the status
    indicator.

    Conventions of the embedding
    - JavaScript numbers that hold timestamps, counters and database ids
      are integers and are modelled by [Z].
    - A localforage instance is a finite map from string keys to records
      ([gmap string V]); [iterate] visits the entries in the order of
      [map_to_list], an order fixed by the keys.
    - [async] code is sequential state passing over a [World]; everything
      that lives outside the process (the HTTP plugin, [fetch], the clock,
      the random generator, a write the storage backend refuses) is an
      oracle of the [Platform] that threads its own state [Outside].
    - A computation ends with a value, with a thrown exception, or by
      running out of fuel (only the [while] loop of the drain consumes
      fuel).
    - The function [syncPendingRequests] is one drain run from its first
      line to its last, with no other writer of the queue in between; the
      interleaving of drains with each other and with the rest of the
      process is the subject of [proc_step].
    - The store operations of a drain succeed; the write of a new request
      in [queueRequest] may be refused by the backend, and so may the
      writes of [storeOfflineReportImages] and [storeImage].
    - A listener that starts a drain without awaiting it runs that drain
      to its end; a rejection of the dropped promise reaches no handler. *)

From stdpp Require Import gmap strings list sorting pretty.

Set Warnings "-clear-no-such-hyp".

Local Open Scope Z_scope.

(** ** Data model *)

(** [type: "api" | "image"] of an [OfflineRequest]. *)
Inductive RequestType := TypeApi | TypeImage.

Global Instance RequestType_eq_dec : EqDecision RequestType.
Proof. solve_decision. Defined.

(** One element of [imageData] / of [ImageUploadData.images]. *)
Record ImageMeta := {
  itemId : Z;
  description : option string;
}.

(** [OfflineRequest.fileData]. *)
Record FileData := {
  filePaths : list string;
  imageData : list ImageMeta;
  fd_reportId : Z;
}.

(** [interface OfflineRequest].  [body] is an opaque payload, absent for
    requests without one. *)
Record OfflineRequest := {
  req_id : string;
  endpoint : string;
  method : string;
  headers : gmap string string;
  body : option string;
  req_timestamp : Z;
  retries : Z;
  type : RequestType;
  fileData : option FileData;
}.

(** [interface StoredImage]. *)
Record StoredImage := {
  img_id : string;
  img_base64Data : string;
  img_fileName : string;
  img_tempId : option string;
  img_description : option string;
}.

(** One element of [OfflineReportImages.images]. *)
Record ReportImage := {
  ri_tempId : string;
  ri_base64Data : string;
  ri_fileName : string;
  ri_description : option string;
}.

(** [interface OfflineReportImages]: the asset group of one report. *)
Record OfflineReportImages := {
  grp_id : string;
  tempIds : list string;
  images : list ReportImage;
  grp_timestamp : Z;
}.

(** A [File] built by [base64ToFile]. *)
Record File := {
  file_name : string;
  file_type : string;
  file_bytes : string;
}.

(** [interface ImageUploadData]. *)
Record ImageUploadData := {
  reportId : Z;
  upl_images : list ImageMeta;
  files : list File;
}.

(** The part of a response body the engine looks at: [message] for error
    texts, [id] and [items] for a created report.  The server assigns the
    numeric ids, so they are present whenever the object is. *)
Record SavedItem := {
  item_id : Z;
  item_tempId : option string;
}.

Record RespData := {
  message : option string;
  rd_id : Z;
  items : option (list SavedItem);
}.

(** What [CapacitorHttp.request] receives and resolves to.  [data] is
    [None] for a [null] body. *)
Record HttpRequest := {
  hr_method : string;
  hr_url : string;
  hr_headers : gmap string string;
  hr_data : option string;
  hr_params : option (gmap string string);
}.

Record HttpResponse := {
  status : Z;
  data : option RespData;
}.

(** [FormData] as the list of its [append] calls. *)
Inductive FormValue := FormText (s : string) | FormFile (f : File).

Definition FormData := list (string * FormValue).

(** A [fetch] call of the engine: always a [POST] of a form with an
    [Authorization] header. *)
Record FetchRequest := {
  f_url : string;
  f_authorization : string;
  f_body : FormData;
}.

(** The parsed body of a [fetch] response, as far as the engine inspects
    it: whether it is truthy, and its [message]. *)
Inductive Json := JsonFalsy | JsonObject (msg : option string).

(** [f_json = None]: [response.json()] rejects. *)
Record FetchResponse := {
  f_status : Z;
  f_json : option Json;
}.

(** [class ApiError]. *)
Record ApiError := {
  err_message : string;
  err_status : Z;
}.

(** What can be thrown: an [ApiError] or any other [Error]. *)
Inductive Exn := ExApi (e : ApiError) | ExError (msg : string).

(** [console.warn] calls of the engine. *)
Inductive Warning :=
  | WarnNoDatabaseItem (tempId : string)
  | WarnNoValidImages
  | WarnFullReport
  | WarnFailed (id : string) (retry : Z).

(** The observable history of a run. *)
Inductive Event :=
  | EvHttp (rq : HttpRequest)
  | EvFetch (rq : FetchRequest)
  | EvProcessing (r : OfflineRequest)
  | EvSynced (id : string)
  | EvWarn (w : Warning)
  | EvCallback (c : string).

(** The acknowledgement [handleOfflineRequest] resolves to. *)
Record QueuedAck := {
  ack_success : bool;
  ack_message : string;
  ack_requestId : string;
  ack_queuedAt : Z;
  ack_offline : bool;
}.

(** The options object of [ApiClient.request]. *)
Record RequestOptions := {
  opt_method : option string;
  opt_headers : option (gmap string string);
  opt_body : option string;
  opt_params : option (gmap string string);
  opt_skipJsonContentType : option bool;
  opt_offlineable : option bool;
}.

(** ** JavaScript helpers *)

(** Truthiness of an optional string ([undefined] and [""] are falsy). *)
Definition truthy (s : option string) : bool :=
  match s with
  | Some t => negb (bool_decide (t = ""))
  | None => false
  end.

(** [a || b] on optional strings. *)
Definition or_else (s : option string) (d : string) : string :=
  match s with
  | Some t => if bool_decide (t = "") then d else t
  | None => d
  end.

(** [Array.prototype.sort(compare)]: a stable sort; [x] stays in front of
    [y] when [compare x y <= 0]. *)
Section ArraySort.
Context {A : Type} (compare : A → A → Z).

Fixpoint sort_insert (x : A) (l : list A) : list A :=
  match l with
  | [] => [x]
  | y :: l' =>
      if bool_decide (compare x y ≤ 0) then x :: y :: l'
      else y :: sort_insert x l'
  end.

Definition array_sort (l : list A) : list A := foldr sort_insert [] l.
End ArraySort.

(** ** The durable store (localforage) *)

Section Store.
Context {V : Type}.
Implicit Type s : gmap string V.

Definition setItem (k : string) (v : V) s : gmap string V := <[k := v]> s.
Definition getItem (k : string) s : option V := s !! k.
Definition removeItem (k : string) s : gmap string V := delete k s.
(** The values in the order [iterate] hands them to its callback. *)
Definition iterate s : list V := (map_to_list s).*2.
End Store.

(** ** The platform: everything outside the process *)

Record Platform := {
  Outside : Type;
  (** [CapacitorHttp.request]; [None] when the promise rejects. *)
  capacitor_request : HttpRequest → Outside → option HttpResponse * Outside;
  (** [fetch]; [None] when the promise rejects. *)
  fetch : FetchRequest → Outside → option FetchResponse * Outside;
  (** [Date.now()]. *)
  date_now : Outside → Z * Outside;
  (** [Math.random().toString(36).substr(2, 9)]. *)
  math_random : Outside → string * Outside;
  (** Whether the storage backend refuses the write of a new request
      ([setItem] rejects: quota exceeded, storage unavailable). *)
  write_refused : Outside → bool * Outside;
  (** The split of a data URL into MIME type and decoded bytes done by
      [base64ToFile]; [None] when [atob] or the splitting throws. *)
  decode_data_url : string → option (string * string);
  (** [process.env.NEXT_PUBLIC_API_URL]. *)
  NEXT_PUBLIC_API_URL : option string;
}.

Definition API_BASE_URL : string := "http://13.50.108.254:3000".

(** ** The process state and the computations over it *)

Section Engine.
Variable P : Platform.

(** The fields of the [OfflineService] singleton, the [access_token]
    entry of [localStorage], the state of the outside world, and the
    history observed so far. *)
Record World := {
  isOnline : bool;
  syncInProgress : bool;
  syncCallbacks : list string;
  queueStore : gmap string OfflineRequest;
  imagesStore : gmap string StoredImage;
  reportImagesStore : gmap string OfflineReportImages;
  access_token : option string;
  outside : Outside P;
  history : list Event;
}.

Definition set_isOnline (b : bool) (w : World) : World :=
  {| isOnline := b; syncInProgress := syncInProgress w;
     syncCallbacks := syncCallbacks w; queueStore := queueStore w;
     imagesStore := imagesStore w;
     reportImagesStore := reportImagesStore w;
     access_token := access_token w; outside := outside w;
     history := history w |}.

Definition set_syncInProgress (b : bool) (w : World) : World :=
  {| isOnline := isOnline w; syncInProgress := b;
     syncCallbacks := syncCallbacks w; queueStore := queueStore w;
     imagesStore := imagesStore w;
     reportImagesStore := reportImagesStore w;
     access_token := access_token w; outside := outside w;
     history := history w |}.

Definition set_queueStore (q : gmap string OfflineRequest) (w : World)
  : World :=
  {| isOnline := isOnline w; syncInProgress := syncInProgress w;
     syncCallbacks := syncCallbacks w; queueStore := q;
     imagesStore := imagesStore w;
     reportImagesStore := reportImagesStore w;
     access_token := access_token w; outside := outside w;
     history := history w |}.

Definition set_imagesStore (s : gmap string StoredImage) (w : World)
  : World :=
  {| isOnline := isOnline w; syncInProgress := syncInProgress w;
     syncCallbacks := syncCallbacks w; queueStore := queueStore w;
     imagesStore := s;
     reportImagesStore := reportImagesStore w;
     access_token := access_token w; outside := outside w;
     history := history w |}.

Definition set_reportImagesStore (s : gmap string OfflineReportImages)
  (w : World) : World :=
  {| isOnline := isOnline w; syncInProgress := syncInProgress w;
     syncCallbacks := syncCallbacks w; queueStore := queueStore w;
     imagesStore := imagesStore w;
     reportImagesStore := s;
     access_token := access_token w; outside := outside w;
     history := history w |}.

Definition set_outside (o : Outside P) (w : World) : World :=
  {| isOnline := isOnline w; syncInProgress := syncInProgress w;
     syncCallbacks := syncCallbacks w; queueStore := queueStore w;
     imagesStore := imagesStore w;
     reportImagesStore := reportImagesStore w;
     access_token := access_token w; outside := o;
     history := history w |}.

Definition set_history (h : list Event) (w : World) : World :=
  {| isOnline := isOnline w; syncInProgress := syncInProgress w;
     syncCallbacks := syncCallbacks w; queueStore := queueStore w;
     imagesStore := imagesStore w;
     reportImagesStore := reportImagesStore w;
     access_token := access_token w; outside := outside w;
     history := h |}.

(** How a computation ends. *)
Inductive Outcome (A : Type) :=
  | Returned (a : A)
  | Thrown (e : Exn)
  | OutOfFuel.
Global Arguments Returned {A} a.
Global Arguments Thrown {A} e.
Global Arguments OutOfFuel {A}.

Definition M (A : Type) : Type := World → Outcome A * World.

Definition ret {A} (a : A) : M A := λ w, (Returned a, w).
Definition throw {A} (e : Exn) : M A := λ w, (Thrown e, w).
Definition out_of_fuel {A} : M A := λ w, (OutOfFuel, w).

Definition bind {A B} (m : M A) (k : A → M B) : M B :=
  λ w, match m w with
       | (Returned a, w') => k a w'
       | (Thrown e, w') => (Thrown e, w')
       | (OutOfFuel, w') => (OutOfFuel, w')
       end.

(** [try { m } catch (e) { handler e }]. *)
Definition try_catch {A} (m : M A) (handler : Exn → M A) : M A :=
  λ w, match m w with
       | (Returned a, w') => (Returned a, w')
       | (Thrown e, w') => handler e w'
       | (OutOfFuel, w') => (OutOfFuel, w')
       end.

(** [try { m } finally { fin }], for a [fin] that cannot throw. *)
Definition try_finally {A} (m : M A) (fin : World → World) : M A :=
  λ w, match m w with
       | (Returned a, w') => (Returned a, fin w')
       | (Thrown e, w') => (Thrown e, fin w')
       | (OutOfFuel, w') => (OutOfFuel, w')
       end.

Definition get {A} (f : World → A) : M A := λ w, (Returned (f w), w).
Definition modify (f : World → World) : M unit := λ w, (Returned tt, f w).

(** A call of one of the platform's oracles. *)
Definition ask {A} (f : Outside P → A * Outside P) : M A :=
  λ w, let '(a, o) := f (outside w) in (Returned a, set_outside o w).

Definition emit (e : Event) : M unit :=
  modify (λ w, set_history (history w ++ [e]) w).

Local Notation "x ← m ; k" := (bind m (λ x, k))
  (at level 20, m at level 100, k at level 200, only parsing).
Local Notation "m ;; k" := (bind m (λ _, k))
  (at level 100, k at level 200, right associativity, only parsing).

(** [for (const x of l) { f x }]. *)
Fixpoint for_each {A} (f : A → M unit) (l : list A) : M unit :=
  match l with
  | [] => ret tt
  | x :: l' => f x;; for_each f l'
  end.

(** [l.map(f)] for a callback with effects. *)
Fixpoint map_M {A B} (f : A → M B) (l : list A) : M (list B) :=
  match l with
  | [] => ret []
  | x :: l' => y ← f x; ys ← map_M f l'; ret (y :: ys)
  end.

(** ** Durable-store operations of [OfflineService] *)

Definition set_retries (n : Z) (r : OfflineRequest) : OfflineRequest :=
  {| req_id := req_id r; endpoint := endpoint r; method := method r;
     headers := headers r; body := body r;
     req_timestamp := req_timestamp r; retries := n; type := type r;
     fileData := fileData r |}.

(** The listing [getPendingRequests] computes from the queue. *)
Definition pending (q : gmap string OfflineRequest) : list OfflineRequest :=
  array_sort (λ a b, req_timestamp a - req_timestamp b) (iterate q).

Definition getPendingRequests : M (list OfflineRequest) :=
  get (λ w, pending (queueStore w)).

Definition removeRequest (id : string) : M unit :=
  modify (λ w, set_queueStore (removeItem id (queueStore w)) w).

Definition updateRequestRetry (id : string) (n : Z) : M unit :=
  request ← get (λ w, getItem id (queueStore w));
  match request with
  | Some request =>
      modify (λ w,
        set_queueStore (setItem id (set_retries n request) (queueStore w)) w)
  | None => ret tt
  end.

(** [generateId]: [req_<now>_<random suffix>]. *)
Definition generateId : M string :=
  now ← ask (date_now P);
  suffix ← ask (math_random P);
  ret ("req_" +:+ pretty now +:+ "_" +:+ suffix).

(** [queueRequest]; its argument is spread into the fields it has. *)
Definition queueRequest (endpoint' method' : string)
    (headers' : gmap string string) (body' : option string)
    (type' : RequestType) (fileData' : option FileData) : M string :=
  id ← generateId;
  now ← ask (date_now P);
  let offlineRequest :=
    {| req_id := id; endpoint := endpoint'; method := method';
       headers := headers'; body := body'; req_timestamp := now;
       retries := 0; type := type'; fileData := fileData' |} in
  refused ← ask (write_refused P);
  (if refused : bool then throw (ExError "setItem rejected")
   else modify (λ w,
     set_queueStore
       (setItem (req_id offlineRequest) offlineRequest (queueStore w)) w));;
  ret (req_id offlineRequest).

Definition getStoredImage (imageId : string) : M (option StoredImage) :=
  get (λ w, getItem imageId (imagesStore w)).

Definition removeStoredImage (imageId : string) : M unit :=
  modify (λ w, set_imagesStore (removeItem imageId (imagesStore w)) w).

Definition removeStoredReportImages (storageId : string) : M unit :=
  modify (λ w,
    set_reportImagesStore (removeItem storageId (reportImagesStore w)) w).

(** The callback of [findStoredImagesByTempIds], run over the store. *)
Definition hasMatchingTempIds (wanted : list string)
    (value : OfflineReportImages) : bool :=
  existsb (λ tempId, bool_decide (tempId ∈ wanted)) (tempIds value).

Definition oldest_match (wanted : list string)
    (foundImages : option OfflineReportImages)
    (value : OfflineReportImages) : option OfflineReportImages :=
  if hasMatchingTempIds wanted value &&
     match foundImages with
     | None => true
     | Some found => bool_decide (grp_timestamp value < grp_timestamp found)
     end
  then Some value else foundImages.

Definition findStoredImagesByTempIds (wanted : list string)
    : M (option OfflineReportImages) :=
  get (λ w, foldl (oldest_match wanted) None (iterate (reportImagesStore w))).

Definition base64ToFile (base64Data fileName : string) : M File :=
  match decode_data_url P base64Data with
  | Some (mimeString, bytes) =>
      ret {| file_name := fileName; file_type := mimeString;
             file_bytes := bytes |}
  | None => throw (ExError "InvalidCharacterError")
  end.

(** ** Request Gateway: [ApiClient] *)

Definition network_error : Exn :=
  ExApi {| err_message := "Network error occurred"; err_status := 0 |}.

(** [catch (error) { if (error instanceof ApiError) throw error; throw new
    ApiError("Network error occurred", 0, ...) }]. *)
Definition rethrow_api {A} (error : Exn) : M A :=
  match error with
  | ExApi e => throw (ExApi e)
  | ExError _ => throw network_error
  end.

Definition http_ok (status' : Z) : bool :=
  negb (bool_decide (status' < 200) || bool_decide (300 ≤ status')).

(** The options [directRequest] passes to [CapacitorHttp.request]. *)
Definition capacitor_options (endpoint' : string) (options : RequestOptions)
    : HttpRequest :=
  let url := API_BASE_URL +:+ endpoint' in
  let method' := default "GET" (opt_method options) in
  let headers' := default ∅ (opt_headers options) in
  let skipJsonContentType := default false (opt_skipJsonContentType options) in
  let requestHeaders :=
    if negb skipJsonContentType
       && negb (truthy (headers' !! "Content-Type"))
       && negb (bool_decide (method' = "GET"))
    then <["Content-Type" := "application/json"]> headers'
    else headers' in
  {| hr_method := method'; hr_url := url; hr_headers := requestHeaders;
     hr_data := opt_body options; hr_params := opt_params options |}.

Definition directRequest (endpoint' : string) (options : RequestOptions)
    : M (option RespData) :=
  try_catch
    (let rq := capacitor_options endpoint' options in
     emit (EvHttp rq);;
     response ← ask (capacitor_request P rq);
     match response with
     | None => throw (ExError "request rejected")
     | Some response =>
         if bool_decide (status response < 200)
            || bool_decide (300 ≤ status response)
         then throw (ExApi
           {| err_message :=
                or_else (data response ≫= message)
                  ("HTTP error! status: " +:+ pretty (status response));
              err_status := status response |})
         else ret (data response)
     end)
    rethrow_api.

(** The form [uploadImages] builds: the report id, the metadata of every
    image, then every file under the item id found at its own index;
    [None] when that index has no metadata (a [TypeError]). *)
Definition upload_form (uploadData : ImageUploadData) : option FormData :=
  let meta_part :=
    concat (imap (λ index image,
      ("images[" +:+ pretty index +:+ "][itemId]",
         FormText (pretty (itemId image)))
      :: match description image with
         | Some d =>
             if bool_decide (d = "") then []
             else [("images[" +:+ pretty index +:+ "][description]",
                    FormText d)]
         | None => []
         end) (upl_images uploadData)) in
  let file_part :=
    mapM (λ '(index, file),
            (λ image, ("image_" +:+ pretty (itemId image), FormFile file))
              <$> upl_images uploadData !! index)
      (imap pair (files uploadData)) in
  (λ file_part, ("reportId", FormText (pretty (reportId uploadData)))
                :: meta_part ++ file_part) <$> file_part.

Definition json_message (j : Json) : option string :=
  match j with
  | JsonObject msg => msg
  | JsonFalsy => None
  end.

Definition upload_request (token : string) (formData : FormData)
    : FetchRequest :=
  {| f_url := "https://ats-system-two.vercel.app/api/upload";
     f_authorization := "Bearer " +:+ token;
     f_body := formData |}.

Definition uploadImages (token : string) (uploadData : ImageUploadData)
    : M Json :=
  match upload_form uploadData with
  | None => throw (ExError "TypeError")
  | Some formData =>
      try_catch
        (let rq := upload_request token formData in
         emit (EvFetch rq);;
         response ← ask (fetch P rq);
         match response with
         | None => throw (ExError "fetch rejected")
         | Some response =>
             if negb (http_ok (f_status response)) then
               let errorData := default (JsonObject None) (f_json response) in
               throw (ExApi
                 {| err_message :=
                      or_else (json_message errorData)
                        ("HTTP error! status: "
                           +:+ pretty (f_status response));
                    err_status := f_status response |})
             else
               match f_json response with
               | Some result => ret result
               | None => throw (ExError "json rejected")
               end
         end)
        rethrow_api
  end.

Inductive RequestResult :=
  | Direct (response : option RespData)
  | Queued (ack : QueuedAck).

Definition handleOfflineRequest (endpoint' : string)
    (options : RequestOptions) : M QueuedAck :=
  let method' := default "GET" (opt_method options) in
  let headers' := default ∅ (opt_headers options) in
  try_catch
    (requestId ← queueRequest endpoint' method' headers' (opt_body options)
                   TypeApi None;
     queuedAt ← ask (date_now P);
     ret {| ack_success := true;
            ack_message := "Request queued for offline execution";
            ack_requestId := requestId;
            ack_queuedAt := queuedAt;
            ack_offline := true |})
    (λ _, throw (ExApi {| err_message := "Failed to queue offline request";
                          err_status := 0 |})).

(** [ApiClient.request]: the entry point of every endpoint method. *)
Definition request (endpoint' : string) (options : RequestOptions)
    : M RequestResult :=
  let offlineable := default false (opt_offlineable options) in
  online ← get isOnline;
  if offlineable && negb online
  then ack ← handleOfflineRequest endpoint' options; ret (Queued ack)
  else response ← directRequest endpoint' options; ret (Direct response).

(** ** Asset reconciliation *)

(** [savedReport.items.find((item) => item.tempId === storedImage.tempId)]:
    the database item of a stored image. *)
Definition db_item (items' : list SavedItem) (storedImage : ReportImage)
    : option SavedItem :=
  find (λ item, bool_decide (item_tempId item = Some (ri_tempId storedImage)))
    items'.

(** [savedReport.items.map((item) => item.tempId).filter((tempId) =>
    tempId)]: the temp ids of the saved items. *)
Definition wanted_tempIds (items' : list SavedItem) : list string :=
  omap (λ item, if truthy (item_tempId item) then item_tempId item else None)
    items'.

(** The callback of the [map] in [uploadImagesForSyncedReport]: [None]
    for an image without database item, else the file pushed and the
    metadata returned. *)
Definition reconcile_image (savedReport : RespData)
    (storedImage : ReportImage) : M (option (File * ImageMeta)) :=
  match items savedReport with
  | None => throw (ExError "TypeError")
  | Some items' =>
      match db_item items' storedImage with
      | None =>
          emit (EvWarn (WarnNoDatabaseItem (ri_tempId storedImage)));;
          ret None
      | Some dbItem =>
          file ← base64ToFile (ri_base64Data storedImage)
                   (ri_fileName storedImage);
          ret (Some (file,
            {| itemId := item_id dbItem;
               description :=
                 Some (or_else (ri_description storedImage)
                         ("Image for item " +:+ pretty (item_id dbItem))) |}))
      end
  end.

Definition uploadImagesForSyncedReport (savedReport : RespData)
    (storedImages : OfflineReportImages) : M unit :=
  if bool_decide (length (images storedImages) = 0%nat) then ret tt
  else
    results ← map_M (reconcile_image savedReport) (images storedImages);
    let files' := omap (fmap fst) results in
    let imageMetadata := omap (fmap snd) results in
    if bool_decide (0 < length imageMetadata)%nat
       && bool_decide (0 < length files')%nat
    then
      token ← get access_token;
      if negb (truthy token)
      then throw (ExError "No authentication token available")
      else
        uploadResult ← uploadImages (default "" token)
          {| reportId := rd_id savedReport; upl_images := imageMetadata;
             files := files' |};
        match uploadResult with
        | JsonObject _ => removeStoredReportImages (grp_id storedImages)
        | JsonFalsy => throw (ExError "Image upload failed")
        end
    else
      emit (EvWarn WarnNoValidImages);;
      removeStoredReportImages (grp_id storedImages).

Definition findAndUploadReportImages (savedReport : RespData) : M unit :=
  match items savedReport with
  | None => ret tt
  | Some items' =>
      if bool_decide (length items' = 0%nat) then ret tt
      else
        let wanted := wanted_tempIds items' in
        if bool_decide (length wanted = 0%nat) then ret tt
        else
          storedImages ← findStoredImagesByTempIds wanted;
          match storedImages with
          | Some storedImages =>
              uploadImagesForSyncedReport savedReport storedImages
          | None => ret tt
          end
  end.

(** ** The Outbox Engine: replay of one request *)

(** The options [processApiRequest] replays a stored request with. *)
Definition replay_options (request : OfflineRequest) : RequestOptions :=
  {| opt_method := Some (method request);
     opt_headers := Some (headers request);
     opt_body := body request;
     opt_params := None;
     opt_skipJsonContentType := None;
     opt_offlineable := None |}.

Definition processApiRequest (request : OfflineRequest) : M unit :=
  response ← directRequest (endpoint request) (replay_options request);
  if bool_decide (endpoint request = "/price-reports")
     && bool_decide (method request = "POST")
  then
    match response with
    | None => throw (ExError "TypeError")
    | Some fullReport =>
        token ← get access_token;
        if truthy token
        then try_catch (findAndUploadReportImages fullReport)
               (λ _, emit (EvWarn WarnFullReport))
        else ret tt
    end
  else ret tt.

(** One turn of the [for] loop of [processImageUpload] over [filePaths]:
    the form entries it appends. *)
Definition attach_stored_image (fd : FileData) (entry : nat * string)
    : M FormData :=
  let '(i, imageKey) := entry in
  storedImage ← getStoredImage imageKey;
  match storedImage with
  | Some storedImage =>
      file ← base64ToFile (img_base64Data storedImage)
               (img_fileName storedImage);
      match imageData fd !! i with
      | None => throw (ExError "TypeError")
      | Some image =>
          removeStoredImage imageKey;;
          ret [("image_" +:+ pretty (itemId image), FormFile file)]
      end
  | None => ret []
  end.

Definition processImageUpload (request : OfflineRequest) : M unit :=
  match fileData request with
  | None => throw (ExError "No file data found for image upload")
  | Some fd =>
      file_part ← map_M (attach_stored_image fd) (imap pair (filePaths fd));
      let meta_part :=
        concat (imap (λ index image,
          ("images[" +:+ pretty index +:+ "][itemId]",
             FormText (pretty (itemId image)))
          :: match description image with
             | Some d =>
                 if bool_decide (d = "") then []
                 else [("images[" +:+ pretty index +:+ "][description]",
                        FormText d)]
             | None => []
             end) (imageData fd)) in
      let rq :=
        {| f_url := or_else (NEXT_PUBLIC_API_URL P)
                      "http://41.220.118.182:3000" +:+ "/upload";
           f_authorization := or_else (headers request !! "Authorization") "";
           f_body := ("reportId", FormText (pretty (fd_reportId fd)))
                     :: concat file_part ++ meta_part |} in
      emit (EvFetch rq);;
      response ← ask (fetch P rq);
      match response with
      | None => throw (ExError "fetch rejected")
      | Some response =>
          if negb (http_ok (f_status response))
          then throw (ExError ("HTTP error! status: "
                                 +:+ pretty (f_status response)))
          else
            match f_json response with
            | Some _ => ret tt
            | None => throw (ExError "json rejected")
            end
      end
  end.

(** ** The Outbox Engine: the drain *)

(** The local variables of [syncPendingRequests]. *)
Record LoopVars := {
  requests : list OfflineRequest;
  processedIds : gset string;
  processedCount : Z;
}.

(** The body of the [while] loop. *)
Definition loop_body (v : LoopVars) : M LoopVars :=
  match requests v with
  | [] => throw (ExError "TypeError")
  | request :: rest =>
      if bool_decide (req_id request ∈ processedIds v) then
        ret {| requests := rest; processedIds := processedIds v;
               processedCount := processedCount v |}
      else if bool_decide (3 ≤ retries request) then
        removeRequest (req_id request);;
        requests' ← getPendingRequests;
        ret {| requests := requests';
               processedIds := {[req_id request]} ∪ processedIds v;
               processedCount := processedCount v |}
      else
        try_catch
          (currentRequest ← get (λ w, getItem (req_id request) (queueStore w));
           match currentRequest with
           | None =>
               ret {| requests := rest;
                      processedIds := {[req_id request]} ∪ processedIds v;
                      processedCount := processedCount v |}
           | Some _ =>
               emit (EvProcessing request);;
               match type request with
               | TypeImage => processImageUpload request
               | TypeApi => processApiRequest request
               end;;
               removeRequest (req_id request);;
               emit (EvSynced (req_id request));;
               requests' ← getPendingRequests;
               ret {| requests := requests';
                      processedIds := {[req_id request]} ∪ processedIds v;
                      processedCount := processedCount v + 1 |}
           end)
          (λ _,
             updateRequestRetry (req_id request) (retries request + 1);;
             emit (EvWarn (WarnFailed (req_id request)
                             (retries request + 1)));;
             ret {| requests := rest;
                    processedIds := {[req_id request]} ∪ processedIds v;
                    processedCount := processedCount v |})
  end.

(** [requests.length > 0 && processedCount < 50]. *)
Definition loop_cond (v : LoopVars) : bool :=
  bool_decide (0 < length (requests v))%nat
  && bool_decide (processedCount v < 50).

Fixpoint sync_loop (fuel : nat) (v : LoopVars) : M LoopVars :=
  if loop_cond v then
    match fuel with
    | O => out_of_fuel
    | S fuel' => v' ← loop_body v; sync_loop fuel' v'
    end
  else ret v.

Definition notifySyncComplete : M unit :=
  callbacks ← get syncCallbacks;
  for_each (λ callback, emit (EvCallback callback)) callbacks.

Definition syncPendingRequests (fuel : nat) : M unit :=
  inProgress ← get syncInProgress;
  if inProgress : bool then ret tt
  else
    modify (set_syncInProgress true);;
    try_finally
      (requests' ← getPendingRequests;
       sync_loop fuel {| requests := requests'; processedIds := ∅;
                         processedCount := 0 |};;
       notifySyncComplete)
      (set_syncInProgress false).

End Engine.

Arguments isOnline {P} _.
Arguments syncInProgress {P} _.
Arguments syncCallbacks {P} _.
Arguments queueStore {P} _.
Arguments imagesStore {P} _.
Arguments reportImagesStore {P} _.
Arguments access_token {P} _.
Arguments outside {P} _.
Arguments history {P} _.
Arguments set_isOnline {P} _ _.
Arguments set_syncInProgress {P} _ _.
Arguments set_queueStore {P} _ _.
Arguments set_imagesStore {P} _ _.
Arguments set_reportImagesStore {P} _ _.
Arguments set_outside {P} _ _.
Arguments set_history {P} _ _.
Arguments ret {P A} _ _.
Arguments throw {P A} _ _.
Arguments out_of_fuel {P A} _.
Arguments bind {P A B} _ _ _.
Arguments try_catch {P A} _ _ _.
Arguments try_finally {P A} _ _ _.
Arguments get {P A} _ _.
Arguments modify {P} _ _.
Arguments ask {P A} _ _.
Arguments emit {P} _ _.
Arguments for_each {P A} _ _ _.
Arguments map_M {P A B} _ _ _.
Arguments getPendingRequests {P} _.
Arguments removeRequest {P} _ _.
Arguments updateRequestRetry {P} _ _ _.
Arguments generateId {P} _.
Arguments queueRequest {P} _ _ _ _ _ _ _.
Arguments getStoredImage {P} _ _.
Arguments removeStoredImage {P} _ _.
Arguments removeStoredReportImages {P} _ _.
Arguments findStoredImagesByTempIds {P} _ _.
Arguments base64ToFile {P} _ _ _.
Arguments rethrow_api {P A} _ _.
Arguments directRequest {P} _ _ _.
Arguments uploadImages {P} _ _ _.
Arguments handleOfflineRequest {P} _ _ _.
Arguments request {P} _ _ _.
Arguments reconcile_image {P} _ _ _.
Arguments uploadImagesForSyncedReport {P} _ _ _.
Arguments findAndUploadReportImages {P} _ _.
Arguments processApiRequest {P} _ _.
Arguments attach_stored_image {P} _ _ _.
Arguments processImageUpload {P} _ _.
Arguments loop_body {P} _ _.
Arguments sync_loop {P} _ _ _.
Arguments notifySyncComplete {P} _.
Arguments syncPendingRequests {P} _ _.

(** ** The rest of the service, the endpoint methods and their callers *)

(** What the browser provides besides the [Platform]. *)
Record Browser := {
  (** [FileReader.readAsDataURL]; [None] when [onerror] fires. *)
  readAsDataURL : File → option string;
  (** [JSON.stringify] and [JSON.parse] on what [request] resolves to;
      [None] when [JSON.parse] throws a [SyntaxError]. *)
  JSON_stringify : RequestResult → string;
  JSON_parse : string → option RequestResult;
  (** Whether [localStorage.setItem] throws for this key and value. *)
  localStorage_refuses : string → string → bool;
}.

(** One element of the argument of [storeOfflineReportImages]. *)
Record CapturedImage := {
  ci_tempId : string;
  ci_file : File;
  ci_description : option string;
}.

Section Service.
Context {P : Platform}.
Variable B : Browser.

Local Notation "x ← m ; k" := (bind m (λ x, k))
  (at level 20, m at level 100, k at level 200, only parsing).
Local Notation "m ;; k" := (bind m (λ _, k))
  (at level 100, k at level 200, right associativity, only parsing).

Definition set_syncCallbacks (cbs : list string) (w : World P) : World P :=
  {| isOnline := isOnline w; syncInProgress := syncInProgress w;
     syncCallbacks := cbs; queueStore := queueStore w;
     imagesStore := imagesStore w;
     reportImagesStore := reportImagesStore w;
     access_token := access_token w; outside := outside w;
     history := history w |}.

(** *** [OfflineService]: callbacks, status and asset stores *)

(** [onSyncComplete]; a callback is known by its name. *)
Definition onSyncComplete (callback : string) : M P unit :=
  modify (λ w, set_syncCallbacks (syncCallbacks w ++ [callback]) w).

Definition getOnlineStatus : M P bool := get isOnline.

Definition fileToBase64 (file : File) : M P string :=
  match readAsDataURL B file with
  | Some result => ret result
  | None => throw (ExError "FileReader error")
  end.

(** The element of [imagesData] built for one captured image. *)
Definition report_image (img : CapturedImage) (base64Data : string)
    : ReportImage :=
  {| ri_tempId := ci_tempId img; ri_base64Data := base64Data;
     ri_fileName := "item-" +:+ ci_tempId img +:+ ".jpg";
     ri_description := ci_description img |}.

Definition storeOfflineReportImages (images' : list CapturedImage)
    : M P string :=
  now ← ask (date_now P);
  let storageId := "report_images_" +:+ pretty now in
  imagesData ← map_M (λ img,
                  base64Data ← fileToBase64 (ci_file img);
                  ret (report_image img base64Data)) images';
  timestamp ← ask (date_now P);
  let offlineImages :=
    {| grp_id := storageId; tempIds := ci_tempId <$> images';
       images := imagesData; grp_timestamp := timestamp |} in
  refused ← ask (write_refused P);
  (if refused : bool then throw (ExError "setItem rejected")
   else modify (λ w,
     set_reportImagesStore
       (setItem storageId offlineImages (reportImagesStore w)) w));;
  ret storageId.

Definition getStoredReportImages (storageId : string)
    : M P (option OfflineReportImages) :=
  get (λ w, getItem storageId (reportImagesStore w)).

Definition storeImage (file : File) (itemId' : Z)
    (requestId : option string) : M P string :=
  match readAsDataURL B file with
  | None => throw (ExError "Failed to read file")
  | Some imageData' =>
      if bool_decide (imageData' = "")
      then throw (ExError "Failed to read file")
      else
        now ← ask (date_now P);
        let imageId := "img_" +:+ pretty now +:+ "_" +:+ pretty itemId' in
        let storedImage :=
          {| img_id := imageId; img_base64Data := imageData';
             img_fileName := file_name file;
             img_tempId :=
               if truthy requestId
               then Some (default "" requestId +:+ "_" +:+ pretty itemId')
               else None;
             img_description := None |} in
        refused ← ask (write_refused P);
        (if refused : bool then throw (ExError "setItem rejected")
         else modify (λ w,
           set_imagesStore (setItem imageId storedImage (imagesStore w)) w));;
        ret imageId
  end.

(** [value.tempId && value.tempId.startsWith(requestId)]. *)
Definition belongs_to_request (requestId : string) (value : StoredImage)
    : bool :=
  truthy (img_tempId value)
  && String.prefix requestId (default "" (img_tempId value)).

Definition getStoredImagesByRequest (requestId : string)
    : M P (list StoredImage) :=
  get (λ w, filter (λ value, belongs_to_request requestId value = true)
              (iterate (imagesStore w))).

(** *** The network listeners and the periodic sync *)

(** A call whose promise is dropped: a rejection reaches no handler. *)
Definition floating {A} (m : M P A) : M P unit :=
  try_catch (m;; ret tt) (λ _, ret tt).

(** The listener [initNetworkListener] registers for
    [networkStatusChange]. *)
Definition on_networkStatusChange (connected : bool) (fuel : nat)
    : M P unit :=
  modify (set_isOnline connected);;
  online ← get isOnline;
  if online : bool then floating (syncPendingRequests fuel) else ret tt.

(** The listeners [setupBrowserNetworkListener] registers for [online]
    and [offline]. *)
Definition on_online (fuel : nat) : M P unit :=
  modify (set_isOnline true);;
  floating (syncPendingRequests fuel).

Definition on_offline : M P unit := modify (set_isOnline false).

(** One tick of the interval of [OfflineProvider]. *)
Definition sync_tick (fuel : nat) : M P unit :=
  online ← getOnlineStatus;
  if online : bool then floating (syncPendingRequests fuel) else ret tt.

(** *** [ApiClient]: the endpoint methods *)

(** [{ Authorization: `Bearer ${token}` }]. *)
Definition bearer (token : string) : gmap string string :=
  {["Authorization" := "Bearer " +:+ token]}.

(** A call of an endpoint method with its arguments; request bodies are
    opaque payloads. *)
Inductive ApiCall :=
  | GetReports (token : string) (params : option (gmap string string))
  | GetReport (token : string) (reportId' : Z)
  | CreateReport (token : string) (reportData : string)
  | UpdateReport (token : string) (reportId' : Z) (reportData : string)
  | DeleteReport (token : string) (reportId' : Z)
  | AddReportItem (token : string) (reportId' : Z) (itemData : string)
  | UpdateReportItem (token : string) (reportId' itemId' : Z)
      (itemData : string)
  | DeleteReportItem (token : string) (reportId' itemId' : Z)
  | GetNotifications (token : string)
  | MarkNotificationAsRead (token : string) (notificationId : Z)
  | GetDashboardStats (token : string)
  | GetRecentActivity (token : string) (limit : option Z)
  | GetAppSettings (token : string)
  | UpdateAppSettings (token : string) (settings : string)
  | GetServerStatus
  | GetAppVersion
  | ClearCache (token : string).

(** The endpoint a method passes to [request]. *)
Definition call_endpoint (c : ApiCall) : string :=
  match c with
  | GetReports _ _ | CreateReport _ _ => "/price-reports"
  | GetReport _ reportId' | UpdateReport _ reportId' _
  | DeleteReport _ reportId' => "/price-reports/" +:+ pretty reportId'
  | AddReportItem _ reportId' _ =>
      "/price-reports/" +:+ pretty reportId' +:+ "/items"
  | UpdateReportItem _ reportId' itemId' _
  | DeleteReportItem _ reportId' itemId' =>
      "/price-reports/" +:+ pretty reportId' +:+ "/items/" +:+ pretty itemId'
  | GetNotifications _ => "/notifications"
  | MarkNotificationAsRead _ notificationId =>
      "/notifications/" +:+ pretty notificationId +:+ "/read"
  | GetDashboardStats _ => "/dashboard/stats"
  | GetRecentActivity _ _ => "/dashboard/recent-activity"
  | GetAppSettings _ | UpdateAppSettings _ _ => "/settings"
  | GetServerStatus => "/health"
  | GetAppVersion => "/version"
  | ClearCache _ => "/cache/clear"
  end.

(** An options object with the given method, headers, body, params and
    [offlineable]. *)
Definition options_of (method' : option string)
    (headers' : option (gmap string string)) (body' : option string)
    (params : option (gmap string string)) (offlineable : bool)
    : RequestOptions :=
  {| opt_method := method'; opt_headers := headers'; opt_body := body';
     opt_params := params; opt_skipJsonContentType := None;
     opt_offlineable := Some offlineable |}.

(** The options a method passes to [request]. *)
Definition call_options (c : ApiCall) : RequestOptions :=
  match c with
  | GetReports token params =>
      options_of None (Some (bearer token)) None params false
  | GetReport token _ =>
      options_of None (Some (bearer token)) None None false
  | CreateReport token reportData =>
      options_of (Some "POST")
        (Some (<["Content-Type" := "application/json"]> (bearer token)))
        (Some reportData) None true
  | UpdateReport token _ reportData =>
      options_of (Some "PATCH") (Some (bearer token)) (Some reportData)
        None true
  | DeleteReport token _ =>
      options_of (Some "DELETE") (Some (bearer token)) None None true
  | AddReportItem token _ itemData =>
      options_of (Some "POST") (Some (bearer token)) (Some itemData)
        None true
  | UpdateReportItem token _ _ itemData =>
      options_of (Some "PATCH") (Some (bearer token)) (Some itemData)
        None true
  | DeleteReportItem token _ _ =>
      options_of (Some "DELETE") (Some (bearer token)) None None true
  | GetNotifications token =>
      options_of None (Some (bearer token)) None None false
  | MarkNotificationAsRead token _ =>
      options_of (Some "PATCH") (Some (bearer token)) None None true
  | GetDashboardStats token =>
      options_of None (Some (bearer token)) None None false
  | GetRecentActivity token limit =>
      options_of None (Some (bearer token)) None
        (Some {["limit" := pretty (default 10 limit)]}) false
  | GetAppSettings token =>
      options_of None (Some (bearer token)) None None false
  | UpdateAppSettings token settings =>
      options_of (Some "PUT") (Some (bearer token)) (Some settings)
        None true
  | GetServerStatus => options_of None None None None false
  | GetAppVersion => options_of None None None None false
  | ClearCache token =>
      options_of (Some "POST") (Some (bearer token)) None None false
  end.

(** An endpoint method: [return this.request(endpoint, options)]. *)
Definition api_call (c : ApiCall) : M P RequestResult :=
  request (call_endpoint c) (call_options c).

Definition getReports token params := api_call (GetReports token params).
Definition getReport token reportId' := api_call (GetReport token reportId').
Definition createReport token reportData :=
  api_call (CreateReport token reportData).
Definition updateReport token reportId' reportData :=
  api_call (UpdateReport token reportId' reportData).
Definition deleteReport token reportId' :=
  api_call (DeleteReport token reportId').
Definition addReportItem token reportId' itemData :=
  api_call (AddReportItem token reportId' itemData).
Definition updateReportItem token reportId' itemId' itemData :=
  api_call (UpdateReportItem token reportId' itemId' itemData).
Definition deleteReportItem token reportId' itemId' :=
  api_call (DeleteReportItem token reportId' itemId').
Definition getNotifications token := api_call (GetNotifications token).
Definition markNotificationAsRead token notificationId :=
  api_call (MarkNotificationAsRead token notificationId).
Definition getDashboardStats token := api_call (GetDashboardStats token).
Definition getRecentActivity token limit :=
  api_call (GetRecentActivity token limit).
Definition getAppSettings token := api_call (GetAppSettings token).
Definition updateAppSettings token settings :=
  api_call (UpdateAppSettings token settings).
Definition getServerStatus := api_call GetServerStatus.
Definition getAppVersion := api_call GetAppVersion.
Definition clearCache token := api_call (ClearCache token).

(** Truthiness of what [request] resolves to: only a [null] body is
    falsy. *)
Definition result_truthy (result : RequestResult) : bool :=
  match result with
  | Direct None => false
  | _ => true
  end.

(** [getReferenceData], over the entry [cached_reference_data] of
    [localStorage]: the entry before, and with the result the entry
    after. *)
Definition getReferenceData (token : string) (cached : option string)
    : M P (RequestResult * option string) :=
  try_catch
    (data' ← request "/price-reports/reference-data"
               (options_of None (Some (bearer token)) None None false);
     if result_truthy data'
     then
       if localStorage_refuses B "cached_reference_data"
            (JSON_stringify B data')
       then throw (ExError "QuotaExceededError")
       else ret (data', Some (JSON_stringify B data'))
     else ret (data', cached))
    (λ error,
       if truthy cached
       then match JSON_parse B (default "" cached) with
            | Some parsed => ret (parsed, cached)
            | None => throw (ExError "SyntaxError")
            end
       else throw error).

End Service.

(** *** [NetworkStatusIndicator] *)

Inductive Icon := WifiOff | RefreshCw | Wifi.

(** What the component renders when it renders anything: the icons in
    the container and the text of the tooltip. *)
Record Indicator := {
  icons : list Icon;
  tooltip : string;
}.

Definition NetworkStatusIndicator (isOnline' isSyncing' : bool)
    (pendingRequests : Z) : option Indicator :=
  let pending := bool_decide (0 < pendingRequests) in
  if isSyncing' || negb isOnline' || (isOnline' && pending)
  then Some
    {| icons :=
         (if negb isOnline' && negb isSyncing' then [WifiOff] else [])
         ++ (if isSyncing' then [RefreshCw] else [])
         ++ (if isOnline' && pending && negb isSyncing' then [Wifi] else []);
       tooltip :=
         (if negb isOnline' then "Offline" else "")
         +:+ (if isSyncing' then "Syncing..." else "")
         +:+ (if isOnline' && pending && negb isSyncing'
              then "Pending sync" else "") |}
  else None.

(** ** A scripted platform for the examples *)

(** The outside world of the examples: a clock, and three switches. *)
Record DemoOutside := {
  clock : Z;
  storage_full : bool;
  upload_down : bool;
}.

(** The gateway of the examples answers by the payload it is handed:
    ["offline"] is a transport failure, ["500"] a server error, anything
    else creates a report with one item that carries temp id ["t1"]. *)
Definition demo_response (rq : HttpRequest) : option HttpResponse :=
  if bool_decide (hr_data rq = Some "offline") then None
  else if bool_decide (hr_data rq = Some "500") then
    Some {| status := 500;
            data := Some {| message := Some "server error"; rd_id := 0;
                            items := None |} |}
  else
    Some {| status := 201;
            data := Some {| message := None; rd_id := 42;
                            items := Some [ {| item_id := 7;
                                               item_tempId := Some "t1" |} ]
                         |} |}.

Definition demo : Platform :=
  {| Outside := DemoOutside;
     capacitor_request := λ rq o, (demo_response rq, o);
     fetch := λ rq o,
       (if upload_down o then None
        else Some {| f_status := 200; f_json := Some (JsonObject None) |}, o);
     date_now := λ o,
       (clock o, {| clock := clock o + 1; storage_full := storage_full o;
                    upload_down := upload_down o |});
     math_random := λ o, ("k3x9q0aaa", o);
     write_refused := λ o, (storage_full o, o);
     decode_data_url := λ s, Some ("image/jpeg", s);
     NEXT_PUBLIC_API_URL := None |}.

Definition demo_outside : DemoOutside :=
  {| clock := 1000; storage_full := false; upload_down := false |}.

(** A queued request of the examples. *)
Definition demo_request (id' : string) (payload : string) (at' n : Z)
    : OfflineRequest :=
  {| req_id := id'; endpoint := "/price-reports"; method := "POST";
     headers := ∅; body := Some payload; req_timestamp := at';
     retries := n; type := TypeApi; fileData := None |}.

(** A world of the examples with the given queue and asset groups. *)
Definition demo_world (o : DemoOutside) (q : list OfflineRequest)
    (groups : list OfflineReportImages) : World demo :=
  Build_World demo true false ["use-offline-queue"; "use-network-status"]
    (list_to_map ((λ r, (req_id r, r)) <$> q))
    ∅
    (list_to_map ((λ g, (grp_id g, g)) <$> groups))
    (Some "token") o [].

(** ** Vocabulary of the properties *)

(** The requests handed to replay, in the order of the history. *)
Definition attempts (h : list Event) : list OfflineRequest :=
  omap (λ e, match e with EvProcessing r => Some r | _ => None end) h.

(** The ids of the requests replayed with success and removed. *)
Definition synced (h : list Event) : list string :=
  omap (λ e, match e with EvSynced id' => Some id' | _ => None end) h.

(** The network calls: the requests given to [CapacitorHttp] and to
    [fetch]. *)
Definition http_calls (h : list Event) : list HttpRequest :=
  omap (λ e, match e with EvHttp rq => Some rq | _ => None end) h.

Definition fetch_calls (h : list Event) : list FetchRequest :=
  omap (λ e, match e with EvFetch rq => Some rq | _ => None end) h.

Definition callbacks_fired (h : list Event) : list string :=
  omap (λ e, match e with EvCallback c => Some c | _ => None end) h.

(** What a run from [w] to [w'] added to the history. *)
Definition trace {P} (w w' : World P) : list Event :=
  drop (length (history w)) (history w').

(** Non-decreasing [timestamp]s. *)
Definition ts_le (a b : OfflineRequest) : Prop :=
  req_timestamp a ≤ req_timestamp b.

Definition by_timestamp (l : list OfflineRequest) : Prop :=
  StronglySorted ts_le l.

(** Records are stored under their own id: [setItem(r.id, r)]. *)
Definition queue_wf (q : gmap string OfflineRequest) : Prop :=
  map_Forall (λ k r, req_id r = k) q.

Definition groups_wf (s : gmap string OfflineReportImages) : Prop :=
  map_Forall (λ k g, grp_id g = k) s.

(** Fuel that lets the loop of a drain run to its end. *)
Definition drain_fuel {P} (w : World P) : nat :=
  S (size (queueStore w)) * S (size (queueStore w)).

(** One call of the drain entry point. *)
Definition drain {P} (w : World P) : Outcome unit * World P :=
  syncPendingRequests (drain_fuel w) w.

(** The local variables a drain starts its loop with. *)
Definition initial_vars {P} (w : World P) : LoopVars :=
  {| requests := pending (queueStore w); processedIds := ∅;
     processedCount := 0 |}.

(** Events that are neither a replay, nor a completed sync, nor a
    callback. *)
Definition quiet (evs : list Event) : Prop :=
  attempts evs = [] ∧ synced evs = [] ∧ callbacks_fired evs = [].

(** The service's own fields are as before. *)
Definition same_flags {P} (w w' : World P) : Prop :=
  isOnline w' = isOnline w ∧ syncInProgress w' = syncInProgress w
  ∧ syncCallbacks w' = syncCallbacks w.

(** A run that leaves the queue and the service's fields alone and adds
    only quiet events. *)
Definition frame {P} (w w' : World P) : Prop :=
  queueStore w' = queueStore w ∧ same_flags w w'
  ∧ access_token w' = access_token w
  ∧ ∃ evs, history w' = history w ++ evs ∧ quiet evs.

Definition framed {P A} (m : M P A) : Prop :=
  ∀ w, frame w (m w).2 ∧ (m w).1 ≠ OutOfFuel.

(** What one turn of the loop does, by the branch it takes: the head is
    already handled; its retries are used up; it is gone from the store;
    its replay succeeds; its replay fails. *)
Inductive body_step {P} (v : LoopVars) (w : World P)
    : LoopVars → World P → Prop :=
  | step_skip r rest :
      requests v = r :: rest →
      req_id r ∈ processedIds v →
      body_step v w
        {| requests := rest; processedIds := processedIds v;
           processedCount := processedCount v |} w
  | step_exhausted r rest w' :
      requests v = r :: rest →
      req_id r ∉ processedIds v →
      3 ≤ retries r →
      queueStore w' = delete (req_id r) (queueStore w) →
      history w' = history w →
      same_flags w w' →
      body_step v w
        {| requests := pending (queueStore w');
           processedIds := {[req_id r]} ∪ processedIds v;
           processedCount := processedCount v |} w'
  | step_vanished r rest :
      requests v = r :: rest →
      req_id r ∉ processedIds v →
      retries r < 3 →
      queueStore w !! req_id r = None →
      body_step v w
        {| requests := rest;
           processedIds := {[req_id r]} ∪ processedIds v;
           processedCount := processedCount v |} w
  | step_success r rest w' evs :
      requests v = r :: rest →
      req_id r ∉ processedIds v →
      retries r < 3 →
      is_Some (queueStore w !! req_id r) →
      queueStore w' = delete (req_id r) (queueStore w) →
      history w'
        = history w ++ EvProcessing r :: (evs ++ [EvSynced (req_id r)]) →
      quiet evs →
      same_flags w w' →
      body_step v w
        {| requests := pending (queueStore w');
           processedIds := {[req_id r]} ∪ processedIds v;
           processedCount := processedCount v + 1 |} w'
  | step_failure r rest w' evs stored :
      requests v = r :: rest →
      req_id r ∉ processedIds v →
      retries r < 3 →
      queueStore w !! req_id r = Some stored →
      queueStore w' = <[req_id r := set_retries (retries r + 1) stored]>
                        (queueStore w) →
      history w' = history w ++ EvProcessing r :: evs →
      quiet evs →
      same_flags w w' →
      body_step v w
        {| requests := rest;
           processedIds := {[req_id r]} ∪ processedIds v;
           processedCount := processedCount v |} w'.

(** The ids of a list of requests. *)
Definition ids_of (l : list OfflineRequest) : gset string :=
  list_to_set (req_id <$> l).

(** The ids the loop may still have to handle: those of the listing at
    hand and of the stored requests, less the handled ones. *)
Definition unprocessed {P} (v : LoopVars) (w : World P) : gset string :=
  (ids_of (requests v) ∪ ids_of (iterate (queueStore w))) ∖ processedIds v.

(** The variant of the loop, for a bound [K] on the lengths. *)
Definition loop_measure {P} (K : nat) (v : LoopVars) (w : World P) : nat :=
  size (unprocessed v w) * S K + length (requests v).

Definition bounded {P} (K : nat) (v : LoopVars) (w : World P) : Prop :=
  (length (requests v) ≤ K)%nat ∧ (size (queueStore w) ≤ K)%nat.

(** Two worlds that differ in their histories at most. *)
Definition only_history {P} (w w' : World P) : Prop :=
  isOnline w' = isOnline w ∧ syncInProgress w' = syncInProgress w
  ∧ syncCallbacks w' = syncCallbacks w ∧ queueStore w' = queueStore w
  ∧ imagesStore w' = imagesStore w
  ∧ reportImagesStore w' = reportImagesStore w
  ∧ access_token w' = access_token w ∧ outside w' = outside w.

(** What a request handled by the running drain went through, given its
    record [x0] at the start of the drain, the record now stored under its
    id and the events so far: deleted with its retries used up; replayed
    with success and removed; or replayed in vain and kept with one more
    retry. *)
Definition handled (x0 : OfflineRequest) (now : option OfflineRequest)
    (evs : list Event) : Prop :=
  (3 ≤ retries x0 ∧ now = None)
  ∨ (retries x0 < 3 ∧ x0 ∈ attempts evs ∧ req_id x0 ∈ synced evs
     ∧ now = None)
  ∨ (retries x0 < 3 ∧ x0 ∈ attempts evs ∧ (req_id x0 ∉ synced evs)
     ∧ now = Some (set_retries (retries x0 + 1) x0)).

(** The invariant of the drain loop over a queue that nothing else
    writes to: [q0] is the queue the drain started from, [evs] the events
    since. *)
Record drain_facts {P} (q0 : gmap string OfflineRequest)
    (evs : list Event) (v : LoopVars) (w : World P) : Prop := {
  inv_wf : queue_wf (queueStore w);
  inv_sorted : by_timestamp (requests v);
  inv_snapshot : ∀ x,
    x ∈ requests v → req_id x ∉ processedIds v →
    queueStore w !! req_id x = Some x;
  inv_complete : ∀ k x,
    queueStore w !! k = Some x → k ∉ processedIds v → x ∈ requests v;
  inv_untouched : ∀ k,
    k ∉ processedIds v → queueStore w !! k = q0 !! k;
  inv_attempts_sorted : by_timestamp (attempts evs);
  inv_attempts_before : ∀ a u,
    a ∈ attempts evs → u ∈ requests v → req_id u ∉ processedIds v →
    ts_le a u;
  inv_attempted : ∀ a,
    a ∈ attempts evs →
    q0 !! req_id a = Some a ∧ retries a < 3 ∧ req_id a ∈ processedIds v;
  inv_synced : ∀ k, k ∈ synced evs → k ∈ processedIds v;
  inv_processed : ∀ k,
    k ∈ processedIds v →
    ∃ x0, q0 !! k = Some x0 ∧ handled x0 (queueStore w !! k) evs;
  inv_count : processedCount v = Z.of_nat (length (synced evs));
  inv_start : queue_wf q0;
}.

Definition drain_inv {P} (q0 : gmap string OfflineRequest)
    (h0 : list Event) (v : LoopVars) (w : World P) : Prop :=
  ∃ evs, history w = h0 ++ evs ∧ callbacks_fired evs = []
         ∧ drain_facts q0 evs v w.

(** The part of the invariant that needs no assumption on the queue. *)
Definition count_inv {P} (h0 : list Event) (v : LoopVars) (w : World P)
    : Prop :=
  ∃ evs, history w = h0 ++ evs ∧ callbacks_fired evs = []
         ∧ processedCount v = Z.of_nat (length (synced evs))
         ∧ processedCount v ≤ 50.

(** Whether the gateway fails on the replay of [r] in the world [w]: no
    response, or a status outside 200–299. *)
Definition replay_fails {P} (r : OfflineRequest) (w : World P) : bool :=
  match capacitor_request P
          (capacitor_options (endpoint r) (replay_options r)) (outside w) with
  | (Some resp, _) => negb (http_ok (status resp))
  | (None, _) => true
  end.

(** The record [queueRequest] stores for a request submitted through
    [handleOfflineRequest], given the id and the time it reads. *)
Definition queued_record (endpoint' : string) (options : RequestOptions)
    (id' : string) (now : Z) : OfflineRequest :=
  {| req_id := id'; endpoint := endpoint';
     method := default "GET" (opt_method options);
     headers := default ∅ (opt_headers options);
     body := opt_body options; req_timestamp := now; retries := 0;
     type := TypeApi; fileData := None |}.

(** *** Reconciliation *)

(** What the reconciliation of one stored image yields when the report
    has the items [items']: the file and the metadata under the real id,
    or nothing for an image without database item (or one that does not
    decode). *)
Definition reconciled (P : Platform) (items' : list SavedItem)
    (storedImage : ReportImage) : option (File * ImageMeta) :=
  match db_item items' storedImage,
        decode_data_url P (ri_base64Data storedImage) with
  | Some dbItem, Some (mimeString, bytes) =>
      Some ({| file_name := ri_fileName storedImage;
               file_type := mimeString; file_bytes := bytes |},
            {| itemId := item_id dbItem;
               description :=
                 Some (or_else (ri_description storedImage)
                         ("Image for item " +:+ pretty (item_id dbItem))) |})
  | _, _ => None
  end.

(** The warnings for the images without database item. *)
Definition unmatched_warnings (items' : list SavedItem)
    (imgs : list ReportImage) : list Event :=
  omap (λ storedImage,
          match db_item items' storedImage with
          | Some _ => None
          | None => Some (EvWarn (WarnNoDatabaseItem (ri_tempId storedImage)))
          end) imgs.

(** The file names and real item ids of the images with a database
    item. *)
Definition matched_assets (items' : list SavedItem)
    (imgs : list ReportImage) : list (string * Z) :=
  omap (λ storedImage,
          (λ dbItem, (ri_fileName storedImage, item_id dbItem))
            <$> db_item items' storedImage) imgs.

(** Whether the upload endpoint takes the form: a 2xx response with a
    truthy body. *)
Definition upload_accepted {P : Platform} (rq : FetchRequest)
    (o : Outside P) : bool :=
  match fetch P rq o with
  | (Some response, _) =>
      http_ok (f_status response)
      && match f_json response with
         | Some (JsonObject _) => true
         | _ => false
         end
  | (None, _) => false
  end.

(** A group holds the temp id of an item of the saved report. *)
Definition group_matches (items' : list SavedItem)
    (g : OfflineReportImages) : Prop :=
  ∃ tempId, tempId ∈ tempIds g ∧ tempId ∈ wanted_tempIds items'.

(** A computation that leaves the asset groups alone and calls [fetch]
    at most [n] times. *)
Definition sends_at_most {P A} (n : nat) (m : M P A) : Prop :=
  ∀ w, reportImagesStore (m w).2 = reportImagesStore w
       ∧ ∃ evs, history (m w).2 = history w ++ evs
                ∧ (length (fetch_calls evs) ≤ n)%nat.

(** A computation that calls [fetch] at most [n] times and, of the asset
    groups, deletes at most the one stored under [key]. *)
Definition touches {P A} (key : string) (n : nat) (m : M P A) : Prop :=
  ∀ w, (reportImagesStore (m w).2 = reportImagesStore w
        ∨ reportImagesStore (m w).2 = delete key (reportImagesStore w))
       ∧ ∃ evs, history (m w).2 = history w ++ evs
                ∧ (length (fetch_calls evs) ≤ n)%nat.

(** *** The process between suspension points *)

(** A call of [syncPendingRequests] that has passed the guard: it waits
    for its listing, or it is in its loop with the local variables [v]. *)
Inductive Task := Listing | Looping (v : LoopVars).

(** The process: the world and the drains under way. *)
Record Process (P : Platform) := {
  world : World P;
  tasks : list Task;
}.
Arguments world {P} _.
Arguments tasks {P} _.

(** What the process does between two suspension points: a call of the
    drain entry point, which either is turned away by the guard or takes
    it; the listing of a drain; a turn of its loop; its end, with the
    callbacks and the release of the guard; and anything else, which
    cannot write the private flag. *)
Inductive proc_step {P} (p : Process P) : Process P → Prop :=
  | call_turned_away fuel :
      syncInProgress (world p) = true →
      proc_step p {| world := (syncPendingRequests fuel (world p)).2;
                     tasks := tasks p |}
  | call_enters :
      syncInProgress (world p) = false →
      proc_step p {| world := set_syncInProgress true (world p);
                     tasks := Listing :: tasks p |}
  | task_lists i :
      tasks p !! i = Some Listing →
      proc_step p {| world := world p;
                     tasks := <[i := Looping (initial_vars (world p))]>
                                (tasks p) |}
  | task_turns i v v' w' :
      tasks p !! i = Some (Looping v) →
      loop_cond v = true →
      loop_body v (world p) = (Returned v', w') →
      proc_step p {| world := w'; tasks := <[i := Looping v']> (tasks p) |}
  | task_ends i v w' :
      tasks p !! i = Some (Looping v) →
      loop_cond v = false →
      notifySyncComplete (world p) = (Returned tt, w') →
      proc_step p {| world := set_syncInProgress false w';
                     tasks := delete i (tasks p) |}
  | other_activity w' :
      syncInProgress w' = syncInProgress (world p) →
      proc_step p {| world := w'; tasks := tasks p |}.

(** The processes that can arise from a start without a drain. *)
Definition reachable {P} (p : Process P) : Prop :=
  ∃ w0, syncInProgress w0 = false
        ∧ rtc proc_step {| world := w0; tasks := [] |} p.

(** The guard is held exactly while one drain is under way. *)
Definition guard_held {P} (p : Process P) : Prop :=
  length (tasks p) = if syncInProgress (world p) then 1%nat else 0%nat.

(** *** Worlds of the examples *)

(** Three requests queued out of order; the oldest cannot be sent. *)
Definition three_queued : World demo :=
  demo_world demo_outside
    [demo_request "c" "ok" 30 0; demo_request "a" "offline" 10 0;
     demo_request "b" "500" 20 0] [].

(** One request that never gets through. *)
Definition one_unsendable : World demo :=
  demo_world demo_outside [demo_request "a" "offline" 10 0] [].


(** A drain is under way in the world of the three queued requests. *)
Definition draining : World demo := set_syncInProgress true three_queued.

(** Two asset groups that hold the temp id ["t1"] of the created
    report's item; the older one also holds an image for ["t9"], which the
    report does not know. *)
Definition photo (tempId : string) : ReportImage :=
  {| ri_tempId := tempId; ri_base64Data := "data:image/jpeg;base64,AAAA";
     ri_fileName := "item-" +:+ tempId +:+ ".jpg"; ri_description := None |}.

Definition older_group : OfflineReportImages :=
  {| grp_id := "report_images_900"; tempIds := ["t1"; "t9"];
     images := [photo "t1"; photo "t9"]; grp_timestamp := 900 |}.

Definition newer_group : OfflineReportImages :=
  {| grp_id := "report_images_950"; tempIds := ["t1"];
     images := [photo "t1"]; grp_timestamp := 950 |}.

(** The report the gateway of the examples answers a creation with. *)
Definition created_items : list SavedItem :=
  [ {| item_id := 7; item_tempId := Some "t1" |} ].

Definition created_report : RespData :=
  {| message := None; rd_id := 42; items := Some created_items |}.

(** A queued report creation with both groups in store; the upload
    endpoint is up or down. *)
Definition with_groups (down : bool) : World demo :=
  demo_world
    {| clock := 1000; storage_full := false; upload_down := down |}
    [demo_request "a" "ok" 10 0] [newer_group; older_group].

(** The device is offline; the store takes writes or is full. *)
Definition offline (full : bool) : World demo :=
  set_isOnline false
    (demo_world {| clock := 1000; storage_full := full; upload_down := false |}
       [] []).

(** The options of [createReport] and of [getReports]. *)
Definition create_options : RequestOptions :=
  {| opt_method := Some "POST"; opt_headers := None;
     opt_body := Some "report"; opt_params := None;
     opt_skipJsonContentType := None; opt_offlineable := Some true |}.


(** The world after [n] drains in a row. *)
Fixpoint drains {P} (n : nat) (w : World P) : World P :=
  match n with
  | O => w
  | S n' => drains n' (drain w).2
  end.

(** ** Vocabulary of the further properties *)

(** The invariant of the drain loop, with the facts that no request is
    replayed twice and that what is reported synced was replayed. *)
Definition once_inv {P} (q0 : gmap string OfflineRequest)
    (h0 : list Event) (v : LoopVars) (w : World P) : Prop :=
  ∃ evs, history w = h0 ++ evs ∧ callbacks_fired evs = []
         ∧ drain_facts q0 evs v w
         ∧ NoDup (req_id <$> attempts evs) ∧ NoDup (synced evs)
         ∧ synced evs ⊆ req_id <$> attempts evs.

(** The invariant of the drain loop when no replay fails: what has been
    handed to replay has been reported synced. *)
Definition healthy_inv {P} (q0 : gmap string OfflineRequest)
    (h0 : list Event) (v : LoopVars) (w : World P) : Prop :=
  ∃ evs, history w = h0 ++ evs ∧ callbacks_fired evs = []
         ∧ drain_facts q0 evs v w
         ∧ NoDup (synced evs)
         ∧ synced evs = req_id <$> attempts evs.

(** A computation that adds to the history only events that [ok]
    accepts. *)
Definition emits_only {P A} (ok : Event → bool) (m : M P A) : Prop :=
  ∀ w, ∃ evs, history (m w).2 = history w ++ evs
              ∧ Forall (λ e, ok e = true) evs.

(** The events of an upload: calls of [fetch], and warnings. *)
Definition upload_event (e : Event) : bool :=
  match e with
  | EvFetch _ | EvWarn _ => true
  | _ => false
  end.

(** Whether the replay of [r] goes through in the world [w]: the gateway
    answers with a status in 200–299 and, to the creation of a report,
    with a body. *)
Definition replay_succeeds {P} (r : OfflineRequest) (w : World P) : bool :=
  match capacitor_request P
          (capacitor_options (endpoint r) (replay_options r)) (outside w) with
  | (Some resp, _) =>
      http_ok (status resp)
      && (negb (bool_decide (endpoint r = "/price-reports")
                && bool_decide (method r = "POST"))
          || bool_decide (is_Some (data resp)))
  | (None, _) => false
  end.

(** Whether the gateway fails on the request [rq]: no response, or a
    status outside 200–299. *)
Definition gateway_down {P : Platform} (rq : HttpRequest) (o : Outside P)
    : bool :=
  match capacitor_request P rq o with
  | (Some resp, _) => negb (http_ok (status resp))
  | (None, _) => true
  end.

(** The request [getReferenceData] sends. *)
Definition reference_data_request (token : string) : HttpRequest :=
  capacitor_options "/price-reports/reference-data"
    (options_of None (Some (bearer token)) None None false).

(** The [imagesData] of [storeOfflineReportImages]: nothing when a file
    cannot be read. *)
Definition encoded_images (B : Browser) (images' : list CapturedImage)
    : option (list ReportImage) :=
  mapM (λ img, report_image img <$> readAsDataURL B (ci_file img)) images'.

(** What is sent for a captured image once the report has the items
    [items']: the content of the file, named after the temp id, and the
    metadata under the real id of its item. *)
Definition upload_of (items' : list SavedItem) (img : CapturedImage)
    : option (File * ImageMeta) :=
  (λ dbItem,
     ({| file_name := "item-" +:+ ci_tempId img +:+ ".jpg";
         file_type := file_type (ci_file img);
         file_bytes := file_bytes (ci_file img) |},
      {| itemId := item_id dbItem;
         description :=
           Some (or_else (ci_description img)
                   ("Image for item " +:+ pretty (item_id dbItem))) |}))
  <$> find (λ item, bool_decide (item_tempId item = Some (ci_tempId img)))
        items'.

(** The form entries for the metadata of the images: [images[i][itemId]]
    and, when there is one, [images[i][description]]. *)
Definition meta_form (l : list ImageMeta) : FormData :=
  concat (imap (λ index image,
    ("images[" +:+ pretty index +:+ "][itemId]",
       FormText (pretty (itemId image)))
    :: match description image with
       | Some d =>
           if bool_decide (d = "") then []
           else [("images[" +:+ pretty index +:+ "][description]",
                  FormText d)]
       | None => []
       end) l).

(** The store of images without the given keys. *)
Definition without_keys (s : gmap string StoredImage)
    (entries : list (nat * string)) : gmap string StoredImage :=
  foldl (λ s e, delete e.2 s) s entries.

(** Whether [fetch] answers the request with a status in 200–299 and a
    body that parses. *)
Definition fetch_parsed {P : Platform} (rq : FetchRequest) (o : Outside P)
    : bool :=
  match fetch P rq o with
  | (Some response, _) =>
      http_ok (f_status response)
      && bool_decide (is_Some (f_json response))
  | (None, _) => false
  end.

(** The request [processImageUpload] sends, given the entries for the
    files. *)
Definition image_upload_request (P : Platform) (r : OfflineRequest)
    (fd : FileData) (file_part : FormData) : FetchRequest :=
  {| f_url := or_else (NEXT_PUBLIC_API_URL P) "http://41.220.118.182:3000"
              +:+ "/upload";
     f_authorization := or_else (headers r !! "Authorization") "";
     f_body := ("reportId", FormText (pretty (fd_reportId fd)))
               :: file_part ++ meta_form (imageData fd) |}.

(** An entry of a form that holds a file. *)
Definition is_file_entry (e : string * FormValue) : bool :=
  match e.2 with
  | FormFile _ => true
  | FormText _ => false
  end.

(** *** More worlds of the examples *)

(** A browser for the examples.  A file without content cannot be read; a
    data URL is shown by the content it encodes, which is what
    [decode_data_url] of the scripted platform gives back.  [JSON] writes a
    response body by its id and reads the created report back. *)
Definition demo_browser : Browser :=
  {| readAsDataURL := λ file,
       if bool_decide (file_bytes file = "") then None
       else Some (file_bytes file);
     JSON_stringify := λ result,
       match result with
       | Direct (Some d) => "{id:" +:+ pretty (rd_id d) +:+ "}"
       | Direct None => "null"
       | Queued _ => "{offline:true}"
       end;
     JSON_parse := λ s,
       if bool_decide (s = "{id:42}") then Some (Direct (Some created_report))
       else None;
     localStorage_refuses := λ _ _, false |}.

(** A platform whose gateway answers while its switch is on. *)
Definition switched : Platform :=
  {| Outside := bool;
     capacitor_request := λ rq up,
       (if up : bool
        then Some {| status := 200; data := Some created_report |}
        else None, up);
     fetch := λ rq up, (None, up);
     date_now := λ up, (0, up);
     math_random := λ up, ("", up);
     write_refused := λ up, (false, up);
     decode_data_url := λ s, None;
     NEXT_PUBLIC_API_URL := None |}.

Definition switched_world (up : bool) : World switched :=
  Build_World switched true false [] ∅ ∅ ∅ (Some "token") up [].

(** The device is online, with nothing stored. *)
Definition idle : World demo := demo_world demo_outside [] [].

(** Two requests that the gateway accepts, queued out of order. *)
Definition two_sendable : World demo :=
  demo_world demo_outside
    [demo_request "b" "ok" 20 0; demo_request "a" "ok" 10 0] [].

(** A photo taken for the item with the temp id [tempId]. *)
Definition shot (tempId : string) : CapturedImage :=
  {| ci_tempId := tempId;
     ci_file := {| file_name := "IMG_0001.jpg"; file_type := "image/jpeg";
                   file_bytes := "JFIF" |};
     ci_description := None |}.

(** A queued image request for the image that [storeImage] has stored at
    time 1000 for item 7. *)
Definition image_request : OfflineRequest :=
  {| req_id := "req_i"; endpoint := "/upload"; method := "POST";
     headers := {["Authorization" := "Bearer token"]}; body := None;
     req_timestamp := 5; retries := 0; type := TypeImage;
     fileData := Some {| filePaths := ["img_1000_7"];
                         imageData := [ {| itemId := 7;
                                           description := None |} ];
                         fd_reportId := 42 |} |}.

Definition with_image : World demo :=
  (storeImage demo_browser (ci_file (shot "t1")) 7 (Some "req_i") idle).2.

(** The separator [_] of the generated ids. *)
Definition underscore : Ascii.ascii :=
  match "_" with
  | String c _ => c
  | EmptyString => Ascii.zero
  end.

(** A string without the separator. *)
Fixpoint no_underscore (s : string) : bool :=
  match s with
  | EmptyString => true
  | String c s' => negb (Ascii.eqb c underscore) && no_underscore s'
  end.

(** Every record of the three stores is stored under its own id. *)
Definition stores_wf {P} (w : World P) : Prop :=
  queue_wf (queueStore w)
  ∧ map_Forall (λ k i, img_id i = k) (imagesStore w)
  ∧ groups_wf (reportImagesStore w).

(** A computation that keeps a property of the three stores. *)
Definition keeps {P A}
    (I : gmap string OfflineRequest → gmap string StoredImage →
         gmap string OfflineReportImages → Prop) (m : M P A) : Prop :=
  ∀ w, I (queueStore w) (imagesStore w) (reportImagesStore w) →
       I (queueStore (m w).2) (imagesStore (m w).2)
         (reportImagesStore (m w).2).

(** Fifty-two requests that the gateway accepts, the newest first. *)
Definition many_sendable : World demo :=
  demo_world demo_outside
    ((λ i, demo_request (pretty i) "ok" i 0) <$> reverse (seqZ 0 52)) [].





(** * Properties *)

(** ** [Array.prototype.sort] *)

Section ArraySortFacts.
Context {A : Type} (compare : A → A → Z).
Let R (x y : A) : Prop := compare x y ≤ 0.
Hypothesis compare_total : ∀ x y, R x y ∨ R y x.
Hypothesis compare_trans : ∀ x y z, R x y → R y z → R x z.

Lemma sort_insert_perm x l : sort_insert compare x l ≡ₚ x :: l.
Proof.
  induction l as [|y l IH]; simpl; [done|].
  case_bool_decide; [done|].
  rewrite IH. apply Permutation_swap.
Qed.

Lemma array_sort_perm l : array_sort compare l ≡ₚ l.
Proof.
  induction l as [|x l IH]; simpl; [done|].
  unfold array_sort in *. simpl. by rewrite sort_insert_perm, IH.
Qed.

Lemma sort_insert_sorted x l :
  StronglySorted R l → StronglySorted R (sort_insert compare x l).
Proof using compare_total compare_trans.
  induction 1 as [|y l Hl IH Hy]; simpl.
  - repeat constructor.
  - case_bool_decide as Hxy.
    + constructor; [by constructor|].
      constructor; [done|].
      eapply Forall_impl; [exact Hy|]. intros z Hz. by eapply compare_trans.
    + constructor; [done|].
      rewrite sort_insert_perm. constructor; [|done].
      by destruct (compare_total x y).
Qed.

Lemma array_sort_sorted l : StronglySorted R (array_sort compare l).
Proof using compare_total compare_trans.
  induction l as [|x l IH]; [constructor|].
  unfold array_sort in *. simpl. by apply sort_insert_sorted.
Qed.
End ArraySortFacts.

Lemma StronglySorted_mono {A} (R R' : A → A → Prop) l :
  (∀ x y, R x y → R' x y) → StronglySorted R l → StronglySorted R' l.
Proof.
  intros HR. induction 1 as [|x l Hl IH Hx]; constructor; [done|].
  eapply Forall_impl; [exact Hx|]. auto.
Qed.

Lemma pending_sorted q : by_timestamp (pending q).
Proof.
  eapply StronglySorted_mono;
    [|apply (array_sort_sorted (λ a b, req_timestamp a - req_timestamp b))].
  - unfold ts_le. intros x y. simpl. lia.
  - intros x y. lia.
  - intros x y z. lia.
Qed.

Lemma pending_perm q : pending q ≡ₚ iterate q.
Proof. apply array_sort_perm. Qed.

Lemma elem_of_iterate {V} (s : gmap string V) (x : V) :
  x ∈ iterate s ↔ ∃ k, s !! k = Some x.
Proof.
  unfold iterate. rewrite list_elem_of_fmap. split.
  - intros [[k y] [-> Hk]]. exists k. by apply elem_of_map_to_list.
  - intros [k Hk]. exists (k, x). split; [done|].
    by apply elem_of_map_to_list.
Qed.

Lemma elem_of_pending q x : x ∈ pending q ↔ ∃ k, q !! k = Some x.
Proof. by rewrite pending_perm, elem_of_iterate. Qed.

Lemma length_pending q : length (pending q) = size q.
Proof.
  rewrite pending_perm. unfold iterate.
  by rewrite length_fmap, length_map_to_list.
Qed.

(** ** Frames: what the replay of a request leaves alone *)

Section Frames.
Context {P : Platform}.
Implicit Types w : World P.

Lemma quiet_nil : quiet [].
Proof. done. Qed.

Lemma quiet_app evs1 evs2 : quiet evs1 → quiet evs2 → quiet (evs1 ++ evs2).
Proof.
  unfold quiet, attempts, synced, callbacks_fired.
  rewrite !omap_app. by intros (-> & -> & ->) (-> & -> & ->).
Qed.

Lemma frame_refl w : frame w w.
Proof.
  repeat split. exists []. by rewrite app_nil_r.
Qed.

Lemma frame_trans w1 w2 w3 : frame w1 w2 → frame w2 w3 → frame w1 w3.
Proof.
  intros (Hq1 & (Ha1 & Hb1 & Hc1) & Ht1 & evs1 & Hh1 & Hev1)
         (Hq2 & (Ha2 & Hb2 & Hc2) & Ht2 & evs2 & Hh2 & Hev2).
  repeat split; try congruence.
  exists (evs1 ++ evs2). split; [|by apply quiet_app].
  by rewrite Hh2, Hh1, app_assoc.
Qed.

Lemma framed_ret {A} (a : A) : framed (P:=P) (ret a).
Proof. intros w. split; [apply frame_refl|done]. Qed.

Lemma framed_throw {A} e : framed (P:=P) (A:=A) (throw e).
Proof. intros w. split; [apply frame_refl|done]. Qed.

Lemma framed_get {A} (f : World P → A) : framed (get f).
Proof. intros w. split; [apply frame_refl|done]. Qed.

Lemma framed_ask {A} (f : Outside P → A * Outside P) : framed (ask f).
Proof.
  intros w. unfold ask. destruct (f (outside w)) as [a o]. simpl.
  split; [|done]. repeat split. exists []. by rewrite app_nil_r.
Qed.

Lemma framed_bind {A B} (m : M P A) (k : A → M P B) :
  framed m → (∀ a, framed (k a)) → framed (bind m k).
Proof.
  intros Hm Hk w. unfold bind. destruct (Hm w) as [Hf Hn].
  destruct (m w) as [[a|e|] w1]; simpl in *; [|done..].
  destruct (Hk a w1) as [Hf' Hn']. split; [|done].
  by eapply frame_trans.
Qed.

Lemma framed_try_catch {A} (m : M P A) (h : Exn → M P A) :
  framed m → (∀ e, framed (h e)) → framed (try_catch m h).
Proof.
  intros Hm Hh w. unfold try_catch. destruct (Hm w) as [Hf Hn].
  destruct (m w) as [[a|e|] w1]; simpl in *; [done| |done].
  destruct (Hh e w1) as [Hf' Hn']. split; [|done].
  by eapply frame_trans.
Qed.

Lemma framed_emit e : quiet [e] → framed (P:=P) (emit e).
Proof.
  intros He w. split; [|done]. repeat split. by exists [e].
Qed.

Lemma framed_modify (f : World P → World P) :
  (∀ w, frame w (f w)) → framed (modify f).
Proof. intros Hf w. by split. Qed.

Lemma framed_map_M {A B} (f : A → M P B) l :
  (∀ x, framed (f x)) → framed (map_M f l).
Proof.
  intros Hf. induction l as [|x l IH]; simpl; [apply framed_ret|].
  apply framed_bind; [done|]. intros y.
  apply framed_bind; [done|]. intros ys. apply framed_ret.
Qed.

Ltac framed_step :=
  lazymatch goal with
  | |- framed (bind _ _) => apply framed_bind; [|intros ?]
  | |- framed (try_catch _ _) => apply framed_try_catch; [|intros ?]
  | |- framed (ret _) => apply framed_ret
  | |- framed (throw _) => apply framed_throw
  | |- framed (get _) => apply framed_get
  | |- framed (ask _) => apply framed_ask
  | |- framed (emit _) => apply framed_emit; done
  | |- framed (map_M _ _) => apply framed_map_M; intros ?
  | |- framed (match ?x with _ => _ end) => destruct x
  | |- framed (let _ := _ in _) => cbv zeta
  end.

Lemma framed_base64ToFile d n : framed (P:=P) (base64ToFile d n).
Proof. unfold base64ToFile. repeat framed_step. Qed.

Lemma framed_removeStoredReportImages k :
  framed (P:=P) (removeStoredReportImages k).
Proof.
  apply framed_modify. intros w. repeat split. exists [].
  by rewrite app_nil_r.
Qed.

Lemma framed_removeStoredImage k : framed (P:=P) (removeStoredImage k).
Proof.
  apply framed_modify. intros w. repeat split. exists [].
  by rewrite app_nil_r.
Qed.

Lemma framed_rethrow_api {A} e : framed (P:=P) (A:=A) (rethrow_api e).
Proof. unfold rethrow_api. repeat framed_step. Qed.

Lemma framed_directRequest e o : framed (P:=P) (directRequest e o).
Proof.
  unfold directRequest. repeat framed_step. apply framed_rethrow_api.
Qed.

Lemma framed_uploadImages t u : framed (P:=P) (uploadImages t u).
Proof.
  unfold uploadImages. repeat framed_step. apply framed_rethrow_api.
Qed.

Lemma framed_reconcile_image sr im : framed (P:=P) (reconcile_image sr im).
Proof.
  unfold reconcile_image. repeat framed_step. apply framed_base64ToFile.
Qed.

Lemma framed_uploadImagesForSyncedReport sr g :
  framed (P:=P) (uploadImagesForSyncedReport sr g).
Proof.
  unfold uploadImagesForSyncedReport. repeat framed_step;
    auto using framed_reconcile_image, framed_uploadImages,
      framed_removeStoredReportImages.
Qed.

Lemma framed_findAndUploadReportImages sr :
  framed (P:=P) (findAndUploadReportImages sr).
Proof.
  unfold findAndUploadReportImages, findStoredImagesByTempIds.
  repeat framed_step; auto using framed_uploadImagesForSyncedReport.
Qed.

Lemma framed_processApiRequest r : framed (P:=P) (processApiRequest r).
Proof.
  unfold processApiRequest. repeat framed_step;
    auto using framed_directRequest, framed_findAndUploadReportImages.
Qed.

Lemma framed_attach_stored_image fd e :
  framed (P:=P) (attach_stored_image fd e).
Proof.
  unfold attach_stored_image, getStoredImage. destruct e as [i k].
  repeat framed_step;
    auto using framed_base64ToFile, framed_removeStoredImage.
Qed.

Lemma framed_processImageUpload r : framed (P:=P) (processImageUpload r).
Proof.
  unfold processImageUpload. repeat framed_step;
    auto using framed_attach_stored_image.
Qed.

End Frames.

(** ** One turn of the drain loop *)

Section LoopBody.
Context {P : Platform}.
Implicit Types (w : World P) (v : LoopVars).

Lemma framed_replay (r : OfflineRequest) :
  framed (P:=P) (match type r with
                 | TypeImage => processImageUpload r
                 | TypeApi => processApiRequest r
                 end).
Proof.
  destruct (type r);
    auto using framed_processApiRequest, framed_processImageUpload.
Qed.

Lemma loop_body_step v w :
  requests v ≠ [] →
  ∃ v' w', loop_body v w = (Returned v', w') ∧ body_step v w v' w'.
Proof.
  intros Hne. unfold loop_body.
  destruct (requests v) as [|r rest] eqn:Hreq; [done|].
  case_bool_decide as Hproc.
  { eexists _, _. split; [done|]. by eapply step_skip. }
  case_bool_decide as Hret.
  { eexists _, _. split; [done|].
    lazymatch goal with
    | |- body_step _ _ _ ?w' => by eapply (step_exhausted v w r rest w')
    end. }
  unfold try_catch, bind at 1, get, getItem.
  destruct (queueStore w !! req_id r) as [stored|] eqn:Hst.
  2:{ eexists _, _. split; [done|]. eapply step_vanished; eauto. lia. }
  unfold bind at 1, emit at 1, modify at 1. unfold bind at 1.
  destruct (framed_replay r (set_history (history w ++ [EvProcessing r]) w))
    as [(Hq & (Ha & Hb & Hc) & Ht & evs & Hh & Hev) Hn].
  destruct (match type r with
            | TypeImage => processImageUpload r
            | TypeApi => processApiRequest r
            end (set_history (history w ++ [EvProcessing r]) w))
    as [[[]|e|] w1] eqn:Hrun; simpl in *; [| |done].
  - eexists _, _. split; [done|].
    lazymatch goal with
    | |- body_step _ _ _ ?w' => eapply (step_success v w r rest w' evs)
    end; eauto; try lia.
    + simpl. by rewrite Hq.
    + simpl. rewrite Hh. by rewrite <-!app_assoc.
    + done.
  - unfold updateRequestRetry, bind, get, getItem, modify, emit, modify.
    simpl. rewrite Hq. simpl. rewrite Hst. simpl.
    eexists _, _. split; [done|].
    lazymatch goal with
    | |- body_step _ _ _ ?w' =>
        eapply (step_failure v w r rest w' (evs ++ [_]) stored)
    end; eauto; try lia.
    + simpl. by rewrite Hq.
    + simpl. rewrite Hh. by rewrite <-!app_assoc.
    + by apply quiet_app.
    + done.
Qed.

End LoopBody.

(** ** The loop of the drain: variant and invariants *)

Section Loop.
Context {P : Platform}.
Implicit Types (w : World P) (v : LoopVars).

Lemma elem_of_ids_of l k : k ∈ ids_of l ↔ ∃ x, x ∈ l ∧ req_id x = k.
Proof.
  unfold ids_of. rewrite elem_of_list_to_set, list_elem_of_fmap.
  split; intros (x & H1 & H2); eauto.
Qed.

Lemma ids_of_pending q : ids_of (pending q) = ids_of (iterate q).
Proof.
  apply set_eq. intros k. rewrite !elem_of_ids_of.
  by setoid_rewrite pending_perm.
Qed.

Lemma ids_of_delete k q :
  ids_of (iterate (delete k q)) ⊆ ids_of (iterate q).
Proof.
  intros i. rewrite !elem_of_ids_of.
  intros (x & Hx & <-). exists x. split; [|done].
  apply elem_of_iterate in Hx as [j Hj]. apply elem_of_iterate.
  exists j. by apply lookup_delete_Some in Hj as [_ ?].
Qed.

Lemma ids_of_set_retries k n stored q :
  q !! k = Some stored →
  ids_of (iterate (<[k := set_retries n stored]> q)) ⊆ ids_of (iterate q).
Proof.
  intros Hk i. rewrite !elem_of_ids_of.
  intros (x & Hx & <-). apply elem_of_iterate in Hx as [j Hj].
  apply lookup_insert_Some in Hj as [[-> <-]|[_ Hj]].
  - exists stored. split; [|done]. apply elem_of_iterate. eauto.
  - exists x. split; [|done]. apply elem_of_iterate. eauto.
Qed.

Lemma size_ids_of l : (size (ids_of l) ≤ length l)%nat.
Proof.
  induction l as [|x l IH]; [done|].
  unfold ids_of in *. rewrite fmap_cons, list_to_set_cons.
  rewrite size_union_alt, size_singleton.
  pose proof (subseteq_size
    (list_to_set (req_id <$> l) ∖ {[req_id x]} : gset string)
    (list_to_set (req_id <$> l))) as Hle.
  assert (list_to_set (req_id <$> l) ∖ {[req_id x]}
          ⊆@{gset string} list_to_set (req_id <$> l)) as Hsub by set_solver.
  specialize (Hle Hsub). simpl. lia.
Qed.

Lemma body_step_measure K v w v' w' :
  bounded K v w → body_step v w v' w' →
  bounded K v' w' ∧ (loop_measure K v' w' < loop_measure K v w)%nat.
Proof.
  intros [Hlen Hsize] Hstep. unfold bounded, loop_measure, unprocessed.
  assert (Hmono : ∀ X Y : gset string, X ⊆ Y → (size X ≤ size Y)%nat)
    by (intros; by apply subseteq_size).
  assert (Hstrict : ∀ (X Y : gset string) i, X ⊆ Y ∖ {[i]} → i ∈ Y →
            (S (size X) ≤ size Y)%nat).
  { intros X Y i HX Hi. apply Hmono in HX.
    rewrite size_difference in HX by set_solver.
    rewrite size_singleton in HX.
    assert (size ({[i]} : gset string) ≤ size Y)%nat
      by (apply Hmono; set_solver).
    rewrite size_singleton in *. lia. }
  destruct Hstep as
    [r rest Hreq Hin
    |r rest w' Hreq Hnin Hret Hq Hh Hfl
    |r rest Hreq Hnin Hret Hst
    |r rest w' evs Hreq Hnin Hret Hst Hq Hh Hev Hfl
    |r rest w' evs stored Hreq Hnin Hret Hst Hq Hh Hev Hfl];
    simpl; rewrite Hreq in *; simpl in *.
  - split; [lia|].
    assert (size ((ids_of rest ∪ ids_of (iterate (queueStore w)))
                    ∖ processedIds v)
            ≤ size ((ids_of (r :: rest) ∪ ids_of (iterate (queueStore w)))
                      ∖ processedIds v))%nat.
    { apply Hmono. unfold ids_of. simpl. set_solver. }
    nia.
  - rewrite Hq, length_pending, ids_of_pending.
    assert (size (delete (req_id r) (queueStore w)) ≤ size (queueStore w))%nat.
    { apply map_subseteq_size, delete_subseteq. }
    split; [lia|].
    assert (S (size ((ids_of (iterate (delete (req_id r) (queueStore w)))
                        ∪ ids_of (iterate (delete (req_id r) (queueStore w))))
                       ∖ ({[req_id r]} ∪ processedIds v)))
            ≤ size ((ids_of (r :: rest) ∪ ids_of (iterate (queueStore w)))
                      ∖ processedIds v))%nat.
    { apply (Hstrict _ _ (req_id r)).
      - pose proof (ids_of_delete (req_id r) (queueStore w)). set_solver.
      - unfold ids_of. simpl. set_solver. }
    nia.
  - split; [lia|].
    assert (size ((ids_of rest ∪ ids_of (iterate (queueStore w)))
                    ∖ ({[req_id r]} ∪ processedIds v))
            ≤ size ((ids_of (r :: rest) ∪ ids_of (iterate (queueStore w)))
                      ∖ processedIds v))%nat.
    { apply Hmono. unfold ids_of. simpl. set_solver. }
    nia.
  - rewrite Hq, length_pending, ids_of_pending.
    assert (size (delete (req_id r) (queueStore w)) ≤ size (queueStore w))%nat.
    { apply map_subseteq_size, delete_subseteq. }
    split; [lia|].
    assert (S (size ((ids_of (iterate (delete (req_id r) (queueStore w)))
                        ∪ ids_of (iterate (delete (req_id r) (queueStore w))))
                       ∖ ({[req_id r]} ∪ processedIds v)))
            ≤ size ((ids_of (r :: rest) ∪ ids_of (iterate (queueStore w)))
                      ∖ processedIds v))%nat.
    { apply (Hstrict _ _ (req_id r)).
      - pose proof (ids_of_delete (req_id r) (queueStore w)). set_solver.
      - unfold ids_of. simpl. set_solver. }
    nia.
  - rewrite Hq.
    assert (size (<[req_id r:=set_retries (retries r + 1) stored]>
                    (queueStore w)) = size (queueStore w)) as ->.
    { by apply map_size_insert_Some. }
    split; [lia|].
    assert (size ((ids_of rest
                     ∪ ids_of (iterate
                         (<[req_id r:=set_retries (retries r + 1) stored]>
                            (queueStore w))))
                    ∖ ({[req_id r]} ∪ processedIds v))
            ≤ size ((ids_of (r :: rest) ∪ ids_of (iterate (queueStore w)))
                      ∖ processedIds v))%nat.
    { apply Hmono.
      pose proof (ids_of_set_retries (req_id r) (retries r + 1) stored
                    (queueStore w) Hst).
      unfold ids_of in *. simpl. set_solver. }
    nia.
Qed.

Lemma loop_cond_nonempty v : loop_cond v = true → requests v ≠ [].
Proof.
  unfold loop_cond. intros [Hlen _]%andb_prop.
  apply bool_decide_eq_true in Hlen. intros Hnil. rewrite Hnil in Hlen.
  simpl in Hlen. lia.
Qed.

Lemma loop_measure_zero K v w :
  loop_measure K v w = 0%nat → loop_cond v = false.
Proof.
  unfold loop_measure, loop_cond. intros Hm.
  rewrite bool_decide_eq_false_2; [done|]. lia.
Qed.

(** With fuel for its variant the loop runs to its end. *)
Lemma sync_loop_terminates K fuel v w :
  bounded K v w → (loop_measure K v w ≤ fuel)%nat →
  ∃ v' w', sync_loop fuel v w = (Returned v', w').
Proof.
  revert v w. induction fuel as [|fuel IH]; intros v w Hb Hm; simpl.
  - rewrite (loop_measure_zero K v w) by lia. by eexists _, _.
  - destruct (loop_cond v) eqn:Hc; [|by eexists _, _].
    destruct (loop_body_step v w (loop_cond_nonempty v Hc))
      as (v1 & w1 & Hrun & Hstep).
    unfold bind. rewrite Hrun.
    destruct (body_step_measure K v w v1 w1 Hb Hstep) as [Hb1 Hm1].
    apply IH; [done|lia].
Qed.

(** A property that every turn preserves holds when the loop ends. *)
Lemma sync_loop_invariant (I : LoopVars → World P → Prop) fuel v w v' w' :
  (∀ v w v' w',
     I v w → loop_cond v = true → body_step v w v' w' → I v' w') →
  I v w →
  sync_loop fuel v w = (Returned v', w') →
  I v' w' ∧ loop_cond v' = false.
Proof.
  intros Hpres. revert v w.
  induction fuel as [|fuel IH]; intros v w HI; simpl.
  - destruct (loop_cond v) eqn:Hc; [done|].
    unfold ret. intros [= <- <-]. done.
  - destruct (loop_cond v) eqn:Hc.
    + destruct (loop_body_step v w (loop_cond_nonempty v Hc))
        as (v1 & w1 & Hrun & Hstep).
      unfold bind. rewrite Hrun. apply IH. by eapply Hpres.
    + unfold ret. intros [= <- <-]. done.
Qed.

Lemma initial_measure w :
  (loop_measure (size (queueStore w)) (initial_vars w)
     (set_syncInProgress true w) < drain_fuel w)%nat.
Proof.
  unfold loop_measure, drain_fuel, unprocessed, initial_vars. simpl.
  rewrite length_pending, ids_of_pending.
  assert (size ((ids_of (iterate (queueStore w))
                   ∪ ids_of (iterate (queueStore w))) ∖ ∅)
          ≤ size (queueStore w))%nat; [|nia].
  etrans; [apply subseteq_size|].
  - assert ((ids_of (iterate (queueStore w))
               ∪ ids_of (iterate (queueStore w))) ∖ ∅
            ⊆ ids_of (iterate (queueStore w))) as Hsub by set_solver.
    exact Hsub.
  - etrans; [apply size_ids_of|]. unfold iterate.
    by rewrite length_fmap, length_map_to_list.
Qed.

(** The loop of a drain, started from the listing of the queue, ends. *)
Lemma drain_loop_returns w :
  ∃ v' w', sync_loop (drain_fuel w) (initial_vars w)
             (set_syncInProgress true w) = (Returned v', w').
Proof.
  apply (sync_loop_terminates (size (queueStore w))).
  - split; simpl; [by rewrite length_pending|done].
  - pose proof (initial_measure w). lia.
Qed.

Lemma notifySyncComplete_spec w :
  ∃ w', notifySyncComplete w = (Returned tt, w')
        ∧ only_history w w'
        ∧ history w' = history w ++ (EvCallback <$> syncCallbacks w).
Proof.
  unfold notifySyncComplete, bind, get.
  generalize (syncCallbacks w) as cbs. intros cbs.
  assert (∀ w0, ∃ w', for_each (λ c, emit (EvCallback c)) cbs w0
                      = (Returned tt, w')
            ∧ only_history w0 w'
            ∧ history w' = history w0 ++ (EvCallback <$> cbs)) as H; [|done].
  unfold emit, modify.
  induction cbs as [|c cbs IH]; intros w0; simpl.
  - exists w0. rewrite app_nil_r. by repeat split.
  - unfold bind.
    destruct (IH (set_history (history w0 ++ [EvCallback c]) w0))
      as (w' & -> & Hoh & Hh).
    exists w'. split; [done|]. split.
    + unfold only_history in *. simpl in *. done.
    + rewrite Hh. simpl. by rewrite <-app_assoc.
Qed.

(** A drain that passes its guard: the loop, the callbacks, and the
    release of the guard. *)
Lemma syncPendingRequests_free fuel w :
  syncInProgress w = false →
  syncPendingRequests fuel w
  = try_finally
      (bind (sync_loop fuel (initial_vars w)) (λ _, notifySyncComplete))
      (set_syncInProgress false) (set_syncInProgress true w).
Proof.
  intros Hfree. unfold syncPendingRequests, bind at 1, get. rewrite Hfree.
  reflexivity.
Qed.

Lemma drain_unfold w :
  syncInProgress w = false →
  ∃ v' w1 w2,
    sync_loop (drain_fuel w) (initial_vars w) (set_syncInProgress true w)
      = (Returned v', w1)
    ∧ notifySyncComplete w1 = (Returned tt, w2)
    ∧ drain w = (Returned tt, set_syncInProgress false w2).
Proof.
  intros Hfree.
  destruct (drain_loop_returns w) as (v' & w1 & Hloop).
  destruct (notifySyncComplete_spec w1) as (w2 & Hn & _).
  exists v', w1, w2. split; [done|]. split; [done|].
  unfold drain. rewrite syncPendingRequests_free by done.
  unfold try_finally, bind. by rewrite Hloop, Hn.
Qed.

(** *** The invariant of the loop *)

Lemma attempts_app h1 h2 : attempts (h1 ++ h2) = attempts h1 ++ attempts h2.
Proof. apply omap_app. Qed.

Lemma synced_app h1 h2 : synced (h1 ++ h2) = synced h1 ++ synced h2.
Proof. apply omap_app. Qed.

Lemma callbacks_fired_app h1 h2 :
  callbacks_fired (h1 ++ h2) = callbacks_fired h1 ++ callbacks_fired h2.
Proof. apply omap_app. Qed.

Lemma by_timestamp_tail r rest : by_timestamp (r :: rest) → by_timestamp rest.
Proof. unfold by_timestamp. by intros [_ ?]%StronglySorted_cons. Qed.

Lemma by_timestamp_head r rest u :
  by_timestamp (r :: rest) → u ∈ r :: rest → ts_le r u.
Proof.
  unfold by_timestamp. intros [Hall _]%StronglySorted_cons.
  intros [->|Hu]%elem_of_cons; [unfold ts_le; lia|].
  by eapply Forall_forall in Hall.
Qed.

Lemma by_timestamp_snoc l r :
  by_timestamp l → (∀ a, a ∈ l → ts_le a r) → by_timestamp (l ++ [r]).
Proof.
  intros Hl Hr. apply StronglySorted_app_2; [|done|].
  - intros a b Ha ->%list_elem_of_singleton. auto.
  - repeat constructor.
Qed.

Lemma handled_mono x0 now evs evs' :
  handled x0 now evs →
  (∀ a, a ∈ attempts evs → a ∈ attempts evs') →
  (∀ k, k ∈ synced evs → k ∈ synced evs') →
  (req_id x0 ∉ synced evs → retries x0 < 3 → req_id x0 ∉ synced evs') →
  handled x0 now evs'.
Proof.
  intros [H|[(?&?&?&?)|(?&?&?&?)]] Ha Hs Hn; unfold handled; eauto 10.
Qed.

Section Step.
Variables (q0 : gmap string OfflineRequest) (evs : list Event).
Variables (v : LoopVars) (w : World P).
Variables (r : OfflineRequest) (rest : list OfflineRequest).
Hypothesis Hfacts : drain_facts q0 evs v w.
Hypothesis Hreq : requests v = r :: rest.

Lemma facts_skip :
  req_id r ∈ processedIds v →
  drain_facts q0 evs
    {| requests := rest; processedIds := processedIds v;
       processedCount := processedCount v |} w.
Proof using Hfacts Hreq.
  intros Hin. destruct Hfacts. rewrite Hreq in *.
  constructor; simpl; try done.
  - by eapply by_timestamp_tail.
  - intros x Hx. apply inv_snapshot0. by right.
  - intros k x Hk Hnk.
    pose proof (inv_complete0 k x Hk Hnk) as [->|?]%elem_of_cons; [|done].
    rewrite (inv_wf0 k r Hk) in Hin. done.
  - intros a u Ha Hu. apply inv_attempts_before0; [done|by right].
Qed.

Lemma head_stored :
  req_id r ∉ processedIds v →
  queueStore w !! req_id r = Some r ∧ q0 !! req_id r = Some r.
Proof using Hfacts Hreq.
  intros Hnin. destruct Hfacts.
  assert (queueStore w !! req_id r = Some r) as Hst.
  { apply inv_snapshot0; [|done]. rewrite Hreq. by left. }
  split; [done|]. by rewrite <-inv_untouched0.
Qed.

(** The listing is taken afresh after the head has been deleted. *)
Lemma facts_relisted w' evs' n :
  req_id r ∉ processedIds v →
  queueStore w' = delete (req_id r) (queueStore w) →
  by_timestamp (attempts evs') →
  (∀ a, a ∈ attempts evs' → a ∈ attempts evs ∨ a = r ∧ retries r < 3) →
  (∀ a, a ∈ attempts evs → a ∈ attempts evs') →
  (∀ k, k ∈ synced evs' → k ∈ synced evs ∨ k = req_id r) →
  (∀ k, k ∈ synced evs → k ∈ synced evs') →
  handled r None evs' →
  n = Z.of_nat (length (synced evs')) →
  drain_facts q0 evs'
    {| requests := pending (queueStore w');
       processedIds := {[req_id r]} ∪ processedIds v;
       processedCount := n |} w'.
Proof using Hfacts Hreq.
  intros Hnin Hq Hsorted Hatt Hatt' Hsyn Hsyn' Hhead Hn.
  destruct (head_stored Hnin) as [Hst Hst0].
  destruct Hfacts. rewrite Hreq in *.
  assert (∀ u, u ∈ pending (queueStore w') →
            req_id u ≠ req_id r ∧ queueStore w !! req_id u = Some u) as Hpend.
  { intros u [k Hk]%elem_of_pending. rewrite Hq in Hk.
    apply lookup_delete_Some in Hk as [Hne Hk].
    by rewrite (inv_wf0 k u Hk). }
  constructor; simpl.
  - rewrite Hq. by apply map_Forall_delete.
  - apply pending_sorted.
  - intros x Hx _. destruct (Hpend x Hx) as [Hne Hk].
    rewrite Hq. by rewrite lookup_delete_ne.
  - intros k x Hk _. apply elem_of_pending. eauto.
  - intros k Hk. rewrite Hq, lookup_delete_ne by set_solver.
    apply inv_untouched0. set_solver.
  - done.
  - intros a u Ha Hu Hnu. destruct (Hpend u Hu) as [Hne Hk].
    assert (u ∈ r :: rest) as Hin.
    { eapply inv_complete0; [done|]. set_solver. }
    destruct (Hatt a Ha) as [Ha'|[-> _]].
    + apply inv_attempts_before0; [done..|]. set_solver.
    + by eapply by_timestamp_head.
  - intros a Ha. destruct (Hatt a Ha) as [Ha'|[-> Hlt]].
    + destruct (inv_attempted0 a Ha') as (?&?&?). set_solver.
    + split; [done|]. split; [done|]. set_solver.
  - intros k Hk. destruct (Hsyn k Hk) as [Hk'| ->]; [|set_solver].
    apply inv_synced0 in Hk'. set_solver.
  - intros k Hk. destruct (decide (k = req_id r)) as [->|Hne].
    + exists r. split; [done|]. by rewrite Hq, lookup_delete_eq.
    + rewrite Hq, lookup_delete_ne by done.
      destruct (inv_processed0 k) as (x0 & Hx0 & Hh); [set_solver|].
      exists x0. split; [done|].
      pose proof (inv_start0 k x0 Hx0) as Hid. simpl in Hid.
      eapply handled_mono; [done..|].
      intros Hns _ Hin. destruct (Hsyn _ Hin); congruence.
  - done.
  - done.
Qed.

(** The head is kept with one more retry and the loop moves on. *)
Lemma facts_failed w' evs1 :
  req_id r ∉ processedIds v →
  retries r < 3 →
  queueStore w' = <[req_id r := set_retries (retries r + 1) r]> (queueStore w) →
  quiet evs1 →
  drain_facts q0 (evs ++ EvProcessing r :: evs1)
    {| requests := rest;
       processedIds := {[req_id r]} ∪ processedIds v;
       processedCount := processedCount v |} w'.
Proof using Hfacts Hreq.
  intros Hnin Hlt Hq (Hqa & Hqs & _).
  destruct (head_stored Hnin) as [Hst Hst0].
  destruct Hfacts. rewrite Hreq in *.
  assert (attempts (evs ++ EvProcessing r :: evs1) = attempts evs ++ [r])
    as Hatt.
  { rewrite attempts_app. simpl. fold (attempts evs1). by rewrite Hqa. }
  assert (synced (evs ++ EvProcessing r :: evs1) = synced evs) as Hsyn.
  { rewrite synced_app. simpl. fold (synced evs1).
    by rewrite Hqs, app_nil_r. }
  constructor; simpl; rewrite ?Hatt, ?Hsyn.
  - rewrite Hq. by apply map_Forall_insert_2.
  - by eapply by_timestamp_tail.
  - intros x Hx Hnx. rewrite Hq, lookup_insert_ne by set_solver.
    apply inv_snapshot0; [by right|set_solver].
  - intros k x Hk Hnk. rewrite Hq, lookup_insert_ne in Hk by set_solver.
    assert (x ∈ r :: rest) as [->|?]%elem_of_cons; [|..|done].
    { eapply inv_complete0; [done|set_solver]. }
    rewrite (inv_wf0 k r Hk) in Hnk. set_solver.
  - intros k Hk. rewrite Hq, lookup_insert_ne by set_solver.
    apply inv_untouched0. set_solver.
  - apply by_timestamp_snoc; [done|]. intros a Ha.
    apply inv_attempts_before0; [done|by left|done].
  - intros a u [Ha| ->%list_elem_of_singleton]%elem_of_app Hu Hnu.
    + apply inv_attempts_before0; [done|by right|set_solver].
    + eapply by_timestamp_head; [done|by right].
  - intros a [Ha| ->%list_elem_of_singleton]%elem_of_app.
    + destruct (inv_attempted0 a Ha) as (?&?&?). set_solver.
    + split; [done|]. split; [done|]. set_solver.
  - intros k Hk. apply inv_synced0 in Hk. set_solver.
  - intros k Hk. destruct (decide (k = req_id r)) as [->|Hne].
    + exists r. split; [done|]. rewrite Hq, lookup_insert_eq.
      right. right. rewrite Hatt, Hsyn. split; [done|].
      split; [apply elem_of_app; right; by apply list_elem_of_singleton|].
      split; [|done]. intros Hin. by apply inv_synced0 in Hin.
    + rewrite Hq, lookup_insert_ne by done.
      destruct (inv_processed0 k) as (x0 & Hx0 & Hh); [set_solver|].
      exists x0. split; [done|].
      eapply handled_mono; [done|..]; rewrite ?Hatt, ?Hsyn; auto.
      intros a Ha. apply elem_of_app. by left.
  - done.
  - done.
Qed.

End Step.

Lemma drain_inv_step q0 h0 v w v' w' :
  drain_inv q0 h0 v w → loop_cond v = true → body_step v w v' w' →
  drain_inv q0 h0 v' w'.
Proof.
  intros (evs & Hh & Hcb & Hfacts) _ Hstep.
  destruct Hstep as
    [r rest Hreq Hin
    |r rest w' Hreq Hnin Hret Hq Hh' Hfl
    |r rest Hreq Hnin Hret Hst
    |r rest w' evs1 Hreq Hnin Hret Hst Hq Hh' Hev Hfl
    |r rest w' evs1 stored Hreq Hnin Hret Hst Hq Hh' Hev Hfl].
  - exists evs. split; [done|]. split; [done|]. by eapply facts_skip.
  - exists evs. split; [congruence|]. split; [done|].
    eapply facts_relisted; eauto using inv_attempts_sorted.
    + left. done.
    + apply (inv_count _ _ _ _ Hfacts).
  - destruct (head_stored q0 evs v w r rest Hfacts Hreq Hnin). congruence.
  - destruct Hev as (Hqa & Hqs & Hqc).
    assert (attempts (evs ++ EvProcessing r :: (evs1 ++ [EvSynced (req_id r)]))
            = attempts evs ++ [r]) as Hatt.
    { rewrite attempts_app. simpl. fold (attempts (evs1 ++ [EvSynced (req_id r)])).
      by rewrite attempts_app, Hqa. }
    assert (synced (evs ++ EvProcessing r :: (evs1 ++ [EvSynced (req_id r)]))
            = synced evs ++ [req_id r]) as Hsyn.
    { rewrite synced_app. simpl. fold (synced (evs1 ++ [EvSynced (req_id r)])).
      by rewrite synced_app, Hqs. }
    exists (evs ++ EvProcessing r :: (evs1 ++ [EvSynced (req_id r)])).
    split; [by rewrite Hh', Hh, <-app_assoc|]. split.
    { rewrite callbacks_fired_app. simpl.
      fold (callbacks_fired (evs1 ++ [EvSynced (req_id r)])).
      by rewrite callbacks_fired_app, Hcb, Hqc. }
    eapply facts_relisted; eauto; rewrite ?Hatt, ?Hsyn.
    + apply by_timestamp_snoc; [by eapply inv_attempts_sorted|].
      intros a Ha. eapply inv_attempts_before; eauto.
      rewrite Hreq. by left.
    + intros a [Ha| ->%list_elem_of_singleton]%elem_of_app; auto.
    + intros a Ha. apply elem_of_app. by left.
    + intros k [Hk| ->%list_elem_of_singleton]%elem_of_app; auto.
    + intros k Hk. apply elem_of_app. by left.
    + right. left. rewrite Hatt, Hsyn.
      split; [done|].
      split; [apply elem_of_app; right; by apply list_elem_of_singleton|].
      split; [apply elem_of_app; right; by apply list_elem_of_singleton|].
      done.
    + rewrite length_app. simpl.
      rewrite (inv_count _ _ _ _ Hfacts). lia.
  - destruct (head_stored q0 evs v w r rest Hfacts Hreq Hnin) as [Hst' _].
    assert (stored = r) as -> by congruence.
    exists (evs ++ EvProcessing r :: evs1).
    split; [by rewrite Hh', Hh, <-app_assoc|]. split.
    { destruct Hev as (_ & _ & Hqc). rewrite callbacks_fired_app. simpl.
      fold (callbacks_fired evs1). by rewrite Hcb, Hqc. }
    by eapply facts_failed.
Qed.

Lemma count_inv_step h0 v w v' w' :
  count_inv h0 v w → loop_cond v = true → body_step v w v' w' →
  count_inv h0 v' w'.
Proof.
  intros (evs & Hh & Hcb & Hcount & Hle) Hcond Hstep.
  apply andb_prop in Hcond as [_ Hlt%bool_decide_eq_true].
  destruct Hstep as
    [r rest Hreq Hin
    |r rest w' Hreq Hnin Hret Hq Hh' Hfl
    |r rest Hreq Hnin Hret Hst
    |r rest w' evs1 Hreq Hnin Hret Hst Hq Hh' (Hqa & Hqs & Hqc) Hfl
    |r rest w' evs1 stored Hreq Hnin Hret Hst Hq Hh' (Hqa & Hqs & Hqc) Hfl];
    simpl.
  - by exists evs.
  - exists evs. by rewrite Hh'.
  - by exists evs.
  - exists (evs ++ EvProcessing r :: (evs1 ++ [EvSynced (req_id r)])).
    split; [by rewrite Hh', Hh, <-app_assoc|].
    rewrite callbacks_fired_app, synced_app. simpl.
    fold (callbacks_fired (evs1 ++ [EvSynced (req_id r)])).
    fold (synced (evs1 ++ [EvSynced (req_id r)])).
    rewrite callbacks_fired_app, synced_app, Hcb, Hqc, Hqs. simpl.
    split; [done|]. rewrite length_app. simpl. lia.
  - exists (evs ++ EvProcessing r :: evs1).
    split; [by rewrite Hh', Hh, <-app_assoc|].
    rewrite callbacks_fired_app, synced_app. simpl.
    fold (callbacks_fired evs1). fold (synced evs1).
    rewrite Hcb, Hqc, Hqs, !app_nil_r. auto.
Qed.

(** *** A whole drain *)

Lemma initial_facts w :
  queue_wf (queueStore w) →
  drain_facts (queueStore w) [] (initial_vars w) (set_syncInProgress true w).
Proof.
  intros Hwf. constructor; simpl; try done.
  - apply pending_sorted.
  - intros x [k Hk]%elem_of_pending _. by rewrite (Hwf k x Hk).
  - intros k x Hk _. apply elem_of_pending. eauto.
  - constructor.
  - intros a u Ha. by apply elem_of_nil in Ha.
  - intros a Ha. by apply elem_of_nil in Ha.
  - intros k Hk. by apply elem_of_nil in Hk.
Qed.

Lemma same_flags_step (w0 : World P) v w v' w' :
  same_flags w0 w → body_step v w v' w' → same_flags w0 w'.
Proof.
  intros (Ha & Hb & Hc) Hstep.
  destruct Hstep as
    [| ? ? ? _ _ _ _ _ (Ha' & Hb' & Hc') | | ? ? ? ? _ _ _ _ _ _ _ (Ha' & Hb' & Hc')
     | ? ? ? ? ? _ _ _ _ _ _ _ (Ha' & Hb' & Hc')];
    repeat split; congruence.
Qed.

Lemma attempts_callbacks cbs : attempts (EvCallback <$> cbs) = [].
Proof. by induction cbs. Qed.

Lemma synced_callbacks cbs : synced (EvCallback <$> cbs) = [].
Proof. by induction cbs. Qed.

Lemma callbacks_fired_callbacks cbs :
  callbacks_fired (EvCallback <$> cbs) = cbs.
Proof. induction cbs as [|c cbs IH]; simpl; [done|]. by f_equal. Qed.

Lemma trace_app w w' evs : history w' = history w ++ evs → trace w w' = evs.
Proof. unfold trace. intros ->. by rewrite drop_app_length. Qed.

(** A call of the drain entry point while a drain is running. *)
Lemma drain_busy fuel w :
  syncInProgress w = true → syncPendingRequests fuel w = (Returned tt, w).
Proof.
  intros Hbusy. unfold syncPendingRequests, bind, get. by rewrite Hbusy.
Qed.

(** A drain that passes its guard, for any property [I] of the loop that
    holds at its start and that every turn preserves. *)
Lemma drain_run (I : LoopVars → World P → Prop) w :
  syncInProgress w = false →
  I (initial_vars w) (set_syncInProgress true w) →
  (∀ v w v' w',
     I v w → loop_cond v = true → body_step v w v' w' → I v' w') →
  ∃ v' w1 w',
    drain w = (Returned tt, w')
    ∧ I v' w1 ∧ loop_cond v' = false
    ∧ syncCallbacks w1 = syncCallbacks w
    ∧ queueStore w' = queueStore w1
    ∧ syncInProgress w' = false
    ∧ history w' = history w1 ++ (EvCallback <$> syncCallbacks w).
Proof.
  intros Hfree Hinit Hstep.
  destruct (drain_unfold w Hfree) as (v' & w1 & w2 & Hloop & Hn & Hdrain).
  destruct (sync_loop_invariant
              (λ v w1, I v w1 ∧ same_flags (set_syncInProgress true w) w1)
              _ _ _ _ _
              (λ v0 w0 v1 w1' HI Hc Hs,
                 conj (Hstep v0 w0 v1 w1' (proj1 HI) Hc Hs)
                      (same_flags_step _ v0 w0 v1 w1' (proj2 HI) Hs))
              (conj Hinit (conj eq_refl (conj eq_refl eq_refl))) Hloop)
    as [[HI (_ & _ & Hcb)] Hend].
  destruct (notifySyncComplete_spec w1) as (w2' & Hn' & Hoh & Hh).
  rewrite Hn in Hn'. injection Hn' as <-.
  destruct Hoh as (_ & _ & _ & Hq & _).
  exists v', w1, (set_syncInProgress false w2).
  simpl in *. rewrite Hh, Hcb. done.
Qed.

Lemma drain_summary w :
  syncInProgress w = false → queue_wf (queueStore w) →
  ∃ v' w1 evs,
    drain_facts (queueStore w) evs v' w1
    ∧ loop_cond v' = false
    ∧ (drain w).1 = Returned tt
    ∧ queueStore (drain w).2 = queueStore w1
    ∧ attempts (trace w (drain w).2) = attempts evs
    ∧ synced (trace w (drain w).2) = synced evs.
Proof.
  intros Hfree Hwf.
  destruct (drain_run (drain_inv (queueStore w) (history w)) w Hfree)
    as (v' & w1 & w' & Hdrain & (evs & Hh & Hcb & Hfacts) & Hend & _ & Hq
        & _ & Hh').
  { exists []. rewrite app_nil_r. auto using initial_facts. }
  { apply drain_inv_step. }
  exists v', w1, evs. rewrite Hdrain. simpl.
  rewrite (trace_app w w' (evs ++ (EvCallback <$> syncCallbacks w)))
    by (by rewrite Hh', Hh, <-app_assoc).
  rewrite attempts_app, synced_app, attempts_callbacks, synced_callbacks.
  by rewrite !app_nil_r.
Qed.

Lemma trace_refl w : trace w w = [].
Proof. unfold trace. by rewrite drop_all. Qed.

Lemma drain_busy_eq w : syncInProgress w = true → drain w = (Returned tt, w).
Proof. apply drain_busy. Qed.

(** More fuel than the loop needs changes nothing. *)
Lemma sync_loop_more_fuel fuel fuel' v w v' w' :
  sync_loop fuel v w = (Returned v', w') → (fuel ≤ fuel')%nat →
  sync_loop fuel' v w = (Returned v', w').
Proof.
  revert fuel' v w. induction fuel as [|fuel IH]; intros fuel' v w; simpl.
  - destruct (loop_cond v) eqn:Hc; [done|].
    intros Hr _. destruct fuel'; simpl; by rewrite Hc.
  - destruct (loop_cond v) eqn:Hc.
    + intros Hr Hle. destruct fuel' as [|fuel']; [lia|]. simpl.
      rewrite Hc. unfold bind in *.
      destruct (loop_body v w) as [[v1|e|] w1]; [|done..].
      apply IH; [done|lia].
    + intros Hr _. destruct fuel'; simpl; by rewrite Hc.
Qed.

Lemma drain_more_fuel w fuel :
  (drain_fuel w ≤ fuel)%nat → syncPendingRequests fuel w = drain w.
Proof.
  intros Hle. destruct (syncInProgress w) eqn:Hbusy.
  { by rewrite drain_busy, drain_busy_eq. }
  destruct (drain_unfold w Hbusy) as (v' & w1 & w2 & Hloop & Hn & Hdrain).
  rewrite Hdrain, syncPendingRequests_free by done.
  unfold try_finally, bind.
  by rewrite (sync_loop_more_fuel _ fuel _ _ _ _ Hloop Hle), Hn.
Qed.





(** A turn of the loop returns; it raises the counter only when it has
    replayed the head of its listing with success and removed it. *)
Lemma loop_body_counts v w r rest :
  requests v = r :: rest →
  ∃ v' w',
    loop_body v w = (Returned v', w')
    ∧ (processedCount v' = processedCount v ∧ synced (trace w w') = []
       ∨ processedCount v' = processedCount v + 1
         ∧ synced (trace w w') = [req_id r]
         ∧ attempts (trace w w') = [r]
         ∧ queueStore w' = delete (req_id r) (queueStore w)).
Proof.
  intros Hreq.
  destruct (loop_body_step v w) as (v' & w' & Hrun & Hstep);
    [by rewrite Hreq|].
  exists v', w'. split; [done|].
  destruct Hstep as
    [r' rest' Hreq' Hin
    |r' rest' w' Hreq' Hnin Hret Hq Hh' Hfl
    |r' rest' Hreq' Hnin Hret Hst
    |r' rest' w' evs1 Hreq' Hnin Hret Hst Hq Hh' (Hqa & Hqs & Hqc) Hfl
    |r' rest' w' evs1 stored Hreq' Hnin Hret Hst Hq Hh' (Hqa & Hqs & Hqc)
       Hfl];
    rewrite Hreq in Hreq'; injection Hreq' as <- <-; simpl.
  - left. by rewrite trace_refl.
  - left. rewrite (trace_app w w' []); [done|by rewrite app_nil_r].
  - left. by rewrite trace_refl.
  - right. rewrite (trace_app _ _ _ Hh'). simpl.
    fold (attempts (evs1 ++ [EvSynced (req_id r)])).
    fold (synced (evs1 ++ [EvSynced (req_id r)])).
    by rewrite attempts_app, synced_app, Hqa, Hqs.
  - left. rewrite (trace_app _ _ _ Hh'). simpl. fold (synced evs1).
    by rewrite Hqs.
Qed.

(** C6 — bounded drain.  Every call of the drain returns, whatever fuel
    beyond [drain_fuel] it is given; it completes at most 50 requests; its
    loop ends with an empty listing or with a counter of exactly 50, the
    counter being the number of requests replayed and removed; and a turn
    of the loop raises the counter only when it has replayed the head of
    its listing with success and removed it from the store. *)
Theorem bounded_drain w :
  (∃ w', drain w = (Returned tt, w')
         ∧ (length (synced (trace w w')) ≤ 50)%nat
         ∧ ∀ fuel, (drain_fuel w ≤ fuel)%nat →
                   syncPendingRequests fuel w = (Returned tt, w'))
  ∧ (∃ v' w1, sync_loop (drain_fuel w) (initial_vars w)
                (set_syncInProgress true w) = (Returned v', w1)
              ∧ (requests v' = [] ∨ processedCount v' = 50)
              ∧ processedCount v'
                = Z.of_nat (length (synced (trace w w1))))
  ∧ (∀ v w0 r rest, requests v = r :: rest →
       ∃ v' w', loop_body v w0 = (Returned v', w')
         ∧ (processedCount v' = processedCount v
            ∧ synced (trace w0 w') = []
            ∨ processedCount v' = processedCount v + 1
              ∧ synced (trace w0 w') = [req_id r]
              ∧ attempts (trace w0 w') = [r]
              ∧ queueStore w' = delete (req_id r) (queueStore w0))).
Proof.
  assert (∃ v' w1, sync_loop (drain_fuel w) (initial_vars w)
                (set_syncInProgress true w) = (Returned v', w1)
              ∧ (requests v' = [] ∨ processedCount v' = 50)
              ∧ processedCount v'
                = Z.of_nat (length (synced (trace w w1)))) as Hloop.
  { destruct (drain_loop_returns w) as (v' & w1 & Hloop).
    exists v', w1. split; [done|].
    assert (count_inv (history w) (initial_vars w)
              (set_syncInProgress true w)) as Hinit.
    { exists []. simpl. by rewrite app_nil_r. }
    destruct (sync_loop_invariant (count_inv (history w)) _ _ _ _ _
                (count_inv_step (history w)) Hinit Hloop)
      as [(evs & Hh & _ & Hcount & Hle) Hend].
    rewrite (trace_app _ _ _ Hh). split; [|done].
    unfold loop_cond in Hend. apply andb_false_iff in Hend as [Hend|Hend];
      apply bool_decide_eq_false in Hend.
    - left. destruct (requests v'); [done|]. simpl in Hend. lia.
    - right. lia. }
  split; [|split; [done|apply loop_body_counts]].
  destruct (syncInProgress w) eqn:Hbusy.
  { exists w. rewrite drain_busy_eq, trace_refl by done.
    split; [done|]. split; [simpl; lia|]. intros fuel _.
    by apply drain_busy. }
  destruct (drain_run (count_inv (history w)) w Hbusy)
    as (v' & w1 & w' & Hdrain & (evs & Hh & Hcb & Hcount & Hle) & Hend & _
        & _ & _ & Hh').
  { exists []. simpl. by rewrite app_nil_r. }
  { apply count_inv_step. }
  exists w'. split; [done|]. split.
  - rewrite (trace_app w w' (evs ++ (EvCallback <$> syncCallbacks w)))
      by (by rewrite Hh', Hh, <-app_assoc).
    rewrite synced_app, synced_callbacks, app_nil_r. lia.
  - intros fuel Hfuel. by rewrite drain_more_fuel.
Qed.

End Loop.

(** ** Single-flight drain *)

Section SingleFlight.
Context {P : Platform}.
Implicit Types (w : World P) (p : Process P).

Lemma loop_body_keeps_guard v w v' w' :
  loop_cond v = true → loop_body v w = (Returned v', w') →
  syncInProgress w' = syncInProgress w.
Proof.
  intros Hc Hrun.
  destruct (loop_body_step v w (loop_cond_nonempty v Hc))
    as (v1 & w1 & Hrun' & Hstep).
  rewrite Hrun in Hrun'. injection Hrun' as <- <-.
  by destruct (same_flags_step w v w v' w' (conj eq_refl (conj eq_refl eq_refl))
                 Hstep) as (_ & ? & _).
Qed.

Lemma guard_held_step p p' : guard_held p → proc_step p p' → guard_held p'.
Proof.
  unfold guard_held. intros Hinv Hstep.
  destruct Hstep as
    [fuel Hbusy|Hfree|i Hi|i v v' w' Hi Hc Hrun|i v w' Hi Hc Hn|w' Hsame];
    simpl.
  - by rewrite drain_busy.
  - rewrite Hfree in Hinv. by rewrite Hinv.
  - by rewrite length_insert.
  - rewrite length_insert.
    by rewrite (loop_body_keeps_guard v (world p) v' w' Hc Hrun).
  - apply lookup_lt_Some in Hi as Hlt.
    rewrite length_delete by eauto. destruct (syncInProgress (world p)); lia.
  - by rewrite Hsame.
Qed.

Lemma guard_held_steps p p' :
  rtc proc_step p p' → guard_held p → guard_held p'.
Proof. induction 1; eauto using guard_held_step. Qed.

Lemma reachable_guard_held p : reachable p → guard_held p.
Proof.
  intros (w0 & Hfree & Hsteps).
  eapply guard_held_steps; [done|].
  unfold guard_held. simpl. by rewrite Hfree.
Qed.

(** The big-step drain is a run of the process: it takes the guard,
    lists, turns its loop, and ends. *)
Lemma sync_loop_is_a_run fuel v w v' w' :
  sync_loop fuel v w = (Returned v', w') →
  rtc proc_step {| world := w; tasks := [Looping v] |}
                {| world := w'; tasks := [Looping v'] |}
  ∧ loop_cond v' = false.
Proof.
  revert v w. induction fuel as [|fuel IH]; intros v w; simpl.
  - destruct (loop_cond v) eqn:Hc; [done|]. by intros [= <- <-].
  - destruct (loop_cond v) eqn:Hc; [|by intros [= <- <-]].
    unfold bind. destruct (loop_body v w) as [[v1|e|] w1] eqn:Hrun; [|done..].
    intros Hloop. destruct (IH v1 w1 Hloop) as [Hsteps Hend].
    split; [|done]. eapply rtc_l; [|exact Hsteps].
    by apply (task_turns {| world := w; tasks := [Looping v] |} 0 v v1 w1).
Qed.

Lemma drain_is_a_run w :
  syncInProgress w = false →
  rtc proc_step {| world := w; tasks := [] |}
                {| world := (drain w).2; tasks := [] |}.
Proof.
  intros Hfree.
  destruct (drain_unfold w Hfree) as (v' & w1 & w2 & Hloop & Hn & ->).
  destruct (sync_loop_is_a_run _ _ _ _ _ Hloop) as [Hsteps Hend].
  eapply rtc_l; [by apply call_enters|]. simpl.
  eapply rtc_l;
    [by apply (task_lists
                 {| world := set_syncInProgress true w; tasks := [Listing] |}
                 0)|].
  simpl. etrans; [exact Hsteps|].
  apply rtc_once.
  by apply (task_ends {| world := w1; tasks := [Looping v'] |} 0 v' w2).
Qed.

(** C3 — single-flight drain.  A call of the drain entry point made
    while [syncInProgress] is set returns at once and leaves the world as
    it was: no network call, no store written, no callback fired.  In every
    process that arises from the calls, listings, loop turns and endings of
    drains interleaved with any other activity, at most one drain is under
    way, and then the guard is set. *)
Theorem single_flight_drain fuel w p :
  syncInProgress w = true → reachable p →
  syncPendingRequests fuel w = (Returned tt, w)
  ∧ (length (tasks p) ≤ 1)%nat
  ∧ (tasks p ≠ [] → syncInProgress (world p) = true).
Proof.
  intros Hbusy Hreach. split; [by apply drain_busy|].
  pose proof (reachable_guard_held p Hreach) as Hinv.
  unfold guard_held in Hinv.
  destruct (syncInProgress (world p)), (tasks p); simpl in *;
    split; (done || lia).
Qed.

End SingleFlight.

(** ** The request gateway and the enqueue path *)

Section Gateway.
Context {P : Platform}.
Implicit Types (w : World P) (v : LoopVars).

(** What [directRequest] resolves or rejects to, by the answer of the
    HTTP plugin. *)
Lemma directRequest_outcome endpoint' options w :
  match capacitor_request P (capacitor_options endpoint' options)
          (outside w) with
  | (Some resp, _) =>
      if http_ok (status resp)
      then (directRequest endpoint' options w).1 = Returned (data resp)
      else ∃ msg, (directRequest endpoint' options w).1
                  = Thrown (ExApi {| err_message := msg;
                                     err_status := status resp |})
  | (None, _) => (directRequest endpoint' options w).1 = Thrown network_error
  end.
Proof.
  unfold directRequest, try_catch, bind, emit, modify, ask, http_ok. simpl.
  destruct (capacitor_request P _ (outside w)) as [[resp|] o]; simpl; [|done].
  destruct (bool_decide (status resp < 200) || bool_decide (300 ≤ status resp));
    simpl; eauto.
Qed.

Lemma directRequest_history endpoint' options w :
  history (directRequest endpoint' options w).2
  = history w ++ [EvHttp (capacitor_options endpoint' options)].
Proof.
  unfold directRequest, try_catch, bind, emit, modify, ask. simpl.
  destruct (capacitor_request P _ (outside w)) as [[resp|] o]; simpl; [|done].
  by destruct (bool_decide (status resp < 200) || bool_decide (300 ≤ status resp)).
Qed.

Lemma processApiRequest_fails r w :
  replay_fails r w = true →
  ∃ e w', processApiRequest r w = (Thrown (ExApi e), w').
Proof.
  unfold replay_fails, processApiRequest, bind at 1.
  pose proof (directRequest_outcome (endpoint r) (replay_options r) w) as Hout.
  destruct (capacitor_request P _ (outside w)) as [[resp|] o].
  - intros Hfail%negb_true_iff. rewrite Hfail in Hout.
    destruct Hout as [msg Hout].
    destruct (directRequest (endpoint r) (replay_options r) w) as [res w'].
    simpl in Hout. subst res. eauto.
  - intros _.
    destruct (directRequest (endpoint r) (replay_options r) w) as [res w'].
    simpl in Hout. subst res. unfold network_error. eauto.
Qed.

Lemma directRequest_ok endpoint' options w resp o1 :
  capacitor_request P (capacitor_options endpoint' options) (outside w)
  = (Some resp, o1) →
  http_ok (status resp) = true →
  ∃ w1, directRequest endpoint' options w = (Returned (data resp), w1)
        ∧ history w1
          = history w ++ [EvHttp (capacitor_options endpoint' options)]
        ∧ outside w1 = o1
        ∧ reportImagesStore w1 = reportImagesStore w
        ∧ access_token w1 = access_token w
        ∧ queueStore w1 = queueStore w.
Proof.
  intros Hcap Hok. unfold http_ok in Hok. apply negb_true_iff in Hok.
  unfold directRequest, try_catch, bind, emit, modify, ask. simpl.
  rewrite Hcap. simpl. rewrite Hok. simpl. eexists. split; [done|]. done.
Qed.

(** The turn of the loop on a stored API request whose replay fails. *)
Lemma loop_body_api_failure v w r rest stored :
  requests v = r :: rest →
  req_id r ∉ processedIds v →
  retries r < 3 →
  type r = TypeApi →
  queueStore w !! req_id r = Some stored →
  replay_fails r w = true →
  ∃ w' evs,
    loop_body v w
    = (Returned {| requests := rest;
                   processedIds := {[req_id r]} ∪ processedIds v;
                   processedCount := processedCount v |}, w')
    ∧ queueStore w'
      = <[req_id r := set_retries (retries r + 1) stored]> (queueStore w)
    ∧ history w' = history w ++ EvProcessing r :: evs
    ∧ quiet evs.
Proof.
  intros Hreq Hnin Hlt Htype Hst Hfail.
  unfold loop_body. rewrite Hreq.
  rewrite bool_decide_eq_false_2 by done.
  rewrite bool_decide_eq_false_2 by lia.
  unfold try_catch, bind at 1, get, getItem. rewrite Hst.
  unfold bind at 1, emit at 1, modify at 1. unfold bind at 1. rewrite Htype.
  destruct (processApiRequest_fails r
              (set_history (history w ++ [EvProcessing r]) w))
    as (e & w1 & Hrun); [done|].
  destruct (framed_processApiRequest r
              (set_history (history w ++ [EvProcessing r]) w))
    as [(Hq & _ & _ & evs & Hh & Hquiet) _].
  rewrite Hrun in *. simpl in *.
  unfold updateRequestRetry, bind, get, getItem, modify, emit, modify.
  simpl. rewrite Hq, Hst. simpl.
  eexists _, (evs ++ [EvWarn (WarnFailed (req_id r) (retries r + 1))]).
  split; [done|]. simpl. rewrite Hq. split; [done|]. split.
  - rewrite Hh. by rewrite <-!app_assoc.
  - by apply quiet_app.
Qed.

(** C8 — gateway error surfacing.  [directRequest] answers a response
    whose status is outside 200–299 with an [ApiError] of that status and
    a transport failure with an [ApiError] of status 0, and resolves to the
    body otherwise.  When the replay of a stored API request fails in
    either way, the turn of the drain loop ends in the same manner: the
    stored record gets [retries + 1] and stays, the id is marked handled,
    the loop moves to the rest of its listing, and the counter of
    successes is as before. *)
Theorem gateway_error_surfacing endpoint' options w0 v w r rest stored :
  requests v = r :: rest →
  req_id r ∉ processedIds v →
  retries r < 3 →
  type r = TypeApi →
  queueStore w !! req_id r = Some stored →
  replay_fails r w = true →
  match capacitor_request P (capacitor_options endpoint' options)
          (outside w0) with
  | (Some resp, _) =>
      if http_ok (status resp)
      then (directRequest endpoint' options w0).1 = Returned (data resp)
      else ∃ msg, (directRequest endpoint' options w0).1
                  = Thrown (ExApi {| err_message := msg;
                                     err_status := status resp |})
  | (None, _) =>
      (directRequest endpoint' options w0).1
      = Thrown (ExApi {| err_message := "Network error occurred";
                         err_status := 0 |})
  end
  ∧ (loop_body v w).1
    = Returned {| requests := rest;
                  processedIds := {[req_id r]} ∪ processedIds v;
                  processedCount := processedCount v |}
  ∧ queueStore (loop_body v w).2
    = <[req_id r := set_retries (retries r + 1) stored]> (queueStore w)
  ∧ synced (trace w (loop_body v w).2) = [].
Proof.
  intros Hreq Hnin Hlt Htype Hst Hfail.
  split; [apply directRequest_outcome|].
  destruct (loop_body_api_failure v w r rest stored)
    as (w' & evs & -> & Hq & Hh & _ & Hqs & _); [done..|].
  simpl. split; [done|]. split; [done|].
  rewrite (trace_app _ _ _ Hh). simpl. done.
Qed.

(** C7 — enqueue semantics.  An offlineable request submitted while
    offline makes no network call.  It reads the clock and the random
    generator for its id, and the clock again for its timestamp.  When the
    store takes the write, the call resolves to an acknowledgement that
    carries that id, and the queue has gained, under that id, the record
    of the request with [retries = 0] and that timestamp.  When the store
    refuses the write, the call rejects with an [ApiError] and the queue
    is as before. *)
Theorem enqueue_semantics endpoint' options w :
  opt_offlineable options = Some true →
  isOnline w = false →
  let '(t1, o1) := date_now P (outside w) in
  let '(suffix, o2) := math_random P o1 in
  let '(t2, o3) := date_now P o2 in
  let '(refused, o4) := write_refused P o3 in
  let '(t3, _) := date_now P o4 in
  let id' := "req_" +:+ pretty t1 +:+ "_" +:+ suffix in
  history (request endpoint' options w).2 = history w
  ∧ if refused
    then (request endpoint' options w).1
         = Thrown (ExApi {| err_message := "Failed to queue offline request";
                            err_status := 0 |})
         ∧ queueStore (request endpoint' options w).2 = queueStore w
    else (request endpoint' options w).1
         = Returned (Queued
             {| ack_success := true;
                ack_message := "Request queued for offline execution";
                ack_requestId := id';
                ack_queuedAt := t3;
                ack_offline := true |})
         ∧ queueStore (request endpoint' options w).2
           = <[id' := queued_record endpoint' options id' t2]> (queueStore w).
Proof.
  intros Hoff Honline.
  destruct (request endpoint' options w) as [res w'] eqn:Hrun. simpl.
  revert Hrun.
  unfold request, handleOfflineRequest, queueRequest, generateId.
  unfold bind at 1, get. rewrite Hoff, Honline. simpl.
  unfold bind, try_catch, ask, ret, throw, modify. cbn beta.
  destruct (date_now P (outside w)) as [t1 o1]. cbn.
  destruct (math_random P o1) as [suffix o2]. cbn.
  destruct (date_now P o2) as [t2 o3]. cbn.
  destruct (write_refused P o3) as [[] o4]; cbn.
  - destruct (date_now P o4) as [t3 o5]. by intros [= <- <-].
  - destruct (date_now P o4) as [t3 o5]. cbn. by intros [= <- <-].
Qed.


End Gateway.

(** ** Asset reconciliation *)

Section Reconciliation.
Context {P : Platform}.
Implicit Types (w : World P).

Lemma only_history_refl w : only_history w w.
Proof. by repeat split. Qed.

Lemma map_M_reconcile sr its imgs w :
  items sr = Some its →
  (∀ im, im ∈ imgs → is_Some (db_item its im) →
         is_Some (decode_data_url P (ri_base64Data im))) →
  ∃ w', map_M (reconcile_image sr) imgs w
        = (Returned (reconciled P its <$> imgs), w')
        ∧ only_history w w'
        ∧ history w' = history w ++ unmatched_warnings its imgs.
Proof.
  intros Hits. revert w. induction imgs as [|im imgs IH]; intros w Hdec.
  - exists w. simpl. rewrite app_nil_r. auto using only_history_refl.
  - simpl. unfold bind at 1. unfold reconcile_image at 1.
    unfold reconciled at 1. rewrite Hits.
    destruct (db_item its im) as [dbItem|] eqn:Hdb.
    + destruct (Hdec im) as [[mime bytes] Hd]; [by left|by rewrite Hdb|].
      unfold bind at 1, base64ToFile. rewrite Hd. simpl.
      destruct (IH w) as (w' & Hrun & Hoh & Hh).
      { intros im' Him'. apply Hdec. by right. }
      unfold bind at 1. rewrite Hrun. simpl.
      exists w'. done.
    + unfold bind at 1, emit, modify. simpl.
      destruct (IH (set_history
                      (history w ++ [EvWarn (WarnNoDatabaseItem (ri_tempId im))])
                      w))
        as (w' & Hrun & Hoh & Hh).
      { intros im' Him'. apply Hdec. by right. }
      unfold bind at 1. rewrite Hrun. simpl.
      exists w'. split; [done|]. split; [exact Hoh|].
      rewrite Hh. simpl. by rewrite <-app_assoc.
Qed.

Lemma omap_fst_fmap {A B C} (f : A → option (B * C)) (l : list A) :
  omap (fmap fst) (f <$> l) = (omap f l).*1.
Proof.
  induction l as [|x l IH]; csimpl; [done|].
  destruct (f x) as [[b c]|]; csimpl; by rewrite IH.
Qed.

Lemma omap_snd_fmap {A B C} (f : A → option (B * C)) (l : list A) :
  omap (fmap snd) (f <$> l) = (omap f l).*2.
Proof.
  induction l as [|x l IH]; csimpl; [done|].
  destruct (f x) as [[b c]|]; csimpl; by rewrite IH.
Qed.

Lemma upload_form_is_Some reportId' (pairs : list (File * ImageMeta)) :
  is_Some (upload_form {| reportId := reportId'; upl_images := pairs.*2;
                          files := pairs.*1 |}).
Proof.
  unfold upload_form. simpl.
  assert (is_Some (mapM (λ '(index, file),
            (λ image, ("image_" +:+ pretty (itemId image), FormFile file))
              <$> pairs.*2 !! index) (imap pair pairs.*1))) as [form ->];
    [|by eexists].
  apply mapM_is_Some, Forall_forall. intros [i file] Hin.
  apply list_elem_of_lookup in Hin as [j Hj].
  rewrite list_lookup_imap in Hj.
  destruct (pairs.*1 !! j) as [file'|] eqn:Hfile; [|done].
  injection Hj as <- <-. apply lookup_lt_Some in Hfile.
  rewrite length_fmap in Hfile.
  destruct (lookup_lt_is_Some_2 pairs.*2 j) as [image Himage];
    [by rewrite length_fmap|]. simpl. rewrite Himage. by eexists.
Qed.

(** What [uploadImages] does with a form it could build. *)
Lemma uploadImages_outcome token uploadData form w :
  upload_form uploadData = Some form →
  history (uploadImages token uploadData w).2
  = history w ++ [EvFetch (upload_request token form)]
  ∧ reportImagesStore (uploadImages token uploadData w).2
    = reportImagesStore w
  ∧ if upload_accepted (upload_request token form) (outside w)
    then ∃ msg, (uploadImages token uploadData w).1
                = Returned (JsonObject msg)
    else (∃ e, (uploadImages token uploadData w).1 = Thrown e)
         ∨ (uploadImages token uploadData w).1 = Returned JsonFalsy.
Proof.
  intros Hform.
  destruct (uploadImages token uploadData w) as [res w'] eqn:Hrun.
  revert Hrun. unfold uploadImages, upload_accepted. rewrite Hform.
  unfold try_catch, bind at 1, emit, modify, bind, ask. simpl.
  destruct (fetch P (upload_request token form) (outside w))
    as [[resp|] o]; simpl.
  - destruct (http_ok (f_status resp)); simpl.
    + destruct (f_json resp) as [[|msg]|]; simpl; intros [= <- <-]; simpl;
        eauto 10.
    + intros [= <- <-]; simpl; eauto 10.
  - intros [= <- <-]; simpl; eauto 10.
Qed.

Lemma matched_assets_reconciled its imgs :
  (∀ im, im ∈ imgs → is_Some (db_item its im) →
         is_Some (decode_data_url P (ri_base64Data im))) →
  (λ pair, (file_name pair.1, itemId pair.2)) <$> omap (reconciled P its) imgs
  = matched_assets its imgs.
Proof.
  induction imgs as [|im imgs IH]; intros Hdec; [done|].
  simpl. unfold reconciled at 1.
  destruct (db_item its im) as [dbItem|] eqn:Hdb; simpl.
  - destruct (Hdec im) as [[mime bytes] Hd]; [by left|by rewrite Hdb|].
    rewrite Hd. simpl. f_equal. apply IH. intros im' Him'. apply Hdec.
    by right.
  - apply IH. intros im' Him'. apply Hdec. by right.
Qed.

(** The reconciliation of one group.  For a saved report with items, a
    token at hand and a stored group with images: the images without
    database item are skipped with one warning each; the others are
    converted and sent in one upload, under the real ids of their items.
    The group is deleted when nothing matched, and when the upload is
    accepted; when the upload fails the call throws and the group
    stays. *)
Lemma uploadImagesForSyncedReport_spec sr g w its token :
  items sr = Some its →
  images g ≠ [] →
  access_token w = Some token →
  token ≠ "" →
  (∀ im, im ∈ images g → is_Some (db_item its im) →
         is_Some (decode_data_url P (ri_base64Data im))) →
  match omap (reconciled P its) (images g) with
  | [] =>
      (uploadImagesForSyncedReport sr g w).1 = Returned tt
      ∧ history (uploadImagesForSyncedReport sr g w).2
        = history w ++ unmatched_warnings its (images g)
          ++ [EvWarn WarnNoValidImages]
      ∧ reportImagesStore (uploadImagesForSyncedReport sr g w).2
        = delete (grp_id g) (reportImagesStore w)
  | pairs =>
      ∃ form,
        upload_form {| reportId := rd_id sr; upl_images := pairs.*2;
                       files := pairs.*1 |} = Some form
        ∧ history (uploadImagesForSyncedReport sr g w).2
          = history w ++ unmatched_warnings its (images g)
            ++ [EvFetch (upload_request token form)]
        ∧ if upload_accepted (upload_request token form) (outside w)
          then (uploadImagesForSyncedReport sr g w).1 = Returned tt
               ∧ reportImagesStore (uploadImagesForSyncedReport sr g w).2
                 = delete (grp_id g) (reportImagesStore w)
          else (∃ e, (uploadImagesForSyncedReport sr g w).1 = Thrown e)
               ∧ reportImagesStore (uploadImagesForSyncedReport sr g w).2
                 = reportImagesStore w
  end.
Proof.
  intros Hits Himgs Htok Hne Hdec.
  destruct (uploadImagesForSyncedReport sr g w) as [res w'] eqn:Hrun.
  revert Hrun. unfold uploadImagesForSyncedReport.
  rewrite bool_decide_eq_false_2 by (by destruct (images g)).
  destruct (map_M_reconcile sr its (images g) w Hits Hdec)
    as (w1 & Hmap & Hoh & Hh).
  unfold bind at 1. rewrite Hmap.
  rewrite omap_fst_fmap, omap_snd_fmap, !length_fmap.
  destruct Hoh as (_ & _ & _ & _ & _ & Hgroups & Htok1 & Hout).
  destruct (omap (reconciled P its) (images g)) as [|pair pairs] eqn:Hpairs.
  - simpl. unfold bind, emit, modify, removeStoredReportImages, modify.
    simpl. intros [= <- <-]. simpl. split; [done|]. rewrite Hgroups.
    split; [|done]. rewrite Hh. by rewrite <-app_assoc.
  - rewrite !bool_decide_eq_true_2 by (simpl; lia).
    unfold bind at 1, get. cbn beta iota delta [andb].
    rewrite Htok1, Htok. unfold truthy.
    change (default "" (Some token)) with token.
    rewrite bool_decide_eq_false_2 by done.
    change (negb (negb false)) with false. cbv iota.
    destruct (upload_form_is_Some (rd_id sr) (pair :: pairs)) as [form Hform].
    destruct (uploadImages_outcome token _ form w1 Hform)
      as (Hh' & Hgroups' & Hacc).
    rewrite Hout in Hacc. unfold bind. cbn beta.
    destruct (uploadImages token _ w1) as [res' w2].
    intros Hrun. exists form. split; [done|].
    simpl in Hh', Hgroups', Hacc. revert Hrun.
    destruct (upload_accepted (upload_request token form) (outside w)).
    + destruct Hacc as [msg ->].
      unfold removeStoredReportImages, modify. cbn beta.
      intros [= <- <-]. simpl.
      rewrite Hgroups', Hgroups. split; [|done].
      rewrite Hh', Hh. by rewrite <-app_assoc.
    + destruct Hacc as [[e ->]| ->]; unfold throw; intros [= <- <-]; simpl;
        (split; [rewrite Hh', Hh; by rewrite <-app_assoc|]);
        rewrite ?Hgroups', ?Hgroups; eauto.
Qed.

(** *** At most one group, and only the oldest *)

Lemma fetch_calls_app h1 h2 :
  fetch_calls (h1 ++ h2) = fetch_calls h1 ++ fetch_calls h2.
Proof. apply omap_app. Qed.

Lemma sends_ret {A} (a : A) : sends_at_most (P:=P) 0 (ret a).
Proof. intros w. split; [done|]. exists []. by rewrite app_nil_r. Qed.

Lemma sends_throw {A} e : sends_at_most (P:=P) (A:=A) 0 (throw e).
Proof. intros w. split; [done|]. exists []. by rewrite app_nil_r. Qed.

Lemma sends_get {A} (f : World P → A) : sends_at_most 0 (get f).
Proof. intros w. split; [done|]. exists []. by rewrite app_nil_r. Qed.

Lemma sends_ask {A} (f : Outside P → A * Outside P) :
  sends_at_most 0 (ask f).
Proof.
  intros w. unfold ask. destruct (f (outside w)) as [a o]. simpl.
  split; [done|]. exists []. by rewrite app_nil_r.
Qed.

Lemma sends_emit_warn wn : sends_at_most (P:=P) 0 (emit (EvWarn wn)).
Proof. intros w. split; [done|]. by exists [EvWarn wn]. Qed.

Lemma sends_emit_fetch rq : sends_at_most (P:=P) 1 (emit (EvFetch rq)).
Proof. intros w. split; [done|]. by exists [EvFetch rq]. Qed.

Lemma sends_weaken {A} n n' (m : M P A) :
  (n ≤ n')%nat → sends_at_most n m → sends_at_most n' m.
Proof.
  intros Hle Hm w. destruct (Hm w) as (Hs & evs & Hh & Hn).
  split; [done|]. exists evs. split; [done|lia].
Qed.

Lemma sends_bind {A B} n1 n2 (m : M P A) (k : A → M P B) :
  sends_at_most n1 m → (∀ a, sends_at_most n2 (k a)) →
  sends_at_most (n1 + n2) (bind m k).
Proof.
  intros Hm Hk w. unfold bind. destruct (Hm w) as (Hs & evs & Hh & Hn).
  destruct (m w) as [[a|e|] w1]; simpl in *.
  - destruct (Hk a w1) as (Hs' & evs' & Hh' & Hn').
    split; [congruence|]. exists (evs ++ evs').
    rewrite Hh', Hh, app_assoc, fetch_calls_app, length_app.
    split; [done|lia].
  - split; [done|]. exists evs. split; [done|lia].
  - split; [done|]. exists evs. split; [done|lia].
Qed.

Lemma sends_try_catch {A} n1 n2 (m : M P A) (h : Exn → M P A) :
  sends_at_most n1 m → (∀ e, sends_at_most n2 (h e)) →
  sends_at_most (n1 + n2) (try_catch m h).
Proof.
  intros Hm Hh w. unfold try_catch. destruct (Hm w) as (Hs & evs & Hhist & Hn).
  destruct (m w) as [[a|e|] w1]; simpl in *.
  - split; [done|]. exists evs. split; [done|lia].
  - destruct (Hh e w1) as (Hs' & evs' & Hh' & Hn').
    split; [congruence|]. exists (evs ++ evs').
    rewrite Hh', Hhist, app_assoc, fetch_calls_app, length_app.
    split; [done|lia].
  - split; [done|]. exists evs. split; [done|lia].
Qed.

Lemma sends_map_M {A B} (f : A → M P B) l :
  (∀ x, sends_at_most 0 (f x)) → sends_at_most 0 (map_M f l).
Proof.
  intros Hf. induction l as [|x l IH]; simpl; [apply sends_ret|].
  apply (sends_bind 0 0); [done|]. intros y.
  apply (sends_bind 0 0); [done|]. intros ys. apply sends_ret.
Qed.

Lemma sends_reconcile_image sr im :
  sends_at_most (P:=P) 0 (reconcile_image sr im).
Proof.
  unfold reconcile_image, base64ToFile.
  destruct (items sr); [|apply sends_throw].
  destruct (db_item _ _).
  - apply (sends_bind 0 0); [|intros; apply sends_ret].
    destruct (decode_data_url _ _) as [[]|];
      [apply sends_ret|apply sends_throw].
  - apply (sends_bind 0 0); [apply sends_emit_warn|intros; apply sends_ret].
Qed.

Lemma sends_rethrow_api {A} e : sends_at_most (P:=P) (A:=A) 0 (rethrow_api e).
Proof. destruct e; apply sends_throw. Qed.

Lemma sends_uploadImages token uploadData :
  sends_at_most (P:=P) 1 (uploadImages token uploadData).
Proof.
  unfold uploadImages. destruct (upload_form uploadData);
    [|apply (sends_weaken 0); [lia|apply sends_throw]].
  apply (sends_try_catch 1 0); [|intros; apply sends_rethrow_api].
  apply (sends_bind 1 0); [apply sends_emit_fetch|]. intros _.
  apply (sends_bind 0 0); [apply sends_ask|]. intros [resp|];
    [|apply sends_throw].
  destruct (negb _); [apply sends_throw|].
  destruct (f_json resp); [apply sends_ret|apply sends_throw].
Qed.

Lemma touches_sends {A} key n (m : M P A) :
  sends_at_most n m → touches key n m.
Proof. intros Hm w. destruct (Hm w) as [Hs Hev]. auto. Qed.

Lemma touches_remove key :
  touches (P:=P) key 0 (removeStoredReportImages key).
Proof.
  intros w. split; [by right|]. exists []. by rewrite app_nil_r.
Qed.

Lemma touches_bind {A B} key n1 n2 (m : M P A) (k : A → M P B) :
  sends_at_most n1 m → (∀ a, touches key n2 (k a)) →
  touches key (n1 + n2) (bind m k).
Proof.
  intros Hm Hk w. unfold bind. destruct (Hm w) as (Hs & evs & Hh & Hn).
  destruct (m w) as [[a|e|] w1]; simpl in *.
  - destruct (Hk a w1) as (Hs' & evs' & Hh' & Hn').
    split; [rewrite <-Hs; exact Hs'|]. exists (evs ++ evs').
    rewrite Hh', Hh, app_assoc, fetch_calls_app, length_app.
    split; [done|lia].
  - split; [by left|]. exists evs. split; [done|lia].
  - split; [by left|]. exists evs. split; [done|lia].
Qed.

Lemma touches_uploadImagesForSyncedReport sr g :
  touches (P:=P) (grp_id g) 1 (uploadImagesForSyncedReport sr g).
Proof.
  unfold uploadImagesForSyncedReport.
  destruct (bool_decide _);
    [apply touches_sends, (sends_weaken 0); [lia|apply sends_ret]|].
  apply (touches_bind _ 0 1);
    [apply sends_map_M, sends_reconcile_image|]. intros results.
  destruct (_ && _).
  - apply (touches_bind _ 0 1); [apply sends_get|]. intros token.
    destruct (negb _);
      [apply touches_sends, (sends_weaken 0); [lia|apply sends_throw]|].
    apply (touches_bind _ 1 0); [apply sends_uploadImages|].
    intros [|msg]; [apply touches_sends, sends_throw|apply touches_remove].
  - apply (touches_bind _ 0 1); [apply sends_emit_warn|]. intros _.
    intros w. destruct (touches_remove (grp_id g) w) as (Hs & evs & Hh & Hn).
    split; [done|]. exists evs. split; [done|lia].
Qed.

(** The fold of [findStoredImagesByTempIds]: nothing when no group
    matches, else a matching group that no matching group is older
    than. *)
Lemma oldest_match_fold wanted l acc :
  match foldl (oldest_match wanted) acc l with
  | None => acc = None ∧ ∀ g', g' ∈ l → hasMatchingTempIds wanted g' = false
  | Some g =>
      (acc = Some g ∨ g ∈ l ∧ hasMatchingTempIds wanted g = true)
      ∧ (∀ a, acc = Some a → grp_timestamp g ≤ grp_timestamp a)
      ∧ (∀ g', g' ∈ l → hasMatchingTempIds wanted g' = true →
               grp_timestamp g ≤ grp_timestamp g')
  end.
Proof.
  revert acc. induction l as [|x l IH]; intros acc; simpl.
  - destruct acc as [a|].
    + split; [by left|]. split; [by intros ? [= ->]|].
      intros g' Hg'. by apply elem_of_nil in Hg'.
    + split; [done|]. intros g' Hg'. by apply elem_of_nil in Hg'.
  - specialize (IH (oldest_match wanted acc x)).
    destruct (foldl (oldest_match wanted) (oldest_match wanted acc x) l)
      as [g|]; unfold oldest_match in IH.
    + destruct IH as (Hsel & Hacc & Hmin).
      destruct (hasMatchingTempIds wanted x) eqn:Hx; simpl in *.
      * destruct acc as [a|].
        -- case_bool_decide as Hlt.
           ++ split; [|split].
              ** destruct Hsel as [[= <-]|[? ?]]; right;
                   (split; [|done]); [by left|by right].
              ** intros a' [= <-]. specialize (Hacc x eq_refl). lia.
              ** intros g' [->|Hg']%elem_of_cons Hm; eauto.
           ++ split; [|split].
              ** destruct Hsel as [?|[? ?]]; [by left|].
                 right. split; [by right|done].
              ** done.
              ** intros g' [->|Hg']%elem_of_cons Hm; [|eauto].
                 specialize (Hacc a eq_refl). lia.
        -- split; [|split].
           ++ destruct Hsel as [[= <-]|[? ?]]; right;
                (split; [|done]); [by left|by right].
           ++ done.
           ++ intros g' [->|Hg']%elem_of_cons Hm; eauto.
      * split; [|split].
        -- destruct Hsel as [?|[? ?]]; [by left|].
           right. split; [by right|done].
        -- done.
        -- intros g' [->|Hg']%elem_of_cons Hm; [congruence|eauto].
    + destruct IH as (Hacc & Hnone).
      destruct (hasMatchingTempIds wanted x) eqn:Hx; simpl in *.
      * destruct acc as [a|]; [case_bool_decide|]; done.
      * split; [done|]. intros g' [->|Hg']%elem_of_cons; eauto.
Qed.

Lemma hasMatchingTempIds_true its g :
  hasMatchingTempIds (wanted_tempIds its) g = true ↔ group_matches its g.
Proof.
  unfold hasMatchingTempIds, group_matches. rewrite existsb_exists.
  split.
  - intros (t & Ht%list_elem_of_In & Hw%bool_decide_eq_true). eauto.
  - intros (t & Ht & Hw). exists t.
    split; [by apply list_elem_of_In|by apply bool_decide_eq_true].
Qed.

Lemma fetch_calls_unmatched_warnings its imgs :
  fetch_calls (unmatched_warnings its imgs) = [].
Proof.
  induction imgs as [|im imgs IH]; [done|].
  simpl. by destruct (db_item its im).
Qed.

(** C9, amended — reconciliation takes one asset group per replay.  When
    stored groups hold temp ids of the saved report's items, the
    reconciliation picks one of them, stored under its own id, that no
    matching group is older than, and is the reconciliation of that group
    alone: every other group is stored afterwards as it was.  With a token
    at hand and images that decode, the picked group meets one of three
    ends.  If it has images with a database item, these are sent in exactly
    one upload; the group is deleted when the upload is accepted, and when
    the upload fails the call throws and the group stays.  If it has images
    but none with a database item, nothing is sent and the group is
    deleted.  If it has no image at all, nothing is sent and it stays. *)
Theorem one_group_per_replay sr its w k0 g0 :
  groups_wf (reportImagesStore w) →
  items sr = Some its →
  reportImagesStore w !! k0 = Some g0 →
  group_matches its g0 →
  ∃ g,
    (findStoredImagesByTempIds (wanted_tempIds its) w).1 = Returned (Some g)
    ∧ reportImagesStore w !! grp_id g = Some g
    ∧ group_matches its g
    ∧ (∀ k g', reportImagesStore w !! k = Some g' → group_matches its g' →
               grp_timestamp g ≤ grp_timestamp g')
    ∧ findAndUploadReportImages sr w = uploadImagesForSyncedReport sr g w
    ∧ (length (fetch_calls (trace w (findAndUploadReportImages sr w).2)) ≤ 1)%nat
    ∧ (reportImagesStore (findAndUploadReportImages sr w).2
       = reportImagesStore w
       ∨ reportImagesStore (findAndUploadReportImages sr w).2
         = delete (grp_id g) (reportImagesStore w))
    ∧ (∀ k, k ≠ grp_id g →
            reportImagesStore (findAndUploadReportImages sr w).2 !! k
            = reportImagesStore w !! k)
    ∧ (∀ token,
         access_token w = Some token → token ≠ "" →
         (∀ im, im ∈ images g → is_Some (db_item its im) →
                is_Some (decode_data_url P (ri_base64Data im))) →
         match omap (reconciled P its) (images g) with
         | [] =>
             (findAndUploadReportImages sr w).1 = Returned tt
             ∧ fetch_calls (trace w (findAndUploadReportImages sr w).2) = []
             ∧ reportImagesStore (findAndUploadReportImages sr w).2
               = if bool_decide (images g = []) then reportImagesStore w
                 else delete (grp_id g) (reportImagesStore w)
         | pairs =>
             ∃ form,
               upload_form {| reportId := rd_id sr; upl_images := pairs.*2;
                              files := pairs.*1 |} = Some form
               ∧ fetch_calls (trace w (findAndUploadReportImages sr w).2)
                 = [upload_request token form]
               ∧ if upload_accepted (upload_request token form) (outside w)
                 then (findAndUploadReportImages sr w).1 = Returned tt
                      ∧ reportImagesStore (findAndUploadReportImages sr w).2
                        = delete (grp_id g) (reportImagesStore w)
                 else (∃ e, (findAndUploadReportImages sr w).1 = Thrown e)
                      ∧ reportImagesStore (findAndUploadReportImages sr w).2
                        = reportImagesStore w
         end).
Proof.
  intros Hwf Hits Hk0 Hm0.
  pose proof (oldest_match_fold (wanted_tempIds its)
                (iterate (reportImagesStore w)) None) as Hfold.
  unfold findStoredImagesByTempIds, get. simpl.
  destruct (foldl (oldest_match (wanted_tempIds its)) None
              (iterate (reportImagesStore w))) as [g|] eqn:Hsel.
  2:{ destruct Hfold as [_ Hnone].
      apply hasMatchingTempIds_true in Hm0.
      rewrite Hnone in Hm0; [done|]. apply elem_of_iterate. eauto. }
  destruct Hfold as ([[=]|[Hin Hmatch]] & _ & Hmin).
  apply elem_of_iterate in Hin as [k Hk].
  pose proof (Hwf k g Hk) as Hid. simpl in Hid. subst k.
  assert (findAndUploadReportImages sr w
          = uploadImagesForSyncedReport sr g w) as Heq.
  { unfold findAndUploadReportImages. rewrite Hits.
    destruct Hm0 as (t & Ht & Hw).
    assert (its ≠ []) as Hne.
    { intros ->. by apply elem_of_nil in Hw. }
    rewrite bool_decide_eq_false_2 by (by destruct its).
    rewrite bool_decide_eq_false_2
      by (destruct (wanted_tempIds its); [by apply elem_of_nil in Hw|done]).
    unfold bind, findStoredImagesByTempIds, get. by rewrite Hsel. }
  exists g. split; [done|]. split; [done|].
  split; [by apply hasMatchingTempIds_true|]. split.
  { intros k g' Hk' Hm'. apply Hmin; [apply elem_of_iterate; eauto|].
    by apply hasMatchingTempIds_true. }
  split; [done|]. rewrite Heq.
  destruct (touches_uploadImagesForSyncedReport sr g w)
    as (Hstore & evs & Hh & Hn).
  split; [by rewrite (trace_app _ _ _ Hh)|]. split; [done|].
  split.
  { intros k Hne. destruct Hstore as [-> | ->]; [done|].
    by rewrite lookup_delete_ne. }
  intros token Htok Htokne Hdec.
  destruct (decide (images g = [])) as [Hnil|Hnonnil].
  { rewrite Hnil. simpl. unfold uploadImagesForSyncedReport.
    rewrite Hnil. simpl. by rewrite trace_refl. }
  pose proof (uploadImagesForSyncedReport_spec sr g w its token
                Hits Hnonnil Htok Htokne Hdec) as Hspec.
  destruct (omap (reconciled P its) (images g)) as [|pair pairs].
  - destruct Hspec as (Hres & Hhist & Hgroups).
    split; [done|]. rewrite (trace_app _ _ _ Hhist).
    rewrite fetch_calls_app, fetch_calls_unmatched_warnings.
    split; [done|]. by rewrite bool_decide_eq_false_2.
  - destruct Hspec as (form & Hform & Hhist & Hfate).
    exists form. split; [done|]. rewrite (trace_app _ _ _ Hhist).
    rewrite fetch_calls_app, fetch_calls_unmatched_warnings.
    split; done.
Qed.

(** C5, amended — partial reconciliation.  Take the replay of a
    create-report request that the server answers with a saved report,
    with a token at hand, and the stored group the reconciliation picks,
    with images whose data decode.  The replay succeeds.  The images of the
    group without database item are skipped with one warning each; the
    others, and only they, are converted and sent in one upload under the
    real ids of their items.  The group is deleted when that upload is
    accepted, and when no image matched at all (there is no upload then);
    when the upload fails, a warning is logged and the group stays in the
    store. *)
Theorem partial_reconciliation r w resp o1 sr its token g :
  endpoint r = "/price-reports" →
  method r = "POST" →
  capacitor_request P (capacitor_options (endpoint r) (replay_options r))
    (outside w) = (Some resp, o1) →
  http_ok (status resp) = true →
  data resp = Some sr →
  items sr = Some its →
  access_token w = Some token →
  token ≠ "" →
  (findStoredImagesByTempIds (wanted_tempIds its) w).1 = Returned (Some g) →
  images g ≠ [] →
  (∀ im, im ∈ images g → is_Some (db_item its im) →
         is_Some (decode_data_url P (ri_base64Data im))) →
  (processApiRequest r w).1 = Returned tt
  ∧ (λ pair, (file_name pair.1, itemId pair.2))
      <$> omap (reconciled P its) (images g)
    = matched_assets its (images g)
  ∧ match omap (reconciled P its) (images g) with
    | [] =>
        trace w (processApiRequest r w).2
        = EvHttp (capacitor_options (endpoint r) (replay_options r))
          :: unmatched_warnings its (images g) ++ [EvWarn WarnNoValidImages]
        ∧ reportImagesStore (processApiRequest r w).2
          = delete (grp_id g) (reportImagesStore w)
    | pairs =>
        ∃ form,
          upload_form {| reportId := rd_id sr; upl_images := pairs.*2;
                         files := pairs.*1 |} = Some form
          ∧ if upload_accepted (upload_request token form) o1
            then trace w (processApiRequest r w).2
                 = EvHttp (capacitor_options (endpoint r) (replay_options r))
                   :: unmatched_warnings its (images g)
                   ++ [EvFetch (upload_request token form)]
                 ∧ reportImagesStore (processApiRequest r w).2
                   = delete (grp_id g) (reportImagesStore w)
            else trace w (processApiRequest r w).2
                 = EvHttp (capacitor_options (endpoint r) (replay_options r))
                   :: unmatched_warnings its (images g)
                   ++ [EvFetch (upload_request token form);
                       EvWarn WarnFullReport]
                 ∧ reportImagesStore (processApiRequest r w).2
                   = reportImagesStore w
    end.
Proof.
  intros Hend Hmeth Hcap Hok Hdata Hits Htok Hne Hsel Himgs Hdec.
  destruct (directRequest_ok (endpoint r) (replay_options r) w resp o1
              Hcap Hok) as (w1 & Hdirect & Hh1 & Hout1 & Hgr1 & Htok1 & _).
  (* the reconciliation, in the world the gateway call leaves *)
  assert (findAndUploadReportImages sr w1
          = uploadImagesForSyncedReport sr g w1) as Hfind.
  { revert Hsel. unfold findStoredImagesByTempIds, get. simpl.
    intros [= Hsel].
    pose proof (oldest_match_fold (wanted_tempIds its)
                  (iterate (reportImagesStore w)) None) as Hfold.
    rewrite Hsel in Hfold. destruct Hfold as ([[=]|[_ Hmatch]] & _ & _).
    apply hasMatchingTempIds_true in Hmatch as (t & _ & Hw).
    unfold findAndUploadReportImages. rewrite Hits.
    rewrite bool_decide_eq_false_2
      by (destruct its; [by apply elem_of_nil in Hw|done]).
    rewrite bool_decide_eq_false_2
      by (destruct (wanted_tempIds its); [by apply elem_of_nil in Hw|done]).
    unfold bind, findStoredImagesByTempIds, get. by rewrite Hgr1, Hsel. }
  pose proof (uploadImagesForSyncedReport_spec sr g w1 its token Hits Himgs
                (eq_trans Htok1 Htok) Hne Hdec) as Hspec.
  assert (processApiRequest r w
          = try_catch (findAndUploadReportImages sr)
              (λ _, emit (EvWarn WarnFullReport)) w1) as ->.
  { unfold processApiRequest, bind at 1. rewrite Hdirect.
    rewrite Hend, Hmeth, Hdata. simpl.
    unfold bind, get. rewrite Htok1, Htok. unfold truthy.
    by rewrite bool_decide_eq_false_2 by done. }
  unfold try_catch. rewrite Hfind. rewrite Hout1 in Hspec.
  split; [|split; [by apply matched_assets_reconciled|]].
  - destruct (framed_uploadImagesForSyncedReport sr g w1) as [_ Hn].
    by destruct (uploadImagesForSyncedReport sr g w1) as [[[]|e|] w2].
  - destruct (omap (reconciled P its) (images g)) as [|pair pairs].
    + destruct Hspec as (Hres & Hh2 & Hstore).
      destruct (uploadImagesForSyncedReport sr g w1) as [res w2].
      simpl in *. subst res. simpl. rewrite Hstore, Hgr1. split; [|done].
      apply trace_app. rewrite Hh2, Hh1. by rewrite <-app_assoc.
    + destruct Hspec as (form & Hform & Hh2 & Hacc).
      exists form. split; [done|].
      destruct (uploadImagesForSyncedReport sr g w1) as [res w2].
      simpl in Hh2, Hacc.
      destruct (upload_accepted (upload_request token form) o1).
      * destruct Hacc as [-> Hstore]. simpl.
        rewrite Hstore, Hgr1. split; [|done].
        apply trace_app. rewrite Hh2, Hh1. by rewrite <-app_assoc.
      * destruct Hacc as [[e ->] Hstore]. simpl.
        rewrite Hstore, Hgr1. split; [|done].
        apply trace_app. rewrite Hh2, Hh1. rewrite <-!app_assoc. done.
Qed.

End Reconciliation.

(** ** Instances of the drain properties *)

Lemma queue_wf_decide q :
  bool_decide (map_Forall (λ k r, req_id r = k) q) = true → queue_wf q.
Proof. apply bool_decide_eq_true. Qed.

Lemma groups_wf_decide s :
  bool_decide (map_Forall (λ k g, grp_id g = k) s) = true → groups_wf s.
Proof. apply bool_decide_eq_true. Qed.

Lemma three_queued_wf : queue_wf (queueStore three_queued).
Proof. apply queue_wf_decide. vm_compute. reflexivity. Defined.



Lemma fifo_replay_example :
  req_id <$> attempts (trace three_queued (drain three_queued).2)
  = ["a"; "b"; "c"].
Proof. vm_compute. reflexivity. Qed.


Lemma fourth_drain_deletes :
  queueStore (drains 4 one_unsendable) !! "a" = None
  ∧ length (attempts (history (drains 4 one_unsendable))) = 3%nat.
Proof. vm_compute. done. Qed.





(** ** Instances of the other properties *)

Lemma single_flight_drain_witness :
  syncInProgress draining = true
  ∧ reachable {| world := draining; tasks := [Listing] |}
  ∧ syncPendingRequests 100 draining = (Returned tt, draining)
  ∧ (length [Listing] ≤ 1)%nat.
Proof.
  assert (reachable {| world := draining; tasks := [Listing] |}) as Hreach.
  { exists three_queued. split; [reflexivity|].
    apply rtc_once.
    exact (call_enters {| world := three_queued; tasks := [] |} eq_refl). }
  split; [reflexivity|]. split; [exact Hreach|].
  pose proof (single_flight_drain 100 draining
                {| world := draining; tasks := [Listing] |} eq_refl Hreach)
    as (Hcall & Hone & _).
  split; [exact Hcall|exact Hone].
Defined.

(** C5, as stated, fails: the report is created and its request removed,
    the one matched image is sent, the upload fails, and the group stays
    in the store. *)
Lemma failed_upload_keeps_group :
  synced (trace (with_groups true) (drain (with_groups true)).2) = ["a"]
  ∧ length (fetch_calls (trace (with_groups true)
                           (drain (with_groups true)).2)) = 1%nat
  ∧ queueStore (drain (with_groups true)).2 !! "a" = None
  ∧ reportImagesStore (drain (with_groups true)).2 !! "report_images_900"
    = Some older_group.
Proof. vm_compute. done. Qed.

(** C9, as stated, fails: the oldest matching group is selected and its
    matched image is sent, but the upload endpoint does not answer; the
    reconciliation rejects with the network error, and the selected group is still stored, beside
    the newer one.  The next reconciliation selects it again. *)
Lemma selected_group_not_deleted :
  (findStoredImagesByTempIds (wanted_tempIds created_items)
     (with_groups true)).1 = Returned (Some older_group)
  ∧ (findAndUploadReportImages created_report (with_groups true)).1
    = Thrown network_error
  ∧ length (fetch_calls
              (trace (with_groups true)
                 (findAndUploadReportImages created_report
                    (with_groups true)).2)) = 1%nat
  ∧ reportImagesStore
      (findAndUploadReportImages created_report (with_groups true)).2
    = reportImagesStore (with_groups true)
  ∧ (findStoredImagesByTempIds (wanted_tempIds created_items)
       (findAndUploadReportImages created_report (with_groups true)).2).1
    = Returned (Some older_group).
Proof. vm_compute. done. Qed.

Lemma partial_reconciliation_witness :
  (findStoredImagesByTempIds (wanted_tempIds created_items)
     (with_groups false)).1 = Returned (Some older_group)
  ∧ matched_assets created_items (images older_group) = [("item-t1.jpg", 7)]
  ∧ unmatched_warnings created_items (images older_group)
    = [EvWarn (WarnNoDatabaseItem "t9")]
  ∧ (processApiRequest (demo_request "a" "ok" 10 0) (with_groups false)).1
    = Returned tt
  ∧ reportImagesStore
      (processApiRequest (demo_request "a" "ok" 10 0) (with_groups false)).2
    = delete "report_images_900" (reportImagesStore (with_groups false)).
Proof.
  split; [reflexivity|]. split; [reflexivity|]. split; [reflexivity|].
  pose proof (partial_reconciliation (P:=demo) (demo_request "a" "ok" 10 0)
                (with_groups false)
                {| status := 201; data := Some created_report |}
                (outside (with_groups false)) created_report created_items
                "token" older_group
                eq_refl eq_refl eq_refl eq_refl eq_refl eq_refl eq_refl
                ltac:(discriminate) eq_refl ltac:(discriminate)
                (λ im _ _, mk_is_Some _ _ eq_refl)) as (Hres & _ & H).
  split; [exact Hres|].
  cbn in H. destruct H as (form & Hform & Hacc).
  vm_compute in Hform. injection Hform as <-.
  change (upload_accepted _ _) with true in Hacc.
  exact (proj2 Hacc).
Defined.

Lemma enqueue_semantics_witness :
  (isOnline (offline false) = false
   ∧ history (request "/price-reports" create_options (offline false)).2 = []
   ∧ (request "/price-reports" create_options (offline false)).1
     = Returned (Queued
         {| ack_success := true;
            ack_message := "Request queued for offline execution";
            ack_requestId := "req_1000_k3x9q0aaa";
            ack_queuedAt := 1002;
            ack_offline := true |})
   ∧ queueStore (request "/price-reports" create_options (offline false)).2
     = <["req_1000_k3x9q0aaa" :=
           queued_record "/price-reports" create_options
             "req_1000_k3x9q0aaa" 1001]> ∅)
  ∧ (isOnline (offline true) = false
     ∧ (request "/price-reports" create_options (offline true)).1
       = Thrown (ExApi {| err_message := "Failed to queue offline request";
                          err_status := 0 |})
     ∧ queueStore (request "/price-reports" create_options (offline true)).2
       = ∅).
Proof.
  split.
  - split; [reflexivity|].
    exact (enqueue_semantics (P:=demo) "/price-reports" create_options
             (offline false) eq_refl eq_refl).
  - split; [reflexivity|].
    exact (proj2 (enqueue_semantics (P:=demo) "/price-reports" create_options
                    (offline true) eq_refl eq_refl)).
Defined.

(** The loop variables of a drain that has the server error at the head
    of its listing. *)
Lemma gateway_error_surfacing_witness :
  replay_fails (demo_request "b" "500" 20 0) three_queued = true
  ∧ replay_fails (demo_request "a" "offline" 10 0) three_queued = true
  ∧ (directRequest "/price-reports" (replay_options (demo_request "b" "500" 20 0))
       three_queued).1
    = Thrown (ExApi {| err_message := "server error"; err_status := 500 |})
  ∧ queueStore
      (loop_body {| requests := [demo_request "b" "500" 20 0];
                    processedIds := ∅; processedCount := 0 |}
         three_queued).2 !! "b"
    = Some (demo_request "b" "500" 20 1)
  ∧ queueStore
      (loop_body {| requests := [demo_request "a" "offline" 10 0];
                    processedIds := ∅; processedCount := 0 |}
         three_queued).2 !! "a"
    = Some (demo_request "a" "offline" 10 1).
Proof.
  split; [reflexivity|]. split; [reflexivity|]. split; [reflexivity|].
  split.
  - pose proof (gateway_error_surfacing (P:=demo) "/price-reports"
                  (replay_options (demo_request "b" "500" 20 0)) three_queued
                  {| requests := [demo_request "b" "500" 20 0];
                     processedIds := ∅; processedCount := 0 |}
                  three_queued (demo_request "b" "500" 20 0) []
                  (demo_request "b" "500" 20 0)
                  eq_refl (not_elem_of_empty (C:=gset string) "b")
                  ltac:(simpl; lia) eq_refl eq_refl eq_refl)
      as (_ & _ & Hq & _).
    rewrite Hq. apply lookup_insert_eq.
  - pose proof (gateway_error_surfacing (P:=demo) "/price-reports"
                  (replay_options (demo_request "a" "offline" 10 0))
                  three_queued
                  {| requests := [demo_request "a" "offline" 10 0];
                     processedIds := ∅; processedCount := 0 |}
                  three_queued (demo_request "a" "offline" 10 0) []
                  (demo_request "a" "offline" 10 0)
                  eq_refl (not_elem_of_empty (C:=gset string) "a")
                  ltac:(simpl; lia) eq_refl eq_refl eq_refl)
      as (_ & _ & Hq & _).
    rewrite Hq. apply lookup_insert_eq.
Defined.

Lemma with_groups_wf : groups_wf (reportImagesStore (with_groups false)).
Proof. apply groups_wf_decide. vm_compute. reflexivity. Defined.

Lemma one_group_per_replay_witness :
  groups_wf (reportImagesStore (with_groups false))
  ∧ reportImagesStore (with_groups false) !! "report_images_950"
    = Some newer_group
  ∧ group_matches created_items newer_group
  ∧ (findStoredImagesByTempIds (wanted_tempIds created_items)
       (with_groups false)).1 = Returned (Some older_group)
  ∧ length (fetch_calls
              (trace (with_groups false)
                 (findAndUploadReportImages created_report
                    (with_groups false)).2)) = 1%nat
  ∧ reportImagesStore
      (findAndUploadReportImages created_report (with_groups false)).2
    = delete "report_images_900" (reportImagesStore (with_groups false))
  ∧ reportImagesStore
      (findAndUploadReportImages created_report (with_groups false)).2
      !! "report_images_950"
    = Some newer_group.
Proof.
  assert (group_matches created_items newer_group) as Hmatch.
  { exists "t1". split; constructor. }
  split; [exact with_groups_wf|]. split; [reflexivity|].
  split; [exact Hmatch|]. split; [reflexivity|].
  destruct (one_group_per_replay (P:=demo) created_report created_items
              (with_groups false) "report_images_950" newer_group
              with_groups_wf eq_refl eq_refl Hmatch)
    as (g & Hsel & _ & _ & _ & _ & _ & _ & Hothers & Hfate).
  vm_compute in Hsel. injection Hsel as <-.
  specialize (Hfate "token" eq_refl ltac:(discriminate)
                (λ im _ _, mk_is_Some _ _ eq_refl)).
  destruct Hfate as (form & _ & Hcalls & Hend).
  split; [by rewrite Hcalls|].
  split; [exact (proj2 Hend)|].
  rewrite Hothers; [reflexivity|discriminate].
Defined.


Lemma bounded_drain_witness :
  (drain three_queued).1 = Returned tt
  ∧ (length (synced (trace three_queued (drain three_queued).2)) ≤ 50)%nat
  ∧ syncPendingRequests 1000 three_queued = drain three_queued.
Proof.
  destruct (bounded_drain three_queued) as ((w' & Hrun & Hle & Hfuel) & _).
  rewrite Hrun. split; [reflexivity|]. split; [exact Hle|].
  apply Hfuel. apply Nat.leb_le. vm_compute. reflexivity.
Defined.

(** * Further properties *)

(** ** What a computation adds to the history *)

Section Emits.
Context {P : Platform}.
Implicit Types (w : World P) (ok : Event → bool).

Lemma emits_ret {A} ok (a : A) : emits_only (P:=P) ok (ret a).
Proof. intros w. exists []. by rewrite app_nil_r. Qed.

Lemma emits_throw {A} ok e : emits_only (P:=P) (A:=A) ok (throw e).
Proof. intros w. exists []. by rewrite app_nil_r. Qed.

Lemma emits_get {A} ok (f : World P → A) : emits_only ok (get f).
Proof. intros w. exists []. by rewrite app_nil_r. Qed.

Lemma emits_ask {A} ok (f : Outside P → A * Outside P) :
  emits_only ok (ask f).
Proof.
  intros w. exists []. unfold ask. destruct (f (outside w)). simpl.
  by rewrite app_nil_r.
Qed.

Lemma emits_modify ok (f : World P → World P) :
  (∀ w, history (f w) = history w) → emits_only ok (modify f).
Proof. intros Hf w. exists []. simpl. by rewrite Hf, app_nil_r. Qed.

Lemma emits_emit ok e : ok e = true → emits_only (P:=P) ok (emit e).
Proof. intros He w. exists [e]. simpl. split; [done|]. by constructor. Qed.

Lemma emits_bind {A B} ok (m : M P A) (k : A → M P B) :
  emits_only ok m → (∀ a, emits_only ok (k a)) → emits_only ok (bind m k).
Proof.
  intros Hm Hk w. unfold bind. destruct (Hm w) as (evs1 & Hh1 & Hok1).
  destruct (m w) as [[a|e|] w1]; simpl in *; [|by exists evs1..].
  destruct (Hk a w1) as (evs2 & Hh2 & Hok2).
  exists (evs1 ++ evs2). rewrite Hh2, Hh1, <-app_assoc.
  split; [done|]. by apply Forall_app.
Qed.

Lemma emits_try_catch {A} ok (m : M P A) (h : Exn → M P A) :
  emits_only ok m → (∀ e, emits_only ok (h e)) →
  emits_only ok (try_catch m h).
Proof.
  intros Hm Hh w. unfold try_catch. destruct (Hm w) as (evs1 & Hh1 & Hok1).
  destruct (m w) as [[a|e|] w1]; simpl in *; [by exists evs1| |by exists evs1].
  destruct (Hh e w1) as (evs2 & Hh2 & Hok2).
  exists (evs1 ++ evs2). rewrite Hh2, Hh1, <-app_assoc.
  split; [done|]. by apply Forall_app.
Qed.

Lemma emits_map_M {A B} ok (f : A → M P B) l :
  (∀ a, emits_only ok (f a)) → emits_only ok (map_M f l).
Proof.
  intros Hf. induction l as [|x l IH]; simpl; [apply emits_ret|].
  apply emits_bind; [done|]. intros y.
  apply emits_bind; [done|]. intros ys. apply emits_ret.
Qed.

Lemma emits_http_calls {A} ok (m : M P A) w :
  emits_only ok m → (∀ rq, ok (EvHttp rq) = false) →
  http_calls (trace w (m w).2) = [].
Proof.
  intros Hm Hok. destruct (Hm w) as (evs & Hh & Hall).
  rewrite (trace_app _ _ _ Hh). clear Hh.
  induction Hall as [|e evs He _ IH]; [done|].
  destruct e; simpl; try done. by rewrite Hok in He.
Qed.

Ltac emits_step :=
  first
    [ apply emits_ret | apply emits_throw | apply emits_get
    | apply emits_ask
    | apply emits_emit; reflexivity
    | apply emits_modify; intros ?; reflexivity
    | apply emits_bind; [|intros ?]
    | apply emits_try_catch; [|intros ?]
    | apply emits_map_M; intros ? ].

Lemma emits_rethrow_api {A} ok e : emits_only (P:=P) (A:=A) ok (rethrow_api e).
Proof. destruct e; apply emits_throw. Qed.

Lemma emits_uploadImages token uploadData :
  emits_only (P:=P) upload_event (uploadImages token uploadData).
Proof.
  unfold uploadImages. destruct (upload_form uploadData); [|emits_step].
  apply emits_try_catch; [|intros ?; apply emits_rethrow_api].
  apply emits_bind; [by apply emits_emit|intros _].
  apply emits_bind; [apply emits_ask|intros [response|]]; [|emits_step].
  destruct (negb _); [emits_step|]. destruct (f_json response); emits_step.
Qed.

Lemma emits_reconcile_image sr im :
  emits_only (P:=P) upload_event (reconcile_image sr im).
Proof.
  unfold reconcile_image. destruct (items sr); [|emits_step].
  destruct (db_item _ _).
  - apply emits_bind; [|intros ?; emits_step]. unfold base64ToFile.
    destruct (decode_data_url P _) as [[? ?]|]; emits_step.
  - apply emits_bind; [by apply emits_emit|intros _; emits_step].
Qed.

Lemma emits_uploadImagesForSyncedReport sr g :
  emits_only (P:=P) upload_event (uploadImagesForSyncedReport sr g).
Proof.
  unfold uploadImagesForSyncedReport, removeStoredReportImages.
  destruct (bool_decide _); [emits_step|].
  apply emits_bind; [apply emits_map_M, emits_reconcile_image|].
  intros results. destruct (_ && _).
  - apply emits_bind; [emits_step|intros token].
    destruct (negb _); [emits_step|].
    apply emits_bind; [apply emits_uploadImages|intros [|msg]]; emits_step.
  - apply emits_bind; [by apply emits_emit|intros _; emits_step].
Qed.

Lemma emits_findAndUploadReportImages sr :
  emits_only (P:=P) upload_event (findAndUploadReportImages sr).
Proof.
  unfold findAndUploadReportImages, findStoredImagesByTempIds.
  destruct (items sr); [|emits_step].
  destruct (bool_decide _); [emits_step|].
  destruct (bool_decide _); [emits_step|].
  apply emits_bind; [emits_step|intros [g|]];
    [apply emits_uploadImagesForSyncedReport|emits_step].
Qed.

(** A replay calls the gateway once, with the stored method, headers and
    body. *)
Lemma processApiRequest_http_calls r w :
  http_calls (trace w (processApiRequest r w).2)
  = [capacitor_options (endpoint r) (replay_options r)].
Proof.
  unfold processApiRequest, bind at 1.
  pose proof (directRequest_history (endpoint r) (replay_options r) w) as Hh.
  destruct (directRequest (endpoint r) (replay_options r) w)
    as [[response|e|] w1]; simpl in Hh;
    [|simpl; by rewrite (trace_app _ _ _ Hh)..].
  match goal with |- context [?m w1] =>
    assert (emits_only upload_event m) as Hrest end.
  { destruct (_ && _); [|emits_step].
    destruct response as [fullReport|]; [|emits_step].
    apply emits_bind; [emits_step|intros token].
    destruct (truthy token); [|emits_step].
    apply emits_try_catch; [apply emits_findAndUploadReportImages|].
    intros _. by apply emits_emit. }
  destruct (Hrest w1) as (evs & Hh2 & Hall).
  rewrite (trace_app w _ ([EvHttp (capacitor_options (endpoint r)
                                     (replay_options r))] ++ evs))
    by (by rewrite Hh2, Hh, <-app_assoc).
  simpl. f_equal. clear Hh2.
  induction Hall as [|e evs He _ IH]; [done|]. by destruct e.
Qed.

End Emits.

(** ** The replay of one request *)

Section Replay.
Context {P : Platform}.
Implicit Types (w : World P) (v : LoopVars).

Lemma http_calls_app h1 h2 :
  http_calls (h1 ++ h2) = http_calls h1 ++ http_calls h2.
Proof. unfold http_calls. by rewrite omap_app. Qed.

Lemma http_calls_callbacks cbs : http_calls (EvCallback <$> cbs) = [].
Proof. by induction cbs. Qed.

Lemma pending_singleton k (x : OfflineRequest) : pending {[k := x]} = [x].
Proof. unfold pending, iterate. by rewrite map_to_list_singleton. Qed.

Lemma pending_empty : pending ∅ = [].
Proof. unfold pending, iterate. by rewrite map_to_list_empty. Qed.

(** The outcome of a replay, by the answer of the gateway. *)
Lemma processApiRequest_outcome r w :
  if replay_succeeds r w
  then (processApiRequest r w).1 = Returned tt
  else ∃ e, (processApiRequest r w).1 = Thrown e.
Proof.
  unfold replay_succeeds.
  destruct (capacitor_request P _ (outside w)) as [[resp|] o] eqn:Hcap.
  2:{ destruct (processApiRequest_fails r w) as (e & w' & ->); [|by eauto].
      unfold replay_fails. by rewrite Hcap. }
  destruct (http_ok (status resp)) eqn:Hok; simpl.
  2:{ destruct (processApiRequest_fails r w) as (e & w' & ->); [|by eauto].
      unfold replay_fails. by rewrite Hcap, Hok. }
  destruct (directRequest_ok (endpoint r) (replay_options r) w resp o
              Hcap Hok) as (w1 & Hdirect & _).
  assert (processApiRequest r w
          = (if bool_decide (endpoint r = "/price-reports")
                && bool_decide (method r = "POST")
             then match data resp with
                  | None => throw (ExError "TypeError")
                  | Some fullReport =>
                      bind (get access_token) (λ token,
                        if truthy token
                        then try_catch (findAndUploadReportImages fullReport)
                               (λ _, emit (EvWarn WarnFullReport))
                        else ret tt)
                  end
             else ret tt) w1) as ->.
  { unfold processApiRequest, bind at 1. by rewrite Hdirect. }
  destruct (bool_decide (endpoint r = "/price-reports")
            && bool_decide (method r = "POST")); simpl; [|done].
  destruct (data resp) as [fullReport|]; simpl.
  - unfold bind, get. destruct (truthy (access_token w1)); [|done].
    unfold try_catch.
    destruct (framed_findAndUploadReportImages fullReport w1) as [_ Hn].
    by destruct (findAndUploadReportImages fullReport w1) as [[[]|e|] w2].
  - by eexists.
Qed.

(** The turn of the loop on a stored API request whose replay goes
    through. *)
Lemma loop_body_api_success v w r rest :
  requests v = r :: rest →
  req_id r ∉ processedIds v →
  retries r < 3 →
  type r = TypeApi →
  is_Some (queueStore w !! req_id r) →
  replay_succeeds r w = true →
  ∃ w' evs,
    loop_body v w
    = (Returned {| requests := pending (delete (req_id r) (queueStore w));
                   processedIds := {[req_id r]} ∪ processedIds v;
                   processedCount := processedCount v + 1 |}, w')
    ∧ queueStore w' = delete (req_id r) (queueStore w)
    ∧ history w'
      = history w ++ EvProcessing r :: (evs ++ [EvSynced (req_id r)])
    ∧ quiet evs
    ∧ http_calls evs = [capacitor_options (endpoint r) (replay_options r)]
    ∧ same_flags w w'.
Proof.
  intros Hreq Hnin Hlt Htype [stored Hst] Hok.
  unfold loop_body. rewrite Hreq.
  rewrite bool_decide_eq_false_2 by done.
  rewrite bool_decide_eq_false_2 by lia.
  unfold try_catch, bind at 1, get, getItem. rewrite Hst.
  unfold bind at 1, emit at 1, modify at 1. unfold bind at 1. rewrite Htype.
  set (w0 := set_history (history w ++ [EvProcessing r]) w).
  pose proof (processApiRequest_outcome r w0) as Hout.
  change (replay_succeeds r w0) with (replay_succeeds r w) in Hout.
  rewrite Hok in Hout.
  pose proof (processApiRequest_http_calls r w0) as Hhttp.
  destruct (framed_processApiRequest r w0)
    as [(Hq & Hfl & _ & evs & Hh & Hquiet) _].
  rewrite (trace_app w0 _ evs Hh) in Hhttp.
  destruct (processApiRequest r w0) as [res w1]. simpl in *. subst res.
  unfold removeRequest, getPendingRequests, bind, get, modify, emit, modify,
    removeItem. simpl. rewrite Hq.
  eexists _, evs. split; [done|]. simpl. split; [done|].
  split; [by rewrite Hh, <-!app_assoc|]. done.
Qed.

(** A drain over a queue that holds one request, whose replay goes
    through. *)
Lemma drain_singleton fuel w r :
  syncInProgress w = false →
  queueStore w = {[req_id r := r]} →
  retries r < 3 →
  type r = TypeApi →
  replay_succeeds r w = true →
  (0 < fuel)%nat →
  ∃ w' evs,
    syncPendingRequests fuel w = (Returned tt, w')
    ∧ queueStore w' = ∅
    ∧ history w'
      = history w ++ EvProcessing r :: (evs ++ [EvSynced (req_id r)])
          ++ (EvCallback <$> syncCallbacks w)
    ∧ quiet evs
    ∧ http_calls evs = [capacitor_options (endpoint r) (replay_options r)]
    ∧ isOnline w' = isOnline w
    ∧ syncInProgress w' = false
    ∧ syncCallbacks w' = syncCallbacks w.
Proof.
  intros Hfree Hq Hlt Htype Hok Hfuel.
  destruct fuel as [|fuel]; [lia|].
  rewrite syncPendingRequests_free by done.
  unfold initial_vars. rewrite Hq, pending_singleton.
  destruct (loop_body_api_success
              {| requests := [r]; processedIds := ∅; processedCount := 0 |}
              (set_syncInProgress true w) r [])
    as (w1 & evs & Hbody & Hq1 & Hh1 & Hquiet & Hhttp & Hon & Hsync & Hcbs);
    [done|set_solver|done|done| |done|].
  { simpl. rewrite Hq, lookup_singleton_eq. by eexists. }
  simpl in *. rewrite Hq, delete_singleton_eq in Hbody, Hq1.
  rewrite pending_empty in Hbody.
  unfold try_finally, bind at 1. simpl. unfold bind at 1. rewrite Hbody.
  replace (sync_loop fuel _ w1)
    with (Returned {| requests := []; processedIds := {[req_id r]} ∪ ∅;
                      processedCount := 0 + 1 |}, w1)
    by (by destruct fuel).
  destruct (notifySyncComplete_spec w1) as (w2 & -> & Hoh & Hh2).
  destruct Hoh as (Hon2 & _ & Hcbs2 & Hq2 & _).
  exists (set_syncInProgress false w2), evs. simpl.
  rewrite Hq2, Hq1, Hh2, Hh1, Hcbs, Hon2, Hon, Hcbs2, Hcbs, <-app_assoc.
  done.
Qed.

End Replay.

(** ** The drain as a whole *)

Section Drain.
Context {P : Platform}.
Implicit Types (w : World P) (v : LoopVars).

(** X1 — a drain that ends below its cap skips nothing.  Every request
    stored when the drain passed its guard has been handled by it: deleted
    because it held three retries or more; replayed with success and
    removed; or replayed in vain and kept with one retry more. *)
Theorem drain_handles_every_request w k x :
  queue_wf (queueStore w) → syncInProgress w = false →
  (length (synced (trace w (drain w).2)) < 50)%nat →
  queueStore w !! k = Some x →
  handled x (queueStore (drain w).2 !! k) (trace w (drain w).2).
Proof.
  intros Hwf Hbusy Hcap Hk.
  destruct (drain_summary w Hbusy Hwf)
    as (v' & w1 & evs & Hfacts & Hend & _ & Hq & Hatt & Hsyn).
  rewrite Hq. unfold handled. rewrite Hatt, Hsyn. rewrite Hsyn in Hcap.
  destruct (decide (k ∈ processedIds v')) as [Hin|Hnin].
  - destruct (inv_processed _ _ _ _ Hfacts _ Hin) as (x0 & Hx0 & Hh).
    assert (x0 = x) as -> by congruence.
    exact Hh.
  - pose proof (inv_untouched _ _ _ _ Hfacts k Hnin) as Hsame.
    rewrite Hk in Hsame.
    pose proof (inv_complete _ _ _ _ Hfacts k x Hsame Hnin) as Hx.
    unfold loop_cond in Hend. apply andb_false_iff in Hend as [Hend|Hend].
    + apply bool_decide_eq_false in Hend.
      destruct (requests v'); [by apply elem_of_nil in Hx|].
      simpl in Hend. lia.
    + apply bool_decide_eq_false in Hend.
      rewrite (inv_count _ _ _ _ Hfacts) in Hend. lia.
Qed.

End Drain.

Section DrainOnce.
Context {P : Platform}.
Implicit Types (w : World P) (v : LoopVars).

Lemma once_inv_step q0 h0 v w v' w' :
  once_inv q0 h0 v w → loop_cond v = true → body_step v w v' w' →
  once_inv q0 h0 v' w'.
Proof.
  intros (evs & Hh & Hcb & Hfacts & Hatt & Hsyn & Hsub) Hcond Hstep.
  destruct (drain_inv_step q0 h0 v w v' w') as (evs' & Hh' & Hcb' & Hfacts');
    [by exists evs|done|done|].
  exists evs'. do 3 (split; [done|]).
  assert (∀ r, req_id r ∉ processedIds v →
               req_id r ∉ req_id <$> attempts evs) as Hfresh.
  { intros r Hnin (a & Heq & Ha)%list_elem_of_fmap.
    destruct (inv_attempted _ _ _ _ Hfacts a Ha) as (_ & _ & Hin).
    apply Hnin. by rewrite Heq. }
  assert (∀ r, req_id r ∉ processedIds v → req_id r ∉ synced evs) as Hfresh'.
  { intros r Hnin Hin. by apply Hnin, (inv_synced _ _ _ _ Hfacts). }
  destruct Hstep as
    [r rest Hreq Hin
    |r rest w' Hreq Hnin Hret Hq Hhw Hfl
    |r rest Hreq Hnin Hret Hst
    |r rest w' evs1 Hreq Hnin Hret Hst Hq Hhw (Hqa & Hqs & Hqc) Hfl
    |r rest w' evs1 stored Hreq Hnin Hret Hst Hq Hhw (Hqa & Hqs & Hqc) Hfl].
  - rewrite Hh in Hh'. by apply app_inv_head in Hh' as <-.
  - rewrite Hhw, Hh in Hh'. by apply app_inv_head in Hh' as <-.
  - rewrite Hh in Hh'. by apply app_inv_head in Hh' as <-.
  - rewrite Hhw, Hh, <-app_assoc in Hh'. apply app_inv_head in Hh' as <-.
    rewrite attempts_app, synced_app. simpl.
    fold (attempts (evs1 ++ [EvSynced (req_id r)])).
    fold (synced (evs1 ++ [EvSynced (req_id r)])).
    rewrite attempts_app, synced_app, Hqa, Hqs. simpl.
    rewrite fmap_app. simpl. split; [|split].
    + apply NoDup_app. split; [done|]. split; [|apply NoDup_singleton].
      intros k Hk ->%list_elem_of_singleton. by apply (Hfresh r).
    + apply NoDup_app. split; [done|]. split; [|apply NoDup_singleton].
      intros k Hk ->%list_elem_of_singleton. by apply (Hfresh' r).
    + intros k [Hk| ->%list_elem_of_singleton]%elem_of_app;
        apply elem_of_app; [left; by apply Hsub|right].
      by apply list_elem_of_singleton.
  - rewrite Hhw, Hh, <-app_assoc in Hh'. apply app_inv_head in Hh' as <-.
    rewrite attempts_app, synced_app. simpl.
    fold (attempts evs1). fold (synced evs1).
    rewrite Hqa, Hqs, app_nil_r, fmap_app. simpl. split; [|split; [done|]].
    + apply NoDup_app. split; [done|]. split; [|apply NoDup_singleton].
      intros k Hk ->%list_elem_of_singleton. by apply (Hfresh r).
    + intros k Hk. apply elem_of_app. left. by apply Hsub.
Qed.

(** X2 — no request is replayed twice by one drain.  The requests a
    drain hands to replay have distinct ids, each id is reported synced at
    most once, and a request reported synced was stored when the drain
    began, was handed to replay by this drain, and is no longer stored
    when the drain returns. *)
Theorem replay_at_most_once w :
  queue_wf (queueStore w) →
  NoDup (req_id <$> attempts (trace w (drain w).2))
  ∧ NoDup (synced (trace w (drain w).2))
  ∧ ∀ k, k ∈ synced (trace w (drain w).2) →
         queueStore (drain w).2 !! k = None
         ∧ ∃ r, r ∈ attempts (trace w (drain w).2) ∧ req_id r = k
                ∧ queueStore w !! k = Some r.
Proof.
  intros Hwf. destruct (syncInProgress w) eqn:Hbusy.
  { rewrite drain_busy_eq by done. simpl. rewrite trace_refl. simpl.
    split; [constructor|]. split; [constructor|].
    intros k Hk. by apply elem_of_nil in Hk. }
  destruct (drain_run (once_inv (queueStore w) (history w)) w Hbusy)
    as (v' & w1 & w' & Hdrain
        & (evs & Hh & Hcb & Hfacts & Hatt & Hsyn & Hsub)
        & Hend & _ & Hq & _ & Hh').
  { exists []. rewrite app_nil_r. simpl.
    split; [done|]. split; [done|]. split; [by apply initial_facts|].
    split; [constructor|]. split; [constructor|]. done. }
  { apply once_inv_step. }
  rewrite Hdrain. simpl.
  rewrite (trace_app w w' (evs ++ (EvCallback <$> syncCallbacks w)))
    by (by rewrite Hh', Hh, <-app_assoc).
  rewrite attempts_app, synced_app, attempts_callbacks, synced_callbacks.
  rewrite !app_nil_r. split; [done|]. split; [done|].
  intros k Hk. rewrite Hq.
  pose proof (Hsub k Hk) as (a & -> & Ha)%list_elem_of_fmap.
  destruct (inv_attempted _ _ _ _ Hfacts a Ha) as (Ha0 & Hlt & Hin).
  split; [|by exists a].
  destruct (inv_processed _ _ _ _ Hfacts _ Hin) as (x0 & Hx0 & Hhd).
  assert (x0 = a) as -> by congruence.
  by destruct Hhd as [[_ ?]|[(_ & _ & _ & ?)|(_ & _ & ? & _)]].
Qed.

End DrainOnce.

Section DrainEnd.
Context {P : Platform}.
Implicit Types (w : World P) (v : LoopVars).

(** The end of a drain that passed its guard. *)
Lemma drain_end w :
  syncInProgress w = false →
  ∃ evs,
    (drain w).1 = Returned tt
    ∧ history (drain w).2
      = history w ++ evs ++ (EvCallback <$> syncCallbacks w)
    ∧ callbacks_fired evs = []
    ∧ syncInProgress (drain w).2 = false
    ∧ isOnline (drain w).2 = isOnline w
    ∧ syncCallbacks (drain w).2 = syncCallbacks w.
Proof.
  intros Hfree.
  destruct (drain_unfold w Hfree) as (v' & w1 & w2 & Hloop & Hn & Hdrain).
  assert (count_inv (history w) (initial_vars w) (set_syncInProgress true w))
    as Hinit.
  { exists []. simpl. rewrite app_nil_r. repeat split; lia. }
  destruct (sync_loop_invariant
              (λ v w1, count_inv (history w) v w1
                       ∧ same_flags (set_syncInProgress true w) w1)
              _ _ _ _ _
              (λ v0 w0 v1 w1' HI Hc Hs,
                 conj (count_inv_step _ v0 w0 v1 w1' (proj1 HI) Hc Hs)
                      (same_flags_step _ v0 w0 v1 w1' (proj2 HI) Hs))
              (conj Hinit (conj eq_refl (conj eq_refl eq_refl))) Hloop)
    as [[(evs & Hh & Hcb & _) (Hon & _ & Hcbs)] _].
  destruct (notifySyncComplete_spec w1) as (w2' & Hn' & Hoh & Hh2).
  rewrite Hn in Hn'. injection Hn' as <-.
  destruct Hoh as (Hon2 & _ & Hcbs2 & _).
  exists evs. rewrite Hdrain. simpl in *.
  rewrite Hh2, Hh, Hcbs, Hon2, Hon, Hcbs2, Hcbs, <-app_assoc. done.
Qed.

(** X3 — the callbacks of [onSyncComplete].  A drain that passes its
    guard returns, fires every registered callback once, in the order of
    registration and after everything else it does, and leaves the guard
    released; a callback registered before the drain is among them and
    stays registered. *)
Theorem sync_complete_callbacks callback w :
  syncInProgress w = false →
  ∃ evs,
    (drain (onSyncComplete callback w).2).1 = Returned tt
    ∧ trace w (drain (onSyncComplete callback w).2).2
      = evs ++ (EvCallback <$> (syncCallbacks w ++ [callback]))
    ∧ callbacks_fired evs = []
    ∧ syncInProgress (drain (onSyncComplete callback w).2).2 = false
    ∧ syncCallbacks (drain (onSyncComplete callback w).2).2
      = syncCallbacks w ++ [callback].
Proof.
  intros Hfree.
  destruct (drain_end (onSyncComplete callback w).2)
    as (evs & Hres & Hh & Hcb & Hguard & _ & Hcbs); [done|].
  exists evs. split; [done|]. split; [|done].
  apply trace_app. rewrite Hh. done.
Qed.

End DrainEnd.

Section Healthy.
Context {P : Platform}.
Implicit Types (w : World P) (v : LoopVars).

(** A property that every turn preserves holds when the loop ends; the
    turn is known by what [loop_body] returns. *)
Lemma sync_loop_invariant_run (I : LoopVars → World P → Prop)
    fuel v w v' w' :
  (∀ v w v1 w1,
     I v w → loop_cond v = true → loop_body v w = (Returned v1, w1) →
     I v1 w1) →
  I v w →
  sync_loop fuel v w = (Returned v', w') →
  I v' w' ∧ loop_cond v' = false.
Proof.
  intros Hpres. revert v w.
  induction fuel as [|fuel IH]; intros v w HI; simpl.
  - destruct (loop_cond v) eqn:Hc; [done|].
    unfold ret. intros [= <- <-]. done.
  - destruct (loop_cond v) eqn:Hc.
    + destruct (loop_body_step v w (loop_cond_nonempty v Hc))
        as (v1 & w1 & Hrun & Hstep).
      unfold bind. rewrite Hrun. apply IH. by eapply Hpres.
    + unfold ret. intros [= <- <-]. done.
Qed.

Lemma healthy_inv_step q0 h0 v w v1 w1 :
  (∀ k r, q0 !! k = Some r → type r = TypeApi) →
  (∀ k r (w' : World P), q0 !! k = Some r → replay_succeeds r w' = true) →
  healthy_inv q0 h0 v w → loop_cond v = true →
  loop_body v w = (Returned v1, w1) →
  healthy_inv q0 h0 v1 w1.
Proof.
  intros Hapi Hup (evs & Hh & Hcb & Hfacts & Hsyn & Heq) Hcond Hrun.
  destruct (loop_body_step v w (loop_cond_nonempty v Hcond))
    as (v1' & w1' & Hrun' & Hstep).
  rewrite Hrun in Hrun'. injection Hrun' as <- <-.
  destruct (drain_inv_step q0 h0 v w v1 w1) as (evs' & Hh' & Hcb' & Hfacts');
    [by exists evs|done|done|].
  exists evs'. do 3 (split; [done|]).
  destruct Hstep as
    [r rest Hreq Hin
    |r rest w' Hreq Hnin Hret Hq Hhw Hfl
    |r rest Hreq Hnin Hret Hst
    |r rest w' evs1 Hreq Hnin Hret Hst Hq Hhw (Hqa & Hqs & Hqc) Hfl
    |r rest w' evs1 stored Hreq Hnin Hret Hst Hq Hhw (Hqa & Hqs & Hqc) Hfl].
  - rewrite Hh in Hh'. by apply app_inv_head in Hh' as <-.
  - rewrite Hhw, Hh in Hh'. by apply app_inv_head in Hh' as <-.
  - rewrite Hh in Hh'. by apply app_inv_head in Hh' as <-.
  - rewrite Hhw, Hh, <-app_assoc in Hh'. apply app_inv_head in Hh' as <-.
    rewrite attempts_app, synced_app. simpl.
    fold (attempts (evs1 ++ [EvSynced (req_id r)])).
    fold (synced (evs1 ++ [EvSynced (req_id r)])).
    rewrite attempts_app, synced_app, Hqa, Hqs. simpl.
    rewrite fmap_app, Heq. simpl. split; [|done].
    rewrite <-Heq.
    apply NoDup_app. split; [done|]. split; [|apply NoDup_singleton].
    intros k Hk ->%list_elem_of_singleton.
    by apply Hnin, (inv_synced _ _ _ _ Hfacts).
  - (* a failed replay: excluded, since the gateway accepts the request *)
    exfalso.
    assert (queueStore w !! req_id r = Some r) as Hstored.
    { apply (inv_snapshot _ _ _ _ Hfacts); [rewrite Hreq; by left|done]. }
    assert (q0 !! req_id r = Some r) as Hq0
      by (by rewrite <-(inv_untouched _ _ _ _ Hfacts (req_id r) Hnin)).
    destruct (loop_body_api_success v w r rest)
      as (w2 & evs2 & Hrun2 & _); eauto.
    rewrite Hrun in Hrun2. injection Hrun2. intros. lia.
Qed.

(** X4 — a healthy drain empties the outbox.  Take an outbox of at most
    50 API requests, each of which the gateway accepts.  A drain that
    passes its guard leaves the outbox empty; it replays each request that
    held fewer than three retries, and only those, each one once and with
    success. *)
Theorem healthy_drain_empties_outbox w :
  queue_wf (queueStore w) →
  syncInProgress w = false →
  (size (queueStore w) ≤ 50)%nat →
  (∀ k r, queueStore w !! k = Some r → type r = TypeApi) →
  (∀ k r (w' : World P), queueStore w !! k = Some r →
                         replay_succeeds r w' = true) →
  queueStore (drain w).2 = ∅
  ∧ synced (trace w (drain w).2) = req_id <$> attempts (trace w (drain w).2)
  ∧ NoDup (synced (trace w (drain w).2))
  ∧ ∀ k r, queueStore w !! k = Some r →
           (r ∈ attempts (trace w (drain w).2) ↔ retries r < 3).
Proof.
  intros Hwf Hfree Hsize Hapi Hup.
  destruct (drain_unfold w Hfree) as (v' & w1 & w2 & Hloop & Hn & Hdrain).
  assert (healthy_inv (queueStore w) (history w) (initial_vars w)
            (set_syncInProgress true w)) as Hinit.
  { exists []. simpl. rewrite app_nil_r. split; [done|]. split; [done|].
    split; [by apply initial_facts|]. split; [constructor|done]. }
  destruct (sync_loop_invariant_run
              (healthy_inv (queueStore w) (history w)) _ _ _ _ _
              (λ v0 w0 v1 w1' HI Hc Hr,
                 healthy_inv_step _ _ v0 w0 v1 w1' Hapi Hup HI Hc Hr)
              Hinit Hloop)
    as [(evs & Hh & Hcb & Hfacts & Hnd & Heq) Hend].
  destruct (notifySyncComplete_spec w1) as (w2' & Hn' & Hoh & Hh2).
  rewrite Hn in Hn'. injection Hn' as <-.
  destruct Hoh as (_ & _ & _ & Hq2 & _).
  rewrite Hdrain. simpl.
  assert (history w2 = history w ++ evs ++ (EvCallback <$> syncCallbacks w1))
    as Hhist by (by rewrite Hh2, Hh, <-app_assoc).
  rewrite (trace_app w (set_syncInProgress false w2) _ Hhist).
  rewrite attempts_app, synced_app, attempts_callbacks, synced_callbacks.
  rewrite !app_nil_r, Hq2.
  (* every request of the outbox has been handled *)
  assert (∀ k x, queueStore w !! k = Some x → k ∈ processedIds v') as Hall.
  { intros k x Hk. destruct (decide (k ∈ processedIds v')) as [|Hnin]; [done|].
    exfalso.
    pose proof (inv_untouched _ _ _ _ Hfacts k Hnin) as Hsame.
    rewrite Hk in Hsame.
    pose proof (inv_complete _ _ _ _ Hfacts k x Hsame Hnin) as Hx.
    unfold loop_cond in Hend. apply andb_false_iff in Hend as [Hend|Hend].
    - apply bool_decide_eq_false in Hend.
      destruct (requests v'); [by apply elem_of_nil in Hx|].
      simpl in Hend. lia.
    - apply bool_decide_eq_false in Hend.
      rewrite (inv_count _ _ _ _ Hfacts) in Hend.
      (* fifty distinct ids have been synced: all the ids there are *)
      assert (synced evs ⊆+ (map_to_list (queueStore w)).*1) as Hsub.
      { apply NoDup_submseteq; [done|]. intros k' Hk'.
        pose proof (inv_synced _ _ _ _ Hfacts k' Hk') as Hin.
        destruct (inv_processed _ _ _ _ Hfacts k' Hin) as (x0 & Hx0 & _).
        apply list_elem_of_fmap. exists (k', x0). split; [done|].
        by apply elem_of_map_to_list. }
      assert (synced evs ≡ₚ (map_to_list (queueStore w)).*1) as Hperm.
      { apply submseteq_length_Permutation; [done|].
        rewrite length_fmap, length_map_to_list. lia. }
      apply Hnin, (inv_synced _ _ _ _ Hfacts). rewrite Hperm.
      apply list_elem_of_fmap. exists (k, x). split; [done|].
      by apply elem_of_map_to_list. }
  assert (∀ k x, queueStore w !! k = Some x →
                 handled x (queueStore w1 !! k) evs) as Hhandled.
  { intros k x Hk.
    destruct (inv_processed _ _ _ _ Hfacts k (Hall k x Hk))
      as (x0 & Hx0 & Hhd).
    by assert (x0 = x) as -> by congruence. }
  assert (∀ a, a ∈ attempts evs → req_id a ∈ synced evs) as Hdone.
  { intros a Ha. rewrite Heq. apply list_elem_of_fmap. eauto. }
  split; [|split; [done|split; [done|]]].
  - apply map_empty. intros k.
    destruct (queueStore w !! k) as [x|] eqn:Hk.
    + destruct (Hhandled k x Hk) as [[_ ?]|[(_ & _ & _ & ?)|(_ & Ha & Hns & _)]];
        [done..|]. destruct Hns. by apply Hdone.
    + destruct (decide (k ∈ processedIds v')) as [Hin|Hnin].
      * destruct (inv_processed _ _ _ _ Hfacts k Hin) as (x0 & Hx0 & _).
        congruence.
      * by rewrite (inv_untouched _ _ _ _ Hfacts k Hnin).
  - intros k r Hk. split.
    + intros Ha. by destruct (inv_attempted _ _ _ _ Hfacts r Ha) as (_ & ? & _).
    + intros Hlt.
      destruct (Hhandled k r Hk) as [[? _]|[(_ & ? & _)|(_ & ? & _)]];
        [lia|done..].
Qed.

End Healthy.

(** ** Queueing, replaying, and what starts a drain *)

Section Fidelity.
Context {P : Platform}.
Implicit Types (w : World P).

(** X5 — what queueing keeps of a request.  The HTTP request with which
    a queued request is replayed is the one a direct call would have sent
    exactly when the options carry no query parameters and
    [skipJsonContentType] would not have withheld a JSON content type:
    the method (or its default), the URL, the headers and the body are
    kept, the query parameters and [skipJsonContentType] are not. *)
Theorem replay_fidelity endpoint' options id' now :
  capacitor_options endpoint'
    (replay_options (queued_record endpoint' options id' now))
  = capacitor_options endpoint' options
  ↔ opt_params options = None
    ∧ (default false (opt_skipJsonContentType options) = false
       ∨ truthy (default ∅ (opt_headers options) !! "Content-Type") = true
       ∨ default "GET" (opt_method options) = "GET").
Proof.
  unfold capacitor_options, replay_options, queued_record. simpl.
  destruct (default false (opt_skipJsonContentType options)) eqn:Hskip;
    simpl.
  - destruct (truthy (default ∅ (opt_headers options) !! "Content-Type"))
      eqn:Htr; simpl.
    { split; [intros [= ->]; auto|]. intros [-> _]. done. }
    case_bool_decide as Hget; simpl.
    { split; [intros [= ->]; auto|]. intros [-> _]. done. }
    split.
    + intros [= Hins _].
      assert (default ∅ (opt_headers options) !! "Content-Type"
              = Some "application/json") as Hct
        by (by rewrite <-Hins, lookup_insert_eq).
      by rewrite Hct in Htr.
    + intros [_ [?|[?|?]]]; done.
  - split; [intros [= ->]; auto|]. intros [-> _]. done.
Qed.

End Fidelity.

Section Endpoints.
Context {P : Platform}.
Implicit Types (w : World P).

Lemma replay_keeps endpoint' options id' now :
  opt_params options = None →
  default false (opt_skipJsonContentType options) = false →
  capacitor_options endpoint'
    (replay_options (queued_record endpoint' options id' now))
  = capacitor_options endpoint' options.
Proof.
  unfold capacitor_options, replay_options, queued_record. simpl.
  by intros -> ->.
Qed.

(** A call of [request] that resolves to a queued acknowledgement was
    offlineable and made offline, and has stored the record of the
    request under the acknowledged id. *)
Lemma request_queued endpoint' options w ack w1 :
  request endpoint' options w = (Returned (Queued ack), w1) →
  opt_offlineable options = Some true ∧ isOnline w = false
  ∧ ∃ now o,
      w1 = set_outside o
             (set_queueStore
                (<[ack_requestId ack
                   := queued_record endpoint' options (ack_requestId ack) now]>
                   (queueStore w)) w).
Proof.
  unfold request. unfold bind at 1, get.
  destruct (default false (opt_offlineable options)) eqn:Hoff;
    destruct (isOnline w) eqn:Hon; simpl;
    try (unfold bind;
         destruct (directRequest endpoint' options w) as [[d|e|] w'];
         by intros [=]).
  intros Hrun.
  split; [by destruct (opt_offlineable options) as [[]|]|]. split; [done|].
  revert Hrun.
  unfold handleOfflineRequest, queueRequest, generateId.
  unfold bind, try_catch, ask, ret, throw, modify. cbn beta.
  destruct (date_now P (outside w)) as [t1 o1]. cbn.
  destruct (math_random P o1) as [suffix o2]. cbn.
  destruct (date_now P o2) as [t2 o3]. cbn.
  destruct (write_refused P o3) as [[] o4]; cbn; [by intros [=]|].
  destruct (date_now P o4) as [t3 o5]. cbn. intros [= <- <-].
  exists t2, o5. simpl. done.
Qed.

(** X6 — the offlineable endpoint methods replay as they are sent.  When
    a call of an endpoint method resolves to a queued acknowledgement, the
    device was offline and the method is one of the offlineable ones; the
    queue has gained, under the acknowledged id, a record with no retries;
    and the replay of that record calls the gateway with exactly the
    request that the same call sends when the device is online. *)
Theorem offline_calls_replay_as_sent c w ack w1 :
  api_call c w = (Returned (Queued ack), w1) →
  isOnline w = false
  ∧ opt_offlineable (call_options c) = Some true
  ∧ ∃ r, queueStore w1 = <[ack_requestId ack := r]> (queueStore w)
         ∧ req_id r = ack_requestId ack ∧ retries r = 0
         ∧ ∀ w2 w3, isOnline w3 = true →
             http_calls (trace w2 (processApiRequest r w2).2)
             = http_calls (trace w3 (api_call c w3).2)
             ∧ http_calls (trace w3 (api_call c w3).2)
               = [capacitor_options (call_endpoint c) (call_options c)].
Proof.
  intros Hrun. unfold api_call in *.
  destruct (request_queued _ _ _ _ _ Hrun) as (Hoff & Hon & now & o & ->).
  split; [done|]. split; [done|].
  eexists. split; [done|]. split; [done|]. split; [done|].
  intros w2 w3 Hon3.
  assert (http_calls (trace w3 (request (call_endpoint c) (call_options c)
                                  w3).2)
          = [capacitor_options (call_endpoint c) (call_options c)]) as Hdirect.
  { unfold request, bind at 1, get. rewrite Hon3, andb_false_r. unfold bind.
    pose proof (directRequest_history (call_endpoint c) (call_options c) w3)
      as Hh.
    destruct (directRequest (call_endpoint c) (call_options c) w3)
      as [[d|e|] w']; simpl in *; by rewrite (trace_app _ _ _ Hh). }
  split; [|done]. rewrite Hdirect, processApiRequest_http_calls. simpl.
  f_equal. apply replay_keeps; by destruct c.
Qed.

End Endpoints.

Section Online.
Context {P : Platform}.
Implicit Types (w : World P).

(** X7 — while the device is marked online nothing is queued.  A request
    made while [isOnline] is set goes to the gateway, offlineable or not:
    the gateway is called once, the queue is untouched, and the call
    resolves to the response or rejects with the [ApiError] of the gateway;
    a failure of the gateway does not send an offlineable request to the
    queue. *)
Theorem online_requests_go_direct endpoint' options w :
  isOnline w = true →
  queueStore (request endpoint' options w).2 = queueStore w
  ∧ http_calls (trace w (request endpoint' options w).2)
    = [capacitor_options endpoint' options]
  ∧ match (directRequest endpoint' options w).1 with
    | Returned response =>
        (request endpoint' options w).1 = Returned (Direct response)
    | Thrown e =>
        (request endpoint' options w).1 = Thrown e
        ∧ ∃ err, e = ExApi err
    | OutOfFuel => False
    end.
Proof.
  intros Hon.
  assert (request endpoint' options w
          = bind (directRequest endpoint' options)
              (λ response, ret (Direct response)) w) as ->.
  { unfold request, bind at 1, get. by rewrite Hon, andb_false_r. }
  pose proof (directRequest_outcome endpoint' options w) as Hout.
  pose proof (directRequest_history endpoint' options w) as Hh.
  destruct (framed_directRequest endpoint' options w) as [(Hq & _) Hn].
  unfold bind.
  destruct (directRequest endpoint' options w) as [[d|e|] w'] eqn:Hrun;
    simpl in *; [| |done].
  - split; [done|]. split; [by rewrite (trace_app _ _ _ Hh)|done].
  - split; [done|]. split; [by rewrite (trace_app _ _ _ Hh)|].
    split; [done|].
    destruct (capacitor_request P _ (outside w)) as [[resp|] o].
    + destruct (http_ok (status resp)); [done|].
      destruct Hout as [msg [= ->]]. eauto.
    + injection Hout as ->. unfold network_error. eauto.
Qed.

End Online.

Section RoundTrip.
Context {P : Platform}.
Implicit Types (w : World P) (v : LoopVars).

(** X8 — when a replay counts as done.  The replay of a stored API
    request resolves exactly when the gateway answers with a status in
    200–299 (and, to the creation of a report, with a body); whatever
    happens to the images of the report afterwards does not make it
    reject.  Either way it calls the gateway once and leaves the queue to
    its caller. *)
Theorem replay_outcome r w :
  ((processApiRequest r w).1 = Returned tt ↔ replay_succeeds r w = true)
  ∧ http_calls (trace w (processApiRequest r w).2)
    = [capacitor_options (endpoint r) (replay_options r)]
  ∧ queueStore (processApiRequest r w).2 = queueStore w.
Proof.
  split; [|split; [apply processApiRequest_http_calls|
                   apply framed_processApiRequest]].
  pose proof (processApiRequest_outcome r w) as Hout.
  destruct (replay_succeeds r w); [done|].
  destruct Hout as [e ->]. done.
Qed.

(** X9 — from the offline submission to the server.  The device goes
    offline; an offlineable request is submitted on an empty outbox and
    acknowledged as queued; the device comes back online.  If the gateway
    then accepts the request, the listener's drain sends exactly the
    request a direct call would have sent, once, reports it synced, fires
    the callbacks, and leaves the outbox empty and the guard released. *)
Theorem offline_submission_round_trip endpoint' options w ack w1 resp o1 fuel :
  queueStore w = ∅ →
  syncInProgress w = false →
  request endpoint' options (on_offline w).2 = (Returned (Queued ack), w1) →
  opt_params options = None →
  default false (opt_skipJsonContentType options) = false →
  capacitor_request P (capacitor_options endpoint' options) (outside w1)
  = (Some resp, o1) →
  http_ok (status resp) = true →
  (endpoint' = "/price-reports" → opt_method options = Some "POST" →
   is_Some (data resp)) →
  (0 < fuel)%nat →
  (on_online fuel w1).1 = Returned tt
  ∧ queueStore (on_online fuel w1).2 = ∅
  ∧ http_calls (trace w (on_online fuel w1).2)
    = [capacitor_options endpoint' options]
  ∧ synced (trace w (on_online fuel w1).2) = [ack_requestId ack]
  ∧ callbacks_fired (trace w (on_online fuel w1).2) = syncCallbacks w
  ∧ isOnline (on_online fuel w1).2 = true
  ∧ syncInProgress (on_online fuel w1).2 = false.
Proof.
  intros Hempty Hfree Hrun Hparams Hskip Hcap Hstatus Hdata Hfuel.
  destruct (request_queued _ _ _ _ _ Hrun) as (Hoff & _ & now & o & ->).
  simpl in Hcap.
  set (r := queued_record endpoint' options (ack_requestId ack) now).
  assert (capacitor_options (endpoint r) (replay_options r)
          = capacitor_options endpoint' options) as Hsame
    by (by apply replay_keeps).
  set (w1 := set_outside o _) in *.
  assert (replay_succeeds r (set_isOnline true w1) = true) as Hok.
  { unfold replay_succeeds. rewrite Hsame. simpl. rewrite Hcap, Hstatus.
    simpl. case_bool_decide as Hend; simpl; [|done].
    case_bool_decide as Hmeth; simpl; [|done].
    apply bool_decide_eq_true. apply Hdata; [done|].
    revert Hmeth. simpl.
    destruct (opt_method options) as [m|]; simpl; [by intros ->|done]. }
  destruct (drain_singleton fuel (set_isOnline true w1) r)
    as (w' & evs & Hdrain & Hq' & Hh' & (Hqa & Hqs & Hqc) & Hhttp & Hon'
        & Hguard & Hcbs'); [done| |done..|].
  { simpl. by rewrite Hempty, insert_empty. }
  assert (on_online fuel w1 = (Returned tt, w')) as ->.
  { unfold on_online, floating, bind at 1, modify at 1, try_catch, bind.
    by rewrite Hdrain. }
  simpl in *. rewrite (trace_app w w' _ Hh').
  split; [done|]. split; [done|].
  change (EvProcessing r :: ?l) with ([EvProcessing r] ++ l).
  rewrite !http_calls_app, !synced_app, !callbacks_fired_app.
  rewrite http_calls_callbacks, synced_callbacks, callbacks_fired_callbacks.
  rewrite Hhttp, Hqs, Hqc, Hsame. simpl. by rewrite Hon'.
Qed.

End RoundTrip.

Section Triggers.
Context {P : Platform}.
Implicit Types (w : World P).

Lemma drain_returns w : (drain w).1 = Returned tt.
Proof.
  destruct (syncInProgress w) eqn:Hbusy.
  - by rewrite drain_busy_eq.
  - by destruct (drain_end w Hbusy) as (evs & -> & _).
Qed.

Lemma floating_drain fuel w :
  (drain_fuel w ≤ fuel)%nat →
  floating (syncPendingRequests fuel) w = drain w.
Proof.
  intros Hfuel. unfold floating, try_catch, bind.
  rewrite drain_more_fuel by done.
  pose proof (drain_returns w) as Hret.
  destruct (drain w) as [res w']. simpl in Hret. by subst res.
Qed.

(** X10 — what starts a drain.  Given fuel for the loop, each trigger of
    the service is one call of the drain, or nothing: the listener of the
    network plugin is the [online] listener of the browser when the device
    is connected and the [offline] listener when it is not; the [online]
    listener marks the device online and drains; the [offline] listener
    only marks it offline; and a tick of the periodic sync drains when the
    device is marked online and does nothing when it is not. *)
Theorem drain_triggers fuel w :
  (drain_fuel w ≤ fuel)%nat →
  on_networkStatusChange true fuel w = on_online fuel w
  ∧ on_networkStatusChange false fuel w = on_offline w
  ∧ on_online fuel w = drain (set_isOnline true w)
  ∧ on_offline w = (Returned tt, set_isOnline false w)
  ∧ sync_tick fuel w = (if isOnline w then drain w else (Returned tt, w)).
Proof.
  intros Hfuel. split; [done|]. split; [done|]. split; [|split; [done|]].
  - unfold on_online, bind, modify. by rewrite floating_drain.
  - unfold sync_tick, bind, getOnlineStatus, get.
    destruct (isOnline w); [by apply floating_drain|done].
Qed.

End Triggers.

(** ** Reference data *)

Section ReferenceData.
Context {P : Platform}.
Variable B : Browser.
Implicit Types (w : World P).

(** A call of [request] that is not offlineable, by the answer of the
    gateway. *)
Lemma request_direct endpoint' options w :
  default false (opt_offlineable options) = false →
  request endpoint' options w
  = bind (directRequest endpoint' options) (λ response, ret (Direct response))
      w.
Proof. intros Hoff. unfold request, bind at 1, get. by rewrite Hoff. Qed.

Lemma directRequest_down endpoint' options w :
  gateway_down (capacitor_options endpoint' options) (outside w) = true →
  ∃ e w', directRequest endpoint' options w = (Thrown (ExApi e), w').
Proof.
  unfold gateway_down.
  pose proof (directRequest_outcome endpoint' options w) as Hout.
  destruct (capacitor_request P _ (outside w)) as [[resp|] o].
  - intros Hfail%negb_true_iff. rewrite Hfail in Hout.
    destruct Hout as [msg Hout].
    destruct (directRequest endpoint' options w) as [res w'].
    simpl in Hout. subst res. eauto.
  - intros _. destruct (directRequest endpoint' options w) as [res w'].
    simpl in Hout. subst res. unfold network_error. eauto.
Qed.

(** What [getReferenceData] does when the gateway fails. *)
Lemma getReferenceData_down token cached w :
  gateway_down (reference_data_request token) (outside w) = true →
  ∃ e w',
    directRequest "/price-reports/reference-data"
      (options_of None (Some (bearer token)) None None false) w
    = (Thrown (ExApi e), w')
    ∧ getReferenceData B token cached w
      = if truthy cached
        then match JSON_parse B (default "" cached) with
             | Some parsed => (Returned (parsed, cached), w')
             | None => (Thrown (ExError "SyntaxError"), w')
             end
        else (Thrown (ExApi e), w').
Proof.
  intros Hdown.
  destruct (directRequest_down _ _ w Hdown) as (e & w' & Hrun).
  exists e, w'. split; [done|].
  unfold getReferenceData, try_catch, bind at 1.
  rewrite request_direct by done. unfold bind at 1. rewrite Hrun.
  destruct (truthy cached); [|done].
  by destruct (JSON_parse B (default "" cached)).
Qed.


(** X12 — reference data survive an outage.  Once [getReferenceData] has
    resolved to data (that [JSON] can write and read back), a later call
    that finds the gateway failing resolves to the same data, from the
    cache the first call has left. *)
Theorem reference_data_survives_outage token cached w result cached' w1 w2 :
  getReferenceData B token cached w = (Returned (result, cached'), w1) →
  result_truthy result = true →
  JSON_stringify B result ≠ "" →
  JSON_parse B (JSON_stringify B result) = Some result →
  gateway_down (reference_data_request token) (outside w2) = true →
  (getReferenceData B token cached' w2).1 = Returned (result, cached').
Proof.
  intros Hfirst Htruthy Hne Hround Hdown.
  assert (truthy cached' = true
          ∧ JSON_parse B (default "" cached') = Some result) as [Htr Hparse].
  { revert Hfirst. unfold getReferenceData, try_catch, bind at 1.
    destruct (request _ _ w) as [[data'|e|] w0].
    - destruct (result_truthy data') eqn:Hdt.
      + destruct (localStorage_refuses B _ _).
        * unfold throw. destruct (truthy cached) eqn:Htc; [|by intros [=]].
          destruct (JSON_parse B (default "" cached)) eqn:Hp;
            intros [= <- <- <-]; done.
        * intros [= <- <- <-]. simpl. split; [|done].
          unfold truthy. by rewrite bool_decide_eq_false_2.
      + intros [= <- <- <-]. congruence.
    - destruct (truthy cached) eqn:Htc; [|by intros [=]].
      destruct (JSON_parse B (default "" cached)) eqn:Hp;
        intros [= <- <- <-]; done.
    - by intros [=]. }
  destruct (getReferenceData_down token cached' w2 Hdown)
    as (e & w' & _ & ->).
  by rewrite Htr, Hparse.
Qed.

End ReferenceData.

(** ** The images of offline reports *)

Section Assets.
Context {P : Platform}.
Variable B : Browser.
Implicit Types (w : World P).

Lemma map_M_fileToBase64 (imgs : list CapturedImage) w :
  map_M (λ img, bind (fileToBase64 B (ci_file img))
                  (λ base64Data, ret (report_image img base64Data))) imgs w
  = match encoded_images B imgs with
    | Some imagesData => (Returned imagesData, w)
    | None => (Thrown (ExError "FileReader error"), w)
    end.
Proof.
  unfold encoded_images. induction imgs as [|img imgs IH]; [done|].
  simpl. unfold bind at 1. unfold bind at 1. unfold fileToBase64 at 1.
  destruct (readAsDataURL B (ci_file img)) as [d|]; simpl; [|done].
  unfold bind at 1. rewrite IH.
  by destruct (mapM _ imgs).
Qed.

Lemma encoded_images_tempIds imgs imagesData :
  encoded_images B imgs = Some imagesData →
  ri_tempId <$> imagesData = ci_tempId <$> imgs.
Proof.
  unfold encoded_images. revert imagesData.
  induction imgs as [|img imgs IH]; intros imagesData; simpl.
  - by intros [= <-].
  - destruct (readAsDataURL B (ci_file img)) as [d|]; simpl; [|done].
    destruct (mapM _ imgs) as [l|]; simpl; [|done].
    intros [= <-]. simpl. f_equal. by apply IH.
Qed.

(** What [storeOfflineReportImages] does, by what the file reader, the
    clock and the store answer. *)
Lemma storeOfflineReportImages_run imgs w :
  storeOfflineReportImages B imgs w
  = let '(now, o1) := date_now P (outside w) in
    let storageId := "report_images_" +:+ pretty now in
    match encoded_images B imgs with
    | None => (Thrown (ExError "FileReader error"), set_outside o1 w)
    | Some imagesData =>
        let '(timestamp, o2) := date_now P o1 in
        let '(refused, o3) := write_refused P o2 in
        if refused : bool
        then (Thrown (ExError "setItem rejected"), set_outside o3 w)
        else (Returned storageId,
              set_reportImagesStore
                (<[storageId := {| grp_id := storageId;
                                   tempIds := ci_tempId <$> imgs;
                                   images := imagesData;
                                   grp_timestamp := timestamp |}]>
                   (reportImagesStore w))
                (set_outside o3 w))
    end.
Proof.
  unfold storeOfflineReportImages, bind at 1, ask at 1.
  destruct (date_now P (outside w)) as [now o1].
  unfold bind at 1. rewrite map_M_fileToBase64.
  destruct (encoded_images B imgs) as [imagesData|]; [|done].
  unfold bind, ask, modify, throw, ret. simpl.
  destruct (date_now P o1) as [timestamp o2]. simpl.
  by destruct (write_refused P o2) as [[] o3].
Qed.

(** X13 — storing the images of an offline report is all or nothing.
    When every file can be read and the store takes the write, the call
    resolves to the key [report_images_<now>], under which the store then
    holds one group with an image for each captured image, in order, its
    temp ids listed alongside; the other groups are as before.  When a
    file cannot be read, or the store refuses the write, the call rejects
    and no group is stored or changed. *)
Theorem storeOfflineReportImages_all_or_nothing imgs w :
  let '(now, o1) := date_now P (outside w) in
  let '(timestamp, o2) := date_now P o1 in
  let storageId := "report_images_" +:+ pretty now in
  match encoded_images B imgs with
  | Some imagesData =>
      if (write_refused P o2).1
      then (storeOfflineReportImages B imgs w).1
           = Thrown (ExError "setItem rejected")
           ∧ reportImagesStore (storeOfflineReportImages B imgs w).2
             = reportImagesStore w
      else
        let g := {| grp_id := storageId; tempIds := ci_tempId <$> imgs;
                    images := imagesData; grp_timestamp := timestamp |} in
        (storeOfflineReportImages B imgs w).1 = Returned storageId
        ∧ reportImagesStore (storeOfflineReportImages B imgs w).2
          = <[storageId := g]> (reportImagesStore w)
        ∧ (getStoredReportImages storageId
             (storeOfflineReportImages B imgs w).2).1 = Returned (Some g)
        ∧ ri_tempId <$> images g = tempIds g
        ∧ length (images g) = length imgs
  | None =>
      (storeOfflineReportImages B imgs w).1
      = Thrown (ExError "FileReader error")
      ∧ reportImagesStore (storeOfflineReportImages B imgs w).2
        = reportImagesStore w
  end.
Proof.
  rewrite storeOfflineReportImages_run.
  destruct (date_now P (outside w)) as [now o1].
  destruct (date_now P o1) as [timestamp o2].
  destruct (encoded_images B imgs) as [imagesData|] eqn:Henc; [|done].
  destruct (write_refused P o2) as [[] o3]; simpl; [done|].
  unfold getStoredReportImages, get, getItem. simpl.
  rewrite lookup_insert_eq. split; [done|]. split; [done|]. split; [done|].
  pose proof (encoded_images_tempIds _ _ Henc) as Hids.
  split; [done|].
  by rewrite <-(length_fmap ri_tempId), Hids, length_fmap.
Qed.

End Assets.

Section AssetsFound.
Context {P : Platform}.
Variable B : Browser.
Implicit Types (w : World P).

(** The search among groups of which at most the one under [k] holds a
    wanted temp id. *)
Lemma find_sole_group wanted (s : gmap string OfflineReportImages) k g :
  s !! k = Some g →
  (∀ k' g', s !! k' = Some g' → k' ≠ k →
            hasMatchingTempIds wanted g' = false) →
  foldl (oldest_match wanted) None (iterate s)
  = if hasMatchingTempIds wanted g then Some g else None.
Proof.
  intros Hk Hothers.
  pose proof (oldest_match_fold wanted (iterate s) None) as Hfold.
  destruct (foldl (oldest_match wanted) None (iterate s)) as [g'|].
  - destruct Hfold as ([[=]|[Hin Hm]] & _).
    apply elem_of_iterate in Hin as [k' Hk'].
    destruct (decide (k' = k)) as [->|Hne].
    + assert (g' = g) as -> by congruence. by rewrite Hm.
    + by rewrite (Hothers k' g' Hk' Hne) in Hm.
  - destruct Hfold as [_ Hnone].
    rewrite Hnone; [done|]. apply elem_of_iterate. eauto.
Qed.

Lemma storeOfflineReportImages_returned imgs w storageId w1 :
  storeOfflineReportImages B imgs w = (Returned storageId, w1) →
  ∃ imagesData timestamp,
    encoded_images B imgs = Some imagesData
    ∧ reportImagesStore w1
      = <[storageId := {| grp_id := storageId;
                          tempIds := ci_tempId <$> imgs;
                          images := imagesData;
                          grp_timestamp := timestamp |}]>
          (reportImagesStore w)
    ∧ access_token w1 = access_token w
    ∧ history w1 = history w.
Proof.
  rewrite storeOfflineReportImages_run.
  destruct (date_now P (outside w)) as [now o1].
  destruct (encoded_images B imgs) as [imagesData|]; [|done].
  destruct (date_now P o1) as [timestamp o2].
  destruct (write_refused P o2) as [[] o3]; [done|].
  intros [= <- <-]. by exists imagesData, timestamp.
Qed.

(** X14 — a stored group is found by the temp ids of its images.  After
    [storeOfflineReportImages] has resolved, and as long as no other
    stored group holds a wanted temp id, [findStoredImagesByTempIds] finds
    the stored group exactly when one of the captured images carries a
    wanted temp id (a group stored for no image is never found). *)
Theorem stored_images_are_found imgs w storageId w1 wanted :
  storeOfflineReportImages B imgs w = (Returned storageId, w1) →
  (∀ k g, reportImagesStore w !! k = Some g → k ≠ storageId →
          hasMatchingTempIds wanted g = false) →
  ∃ g, reportImagesStore w1 !! storageId = Some g
       ∧ tempIds g = ci_tempId <$> imgs
       ∧ (findStoredImagesByTempIds wanted w1).1
         = Returned (if hasMatchingTempIds wanted g then Some g else None)
       ∧ (hasMatchingTempIds wanted g = true
          ↔ ∃ img, img ∈ imgs ∧ ci_tempId img ∈ wanted).
Proof.
  intros Hrun Hothers.
  destruct (storeOfflineReportImages_returned _ _ _ _ Hrun)
    as (imagesData & timestamp & Henc & Hstore & _).
  eexists. rewrite Hstore, lookup_insert_eq. split; [done|]. split; [done|].
  split.
  - unfold findStoredImagesByTempIds, get. simpl. f_equal. rewrite Hstore.
    apply (find_sole_group wanted _ storageId); [by rewrite lookup_insert_eq|].
    intros k' g' Hk' Hne. rewrite lookup_insert_ne in Hk' by done. eauto.
  - unfold hasMatchingTempIds. simpl. rewrite existsb_exists. split.
    + intros (t & Ht%list_elem_of_In & Hw%bool_decide_eq_true).
      apply list_elem_of_fmap in Ht as (img & -> & Himg). eauto.
    + intros (img & Himg & Hw). exists (ci_tempId img).
      split; [|by apply bool_decide_eq_true].
      apply list_elem_of_In, list_elem_of_fmap. eauto.
Qed.

End AssetsFound.

Section AssetsUploaded.
Context {P : Platform}.
Variable B : Browser.
Implicit Types (w : World P).

(** The reconciliation of the images stored for captured images whose
    items the report has. *)
Lemma reconciled_captured its imgs imagesData :
  encoded_images B imgs = Some imagesData →
  (∀ img, img ∈ imgs → is_Some (upload_of its img)) →
  (∀ img d, img ∈ imgs → readAsDataURL B (ci_file img) = Some d →
            decode_data_url P d
            = Some (file_type (ci_file img), file_bytes (ci_file img))) →
  ∃ pairs, mapM (upload_of its) imgs = Some pairs
           ∧ omap (reconciled P its) imagesData = pairs
           ∧ length pairs = length imgs
           ∧ Forall (λ im, is_Some (decode_data_url P (ri_base64Data im)))
               imagesData.
Proof.
  unfold encoded_images. revert imagesData.
  induction imgs as [|img imgs IH]; intros imagesData; simpl.
  - intros [= <-] _ _. by exists [].
  - destruct (readAsDataURL B (ci_file img)) as [d|] eqn:Hd; simpl; [|done].
    destruct (mapM _ imgs) as [l|] eqn:Hl; simpl; [|done].
    intros [= <-] Hitems Hround.
    destruct (IH l eq_refl) as (pairs & Hpairs & Hrec & Hlen & Hdec).
    { intros img' Himg'. apply Hitems. by right. }
    { intros img' d' Himg'. apply Hround. by right. }
    destruct (Hitems img) as [pair Hpair]; [by left|].
    exists (pair :: pairs). rewrite Hpair, Hpairs. simpl.
    split; [done|].
    assert (reconciled P its (report_image img d) = Some pair) as Hx.
    { revert Hpair. unfold upload_of, reconciled, db_item. simpl.
      destruct (find _ its) as [dbItem|]; [|done]. simpl.
      rewrite (Hround img d) by (done || by left). by intros [= <-]. }
    rewrite Hx. split; [f_equal; exact Hrec|]. split; [by rewrite Hlen|].
    constructor; [|done]. simpl. rewrite (Hround img d) by (done || by left).
    by eexists.
Qed.

(** X15 — the images captured offline reach the upload.  Take the images
    stored for an offline report, each under a temp id that an item of the
    saved report carries, and a token at hand.  The reconciliation of the
    saved report then sends one upload that holds, for every captured
    image in order, the content of its file, named [item-<tempId>.jpg],
    under the database id of its item; the stored group is deleted when
    the upload is accepted and kept when it fails. *)
Theorem captured_images_are_uploaded imgs w storageId w1 sr its token :
  storeOfflineReportImages B imgs w = (Returned storageId, w1) →
  (∀ k g, reportImagesStore w !! k = Some g → k ≠ storageId →
          hasMatchingTempIds (wanted_tempIds its) g = false) →
  imgs ≠ [] →
  items sr = Some its →
  access_token w = Some token →
  token ≠ "" →
  (∀ img, img ∈ imgs → ci_tempId img ≠ "" ∧ is_Some (upload_of its img)) →
  (∀ img d, img ∈ imgs → readAsDataURL B (ci_file img) = Some d →
            decode_data_url P d
            = Some (file_type (ci_file img), file_bytes (ci_file img))) →
  ∃ pairs form,
    mapM (upload_of its) imgs = Some pairs
    ∧ upload_form {| reportId := rd_id sr; upl_images := pairs.*2;
                     files := pairs.*1 |} = Some form
    ∧ fetch_calls (trace w1 (findAndUploadReportImages sr w1).2)
      = [upload_request token form]
    ∧ if upload_accepted (upload_request token form) (outside w1)
      then (findAndUploadReportImages sr w1).1 = Returned tt
           ∧ reportImagesStore (findAndUploadReportImages sr w1).2
             = delete storageId (reportImagesStore w1)
      else (∃ e, (findAndUploadReportImages sr w1).1 = Thrown e)
           ∧ reportImagesStore (findAndUploadReportImages sr w1).2
             = reportImagesStore w1.
Proof.
  intros Hrun Hothers Hne Hits Htok Htokne Hitems Hround.
  destruct (storeOfflineReportImages_returned B _ _ _ _ Hrun)
    as (imagesData & timestamp & Henc & Hstore & Htok1 & _).
  set (g := {| grp_id := storageId; tempIds := ci_tempId <$> imgs;
               images := imagesData; grp_timestamp := timestamp |}) in *.
  destruct (reconciled_captured its imgs imagesData Henc)
    as (pairs & Hpairs & Hrec & Hlen & Hdec); [naive_solver|done|].
  (* the group is the one the search picks *)
  assert (group_matches its g) as Hmatch.
  { destruct imgs as [|img imgs]; [done|].
    destruct (Hitems img) as [Hid [pair Hpair]]; [by left|].
    exists (ci_tempId img). split; [by left|].
    revert Hpair. unfold upload_of.
    destruct (find _ its) as [dbItem|] eqn:Hfind; [|done]. intros _.
    apply find_some in Hfind as [Hin Heq%bool_decide_eq_true].
    unfold wanted_tempIds. apply list_elem_of_omap. exists dbItem.
    split; [by apply list_elem_of_In|]. rewrite Heq. unfold truthy.
    by rewrite bool_decide_eq_false_2. }
  assert (findAndUploadReportImages sr w1
          = uploadImagesForSyncedReport sr g w1) as ->.
  { destruct Hmatch as (t & Ht & Hw).
    assert (hasMatchingTempIds (wanted_tempIds its) g = true) as Hm
      by (apply hasMatchingTempIds_true; by exists t).
    unfold findAndUploadReportImages. rewrite Hits.
    rewrite bool_decide_eq_false_2
      by (destruct its; [by apply elem_of_nil in Hw|done]).
    rewrite bool_decide_eq_false_2
      by (destruct (wanted_tempIds its); [by apply elem_of_nil in Hw|done]).
    unfold bind, findStoredImagesByTempIds, get.
    rewrite Hstore,
      (find_sole_group (wanted_tempIds its) _ storageId g), Hm;
      [done|by rewrite lookup_insert_eq|].
    intros k' g' Hk' Hne'. rewrite lookup_insert_ne in Hk' by done. eauto. }
  pose proof (uploadImagesForSyncedReport_spec sr g w1 its token Hits)
    as Hspec.
  simpl in Hspec. rewrite Hrec in Hspec.
  destruct pairs as [|pair pairs]; [by destruct imgs|].
  destruct Hspec as (form & Hform & Hh & Hacc).
  { intros ->. by destruct imgs. }
  { by rewrite Htok1. }
  { done. }
  { intros im Him _. by apply (proj1 (Forall_forall _ _) Hdec). }
  exists (pair :: pairs), form. split; [done|]. split; [done|]. split.
  - rewrite (trace_app _ _ _ Hh), fetch_calls_app,
      fetch_calls_unmatched_warnings. done.
  - rewrite Hstore in *. exact Hacc.
Qed.

End AssetsUploaded.

Section Skipped.
Context {P : Platform}.
Implicit Types (w : World P).

(** The reconciliation of a report none of whose temp ids is held by a
    stored group does nothing. *)
Lemma findAndUploadReportImages_no_group sr w :
  (∀ its k g, items sr = Some its → reportImagesStore w !! k = Some g →
              ¬ group_matches its g) →
  findAndUploadReportImages sr w = (Returned tt, w).
Proof.
  intros Hnone. unfold findAndUploadReportImages.
  destruct (items sr) as [its|] eqn:Hits; [|done].
  case_bool_decide; [done|]. case_bool_decide; [done|].
  unfold bind, findStoredImagesByTempIds, get.
  pose proof (oldest_match_fold (wanted_tempIds its)
                (iterate (reportImagesStore w)) None) as Hfold.
  destruct (foldl _ None _) as [g|]; [|done].
  destruct Hfold as ([[=]|[Hin Hm]] & _).
  apply elem_of_iterate in Hin as [k Hk].
  apply hasMatchingTempIds_true in Hm. by destruct (Hnone its k g).
Qed.

(** X16 — when the replay of a report creation leaves the images alone.
    When the creation of a report is replayed with success while there is
    no access token at hand, or while no stored group holds a temp id of
    the saved report's items, the replay is the call of the gateway and
    nothing more: no upload, no warning, and the stored groups are as
    before. *)
Theorem reconciliation_skipped r w resp o1 sr :
  endpoint r = "/price-reports" →
  method r = "POST" →
  capacitor_request P (capacitor_options (endpoint r) (replay_options r))
    (outside w) = (Some resp, o1) →
  http_ok (status resp) = true →
  data resp = Some sr →
  truthy (access_token w) = false
  ∨ (∀ its k g, items sr = Some its → reportImagesStore w !! k = Some g →
                ¬ group_matches its g) →
  (processApiRequest r w).1 = Returned tt
  ∧ trace w (processApiRequest r w).2
    = [EvHttp (capacitor_options (endpoint r) (replay_options r))]
  ∧ reportImagesStore (processApiRequest r w).2 = reportImagesStore w.
Proof.
  intros Hend Hmeth Hcap Hok Hdata Hskip.
  destruct (directRequest_ok (endpoint r) (replay_options r) w resp o1
              Hcap Hok) as (w1 & Hdirect & Hh1 & _ & Hgr1 & Htok1 & _).
  assert (processApiRequest r w = (Returned tt, w1)) as ->.
  { unfold processApiRequest, bind at 1. rewrite Hdirect.
    rewrite Hend, Hmeth, Hdata. simpl. unfold bind, get. rewrite Htok1.
    destruct Hskip as [-> | Hnone]; [done|].
    destruct (truthy (access_token w)); [|done].
    unfold try_catch. rewrite findAndUploadReportImages_no_group; [done|].
    intros its k g. rewrite Hgr1. apply Hnone. }
  simpl. split; [done|]. split; [by apply trace_app|done].
Qed.

End Skipped.

(** ** Uploads *)

Lemma imap_pair_snd {A} (l : list A) : (imap pair l).*2 = l.
Proof.
  apply list_eq. intros i. rewrite list_lookup_fmap, list_lookup_imap.
  by destruct (l !! i).
Qed.

Lemma elem_of_imap_pair {A} (l : list A) i x :
  (i, x) ∈ imap pair l ↔ l !! i = Some x.
Proof.
  rewrite elem_of_lookup_imap. split.
  - by intros (j & y & [= -> ->] & Hj).
  - intros Hi. by exists i, x.
Qed.

Section Upload.
Context {P : Platform}.
Implicit Types (w : World P).

(** The form of [uploadImages] can be built exactly when every file has
    metadata at its index. *)
Lemma upload_form_is_Some_iff uploadData :
  is_Some (upload_form uploadData)
  ↔ (length (files uploadData) ≤ length (upl_images uploadData))%nat.
Proof.
  unfold upload_form. rewrite fmap_is_Some, mapM_is_Some, Forall_forall.
  split.
  - intros Hall. apply Nat.nlt_ge. intros Hlt.
    destruct (lookup_lt_is_Some_2 (files uploadData)
                (length (upl_images uploadData)) Hlt) as [file Hfile].
    destruct (Hall (length (upl_images uploadData), file)) as [entry Hentry].
    { apply elem_of_imap_pair. done. }
    simpl in Hentry. rewrite lookup_ge_None_2 in Hentry by lia. done.
  - intros Hle [i file] Hin%elem_of_imap_pair. simpl.
    apply fmap_is_Some, lookup_lt_is_Some_2.
    apply lookup_lt_Some in Hin. lia.
Qed.

(** X17 — how [uploadImages] fails.  With more files than metadata the
    call rejects with a [TypeError] before any network call.  Otherwise it
    calls [fetch] once, with the token as bearer; a rejected call and an
    unreadable body surface as the [ApiError] of status 0, a status outside
    200–299 as an [ApiError] of that status, with the message of the body
    if it has one; else the call resolves to the body. *)
Theorem uploadImages_surfaces_errors token uploadData w :
  match upload_form uploadData with
  | None =>
      (length (upl_images uploadData) < length (files uploadData))%nat
      ∧ uploadImages token uploadData w = (Thrown (ExError "TypeError"), w)
  | Some form =>
      (length (files uploadData) ≤ length (upl_images uploadData))%nat
      ∧ fetch_calls (trace w (uploadImages token uploadData w).2)
        = [upload_request token form]
      ∧ f_authorization (upload_request token form) = "Bearer " +:+ token
      ∧ match fetch P (upload_request token form) (outside w) with
        | (None, _) =>
            (uploadImages token uploadData w).1 = Thrown network_error
        | (Some resp, _) =>
            if http_ok (f_status resp)
            then match f_json resp with
                 | Some result =>
                     (uploadImages token uploadData w).1 = Returned result
                 | None =>
                     (uploadImages token uploadData w).1
                     = Thrown network_error
                 end
            else (uploadImages token uploadData w).1
                 = Thrown (ExApi
                     {| err_message :=
                          or_else
                            (json_message
                               (default (JsonObject None) (f_json resp)))
                            ("HTTP error! status: "
                               +:+ pretty (f_status resp));
                        err_status := f_status resp |})
        end
  end.
Proof.
  pose proof (upload_form_is_Some_iff uploadData) as Hform.
  destruct (upload_form uploadData) as [form|] eqn:Hf.
  - split; [apply Hform; eauto|].
    destruct (uploadImages_outcome token uploadData form w Hf) as (Hh & _).
    split; [by rewrite (trace_app _ _ _ Hh)|]. split; [done|].
    unfold uploadImages. rewrite Hf.
    unfold try_catch, bind, emit, modify, ask. simpl.
    destruct (fetch P (upload_request token form) (outside w))
      as [[resp|] o]; simpl; [|done].
    destruct (http_ok (f_status resp)); simpl; [|done].
    by destruct (f_json resp).
  - split.
    + apply Nat.nle_gt. intros Hle. apply Hform in Hle as [? ?]. done.
    + unfold uploadImages. by rewrite Hf.
Qed.

End Upload.

(** ** Stored images and image requests *)

Section Images.
Context {P : Platform}.
Variable B : Browser.
Implicit Types (w : World P).

Lemma prefix_app (p s t : string) :
  String.prefix p s = true → String.prefix p (s +:+ t) = true.
Proof.
  revert p. induction s as [|b s IH]; intros [|a p]; simpl; try done.
  - intros _. by destruct t.
  - destruct (Ascii.ascii_dec a b); [apply IH|done].
Qed.

Lemma getStoredImagesByRequest_elem requestId w x :
  (∀ l, (getStoredImagesByRequest requestId w).1 = Returned l → x ∈ l)
  ↔ ∃ k, imagesStore w !! k = Some x
         ∧ belongs_to_request requestId x = true.
Proof.
  unfold getStoredImagesByRequest, get. simpl. split.
  - intros Hl. specialize (Hl _ eq_refl).
    apply list_elem_of_filter in Hl as [Hb Hin].
    apply elem_of_iterate in Hin as [k Hk]. eauto.
  - intros (k & Hk & Hb) l [= <-]. apply list_elem_of_filter.
    split; [done|]. apply elem_of_iterate. eauto.
Qed.

(** What [storeImage] does, by what the file reader, the clock and the
    store answer. *)
Lemma storeImage_run file itemId' requestId w :
  storeImage B file itemId' requestId w
  = match readAsDataURL B file with
    | None => (Thrown (ExError "Failed to read file"), w)
    | Some d =>
        if bool_decide (d = "")
        then (Thrown (ExError "Failed to read file"), w)
        else
          let '(now, o1) := date_now P (outside w) in
          let '(refused, o2) := write_refused P o1 in
          let imageId := "img_" +:+ pretty now +:+ "_" +:+ pretty itemId' in
          if refused : bool
          then (Thrown (ExError "setItem rejected"), set_outside o2 w)
          else (Returned imageId,
                set_imagesStore
                  (<[imageId
                     := {| img_id := imageId; img_base64Data := d;
                           img_fileName := file_name file;
                           img_tempId :=
                             if truthy requestId
                             then Some (default "" requestId +:+ "_"
                                          +:+ pretty itemId')
                             else None;
                           img_description := None |}]> (imagesStore w))
                  (set_outside o2 w))
    end.
Proof.
  unfold storeImage.
  destruct (readAsDataURL B file) as [d|]; [|done].
  case_bool_decide as Hd; [done|].
  unfold bind, ask, modify, throw, ret.
  destruct (date_now P (outside w)) as [now o1]. simpl.
  by destruct (write_refused P o1) as [[] o2].
Qed.

(** X18 — an image stored for a request is found again.  When the file
    can be read and the store takes the write, [storeImage] resolves to
    the key [img_<now>_<itemId>], under which the store then holds the
    data URL of the file with its name; stored for a request, the image is
    listed by [getStoredImagesByRequest] for the id of the request, and
    for every prefix of it; stored without one, it is listed for none.
    When the file cannot be read or the store refuses the write, the call
    rejects and the store is as before. *)
Theorem storeImage_round_trip file itemId' requestId w :
  match readAsDataURL B file with
  | Some d =>
      if bool_decide (d = "")
      then (storeImage B file itemId' requestId w).1
           = Thrown (ExError "Failed to read file")
           ∧ imagesStore (storeImage B file itemId' requestId w).2
             = imagesStore w
      else
        let '(now, o1) := date_now P (outside w) in
        let imageId := "img_" +:+ pretty now +:+ "_" +:+ pretty itemId' in
        if (write_refused P o1).1
        then (storeImage B file itemId' requestId w).1
             = Thrown (ExError "setItem rejected")
             ∧ imagesStore (storeImage B file itemId' requestId w).2
               = imagesStore w
        else
          ∃ stored,
            (storeImage B file itemId' requestId w).1 = Returned imageId
            ∧ imagesStore (storeImage B file itemId' requestId w).2
              = <[imageId := stored]> (imagesStore w)
            ∧ (getStoredImage imageId
                 (storeImage B file itemId' requestId w).2).1
              = Returned (Some stored)
            ∧ img_base64Data stored = d
            ∧ img_fileName stored = file_name file
            ∧ (∀ rid p l,
                 requestId = Some rid → rid ≠ "" →
                 String.prefix p rid = true →
                 (getStoredImagesByRequest p
                    (storeImage B file itemId' requestId w).2).1
                 = Returned l →
                 stored ∈ l)
            ∧ (truthy requestId = false →
               ∀ p, belongs_to_request p stored = false)
  | None =>
      (storeImage B file itemId' requestId w).1
      = Thrown (ExError "Failed to read file")
      ∧ imagesStore (storeImage B file itemId' requestId w).2 = imagesStore w
  end.
Proof.
  rewrite storeImage_run.
  destruct (readAsDataURL B file) as [d|]; [|done].
  case_bool_decide as Hd; [done|].
  destruct (date_now P (outside w)) as [now o1].
  destruct (write_refused P o1) as [[] o2]; [done|].
  cbn [fst snd]. eexists. split; [done|]. split; [done|].
  split; [unfold getStoredImage, get, getItem; simpl;
          by rewrite lookup_insert_eq|].
  split; [done|]. split; [done|]. split.
  - intros rid p l -> Hrid Hp.
    apply getStoredImagesByRequest_elem.
    eexists. simpl. rewrite lookup_insert_eq. split; [done|].
    unfold belongs_to_request, truthy. simpl.
    rewrite bool_decide_eq_false_2 by done. simpl.
    rewrite bool_decide_eq_false_2 by (by destruct rid).
    simpl. by apply prefix_app.
  - intros Hfalsy p. unfold belongs_to_request. simpl. by rewrite Hfalsy.
Qed.

End Images.

Section ImageUpload.
Context {P : Platform}.
Implicit Types (w : World P).

Lemma without_keys_lookup s entries k :
  without_keys s entries !! k
  = if bool_decide (k ∈ entries.*2) then None else s !! k.
Proof.
  unfold without_keys. revert s.
  induction entries as [|[i key] entries IH]; intros s.
  - case_bool_decide as Hin; [by apply elem_of_nil in Hin|done].
  - cbn [foldl fmap list_fmap snd]. rewrite IH.
    destruct (decide (k = key)) as [->|Hne].
    + rewrite lookup_delete_eq.
      rewrite (bool_decide_eq_true_2 (key ∈ key :: _)) by (by left).
      by case_bool_decide.
    + rewrite lookup_delete_ne by done.
      rewrite (bool_decide_ext (k ∈ entries.*2) (k ∈ key :: entries.*2));
        [done|]. rewrite elem_of_cons. naive_solver.
Qed.

Lemma meta_form_no_file l : Forall (λ e, is_file_entry e = false) (meta_form l).
Proof.
  unfold meta_form. apply Forall_concat, Forall_forall.
  intros part (i & image & -> & _)%elem_of_lookup_imap.
  constructor; [done|].
  destruct (description image) as [d|]; [|constructor].
  case_bool_decide; repeat constructor.
Qed.

(** One turn of the loop of [processImageUpload]: a stored image that is
    found is attached and removed. *)
Lemma attach_stored_image_run fd i key w :
  (∀ img, imagesStore w !! key = Some img →
     is_Some (decode_data_url P (img_base64Data img))
     ∧ is_Some (imageData fd !! i)) →
  ∃ part,
    attach_stored_image fd (i, key) w
    = (Returned part, set_imagesStore (delete key (imagesStore w)) w)
    ∧ (imagesStore w !! key = None → part = []).
Proof.
  intros Hok. unfold attach_stored_image, bind at 1, getStoredImage, get,
    getItem.
  destruct (imagesStore w !! key) as [img|] eqn:Hkey.
  - destruct (Hok img eq_refl) as [[[mime bytes] Hdec] [image Himage]].
    unfold bind at 1, base64ToFile. rewrite Hdec, Himage. simpl.
    unfold bind, removeStoredImage, modify, removeItem. simpl.
    eexists. split; [done|]. done.
  - exists []. split; [|done]. unfold ret. f_equal.
    rewrite (delete_id _ _ Hkey). by destruct w.
Qed.

(** The loop of [processImageUpload] over the stored images. *)
Lemma attach_stored_images fd entries w :
  (∀ i key img, (i, key) ∈ entries → imagesStore w !! key = Some img →
     is_Some (decode_data_url P (img_base64Data img))
     ∧ is_Some (imageData fd !! i)) →
  ∃ parts,
    map_M (attach_stored_image fd) entries w
    = (Returned parts,
       set_imagesStore (without_keys (imagesStore w) entries) w)
    ∧ ((∀ i key, (i, key) ∈ entries → imagesStore w !! key = None) →
       concat parts = []).
Proof.
  revert w. induction entries as [|[i key] entries IH]; intros w Hok.
  - exists []. split; [|done]. by destruct w.
  - cbn [map_M]. unfold bind at 1.
    destruct (attach_stored_image_run fd i key w) as (part & -> & Hpart).
    { intros img. apply Hok. by left. }
    destruct (IH (set_imagesStore (delete key (imagesStore w)) w))
      as (parts & Hrun & Hnone).
    { simpl. intros i' key' img' Hin Hk'.
      apply lookup_delete_Some in Hk' as [_ Hk']. apply (Hok i' key' img');
        [by right|done]. }
    unfold bind at 1. rewrite Hrun. exists (part :: parts). split; [done|].
    intros Hall. simpl. rewrite Hpart by (apply (Hall i); by left).
    apply Hnone. simpl. intros i' key' Hin.
    rewrite lookup_delete_None. right. apply (Hall i'). by right.
Qed.

End ImageUpload.

Section ImageUploadRun.
Context {P : Platform}.
Implicit Types (w : World P).

(** What [processImageUpload] does with a request that has file data,
    by the answer of [fetch]. *)
Lemma processImageUpload_run r fd w :
  fileData r = Some fd →
  (∀ i key img, filePaths fd !! i = Some key →
     imagesStore w !! key = Some img →
     is_Some (decode_data_url P (img_base64Data img))
     ∧ is_Some (imageData fd !! i)) →
  ∃ file_part,
    let rq := image_upload_request P r fd file_part in
    let w1 :=
      set_history (history w ++ [EvFetch rq])
        (set_imagesStore
           (without_keys (imagesStore w) (imap pair (filePaths fd))) w) in
    processImageUpload r w
    = (let '(response, o) := fetch P rq (outside w) in
       (match response with
        | None => Thrown (ExError "fetch rejected")
        | Some response =>
            if negb (http_ok (f_status response))
            then Thrown (ExError ("HTTP error! status: "
                                    +:+ pretty (f_status response)))
            else match f_json response with
                 | Some _ => Returned tt
                 | None => Thrown (ExError "json rejected")
                 end
        end, set_outside o w1))
    ∧ ((∀ key, key ∈ filePaths fd → imagesStore w !! key = None) →
       file_part = []).
Proof.
  intros Hfd Hok.
  destruct (attach_stored_images fd (imap pair (filePaths fd)) w)
    as (parts & Hrun & Hnone).
  { intros i key img Hin%elem_of_imap_pair. by apply Hok. }
  exists (concat parts). split.
  - unfold processImageUpload. rewrite Hfd. unfold bind at 1. rewrite Hrun.
    unfold bind, emit, modify, ask. simpl.
    destruct (fetch P _ (outside w)) as [[response|] o]; [|done].
    destruct (negb (http_ok (f_status response))); [done|].
    by destruct (f_json response).
  - intros Hall. apply Hnone. intros i key Hin%elem_of_imap_pair.
    apply Hall. by eapply list_elem_of_lookup_2.
Qed.

(** X19 — an image upload uses up its stored images.  The replay of an
    image request sends one upload, with the [Authorization] header of the
    stored request.  Whatever the answer, the stored images named by the
    request are gone from the store afterwards and the others are as
    before.  The replay resolves exactly when the endpoint answers with a
    status in 200–299 and a body that parses. *)
Theorem processImageUpload_consumes_images r fd w :
  fileData r = Some fd →
  (∀ i key img, filePaths fd !! i = Some key →
     imagesStore w !! key = Some img →
     is_Some (decode_data_url P (img_base64Data img))
     ∧ is_Some (imageData fd !! i)) →
  (∀ key, imagesStore (processImageUpload r w).2 !! key
          = if bool_decide (key ∈ filePaths fd) then None
            else imagesStore w !! key)
  ∧ ∃ file_part,
      fetch_calls (trace w (processImageUpload r w).2)
      = [image_upload_request P r fd file_part]
      ∧ f_authorization (image_upload_request P r fd file_part)
        = or_else (headers r !! "Authorization") ""
      ∧ ((processImageUpload r w).1 = Returned tt
         ↔ fetch_parsed (image_upload_request P r fd file_part) (outside w)
           = true).
Proof.
  intros Hfd Hok.
  destruct (processImageUpload_run r fd w Hfd Hok) as (file_part & -> & _).
  cbn zeta.
  destruct (fetch P (image_upload_request P r fd file_part) (outside w))
    as [response o] eqn:Hfetch. cbn [fst snd].
  split.
  - intros key. simpl. rewrite without_keys_lookup. by rewrite imap_pair_snd.
  - exists file_part. split; [|split; [done|]].
    + by rewrite (trace_app w _ [EvFetch (image_upload_request P r fd
                                            file_part)]).
    + unfold fetch_parsed. rewrite Hfetch.
      destruct response as [response|]; simpl; [|by split].
      destruct (http_ok (f_status response)); simpl; [|by split].
      by destruct (f_json response).
Qed.

(** X20 — a second replay of an image request has no file to send.  After
    one replay of an image request, whatever its outcome, a further replay
    of the same request sends an upload whose form holds the report id and
    the metadata of the images, and no file. *)
Theorem image_upload_retry_sends_no_file r fd w :
  fileData r = Some fd →
  (∀ i key img, filePaths fd !! i = Some key →
     imagesStore w !! key = Some img →
     is_Some (decode_data_url P (img_base64Data img))
     ∧ is_Some (imageData fd !! i)) →
  ∃ rq,
    fetch_calls (trace (processImageUpload r w).2
                   (processImageUpload r (processImageUpload r w).2).2)
    = [rq]
    ∧ f_body rq = ("reportId", FormText (pretty (fd_reportId fd)))
                  :: meta_form (imageData fd)
    ∧ Forall (λ e, is_file_entry e = false) (f_body rq).
Proof.
  intros Hfd Hok.
  destruct (processImageUpload_run r fd w Hfd Hok) as (file_part & Hrun & _).
  set (w' := (processImageUpload r w).2).
  assert (∀ key, key ∈ filePaths fd → imagesStore w' !! key = None) as Hgone.
  { intros key Hkey. unfold w'. rewrite Hrun. cbn zeta.
    destruct (fetch P _ (outside w)) as [response o]. simpl.
    rewrite without_keys_lookup, imap_pair_snd.
    by rewrite bool_decide_eq_true_2. }
  destruct (processImageUpload_run r fd w' Hfd)
    as (file_part' & Hrun' & Hnone).
  { intros i key img Hi Hk.
    rewrite Hgone in Hk by (by eapply list_elem_of_lookup_2). done. }
  rewrite (Hnone Hgone) in Hrun'. rewrite Hrun'. cbn zeta.
  destruct (fetch P _ (outside w')) as [response o]. cbn [fst snd].
  eexists. split.
  { by rewrite (trace_app w' _ [EvFetch (image_upload_request P r fd [])]). }
  split; [done|].
  constructor; [done|]. apply meta_form_no_file.
Qed.

End ImageUploadRun.

(** ** The status indicator *)

(** X21 — the status indicator shows one icon.  The indicator is hidden
    exactly when the device is online, no drain is under way and nothing is
    pending.  When it is shown it holds exactly one icon: the spinner while
    a drain is under way, else the offline icon when the device is offline,
    else the pending icon; the tooltip is never empty, and joins two texts
    exactly when a drain is under way while the device is offline. *)
Theorem indicator_shows_one_icon isOnline' isSyncing' pendingRequests :
  (NetworkStatusIndicator isOnline' isSyncing' pendingRequests = None
   ↔ isOnline' = true ∧ isSyncing' = false ∧ pendingRequests ≤ 0)
  ∧ match NetworkStatusIndicator isOnline' isSyncing' pendingRequests with
    | Some view =>
        icons view
        = [if isSyncing' then RefreshCw
           else if isOnline' then Wifi else WifiOff]
        ∧ tooltip view ≠ ""
        ∧ (tooltip view = "OfflineSyncing..."
           ↔ isOnline' = false ∧ isSyncing' = true)
    | None => True
    end.
Proof.
  unfold NetworkStatusIndicator.
  destruct isOnline', isSyncing'; simpl;
    try case_bool_decide; simpl; repeat split; try done; try lia;
    intros; destruct_and?; done || lia.
Qed.

(** ** The cap of a drain *)

Section Cap.
Context {P : Platform}.
Implicit Types (w : World P) (v : LoopVars).

(** X22 — the cap takes the oldest.  Take an outbox of more than 50 API
    requests, none of which has used up its retries and each of which the
    gateway accepts.  A drain that passes its guard replays exactly 50 of
    them, each with success; every request it leaves in the store is
    stored as it was, and was queued no earlier than any request it has
    replayed. *)
Theorem capped_drain_takes_the_oldest w :
  queue_wf (queueStore w) →
  syncInProgress w = false →
  (50 < size (queueStore w))%nat →
  (∀ k r, queueStore w !! k = Some r → type r = TypeApi ∧ retries r < 3) →
  (∀ k r (w' : World P), queueStore w !! k = Some r →
                         replay_succeeds r w' = true) →
  length (synced (trace w (drain w).2)) = 50%nat
  ∧ synced (trace w (drain w).2) = req_id <$> attempts (trace w (drain w).2)
  ∧ size (queueStore (drain w).2) = (size (queueStore w) - 50)%nat
  ∧ ∀ k x, queueStore (drain w).2 !! k = Some x →
           queueStore w !! k = Some x
           ∧ (k ∉ synced (trace w (drain w).2))
           ∧ ∀ a, a ∈ attempts (trace w (drain w).2) → ts_le a x.
Proof.
  intros Hwf Hfree Hsize Hall Hup.
  destruct (drain_unfold w Hfree) as (v' & w1 & w2 & Hloop & Hn & Hdrain).
  assert (healthy_inv (queueStore w) (history w) (initial_vars w)
            (set_syncInProgress true w)
          ∧ count_inv (history w) (initial_vars w)
              (set_syncInProgress true w)) as Hinit.
  { split.
    - exists []. simpl. rewrite app_nil_r. split; [done|]. split; [done|].
      split; [by apply initial_facts|]. split; [constructor|done].
    - exists []. simpl. rewrite app_nil_r. repeat split; lia. }
  destruct (sync_loop_invariant_run
              (λ v w1, healthy_inv (queueStore w) (history w) v w1
                       ∧ count_inv (history w) v w1) _ _ _ _ _
              (λ v0 w0 v1 w1' HI Hc Hr,
                 conj (healthy_inv_step _ _ v0 w0 v1 w1'
                         (λ k r Hk, proj1 (Hall k r Hk)) Hup (proj1 HI) Hc Hr)
                      (count_inv_step _ v0 w0 v1 w1' (proj2 HI) Hc
                         ltac:(destruct (loop_body_step v0 w0
                                           (loop_cond_nonempty v0 Hc))
                                 as (? & ? & Hr' & Hs);
                               rewrite Hr in Hr'; by injection Hr' as <- <-)))
              Hinit Hloop)
    as [[(evs & Hh & Hcb & Hfacts & Hnd & Heq) (evs' & Hh' & _ & _ & Hle)] Hend].
  destruct (notifySyncComplete_spec w1) as (w2' & Hn' & Hoh & Hh2).
  rewrite Hn in Hn'. injection Hn' as <-.
  destruct Hoh as (_ & _ & _ & Hq2 & _).
  rewrite Hdrain. simpl.
  assert (history w2 = history w ++ evs ++ (EvCallback <$> syncCallbacks w1))
    as Hhist by (by rewrite Hh2, Hh, <-app_assoc).
  rewrite (trace_app w (set_syncInProgress false w2) _ Hhist).
  rewrite attempts_app, synced_app, attempts_callbacks, synced_callbacks.
  rewrite !app_nil_r, Hq2.
  pose proof (inv_count _ _ _ _ Hfacts) as Hcount.
  (* what is synced is a duplicate-free part of the keys *)
  assert (synced evs ⊆+ (map_to_list (queueStore w)).*1) as Hsub.
  { apply NoDup_submseteq; [done|]. intros k' Hk'.
    pose proof (inv_synced _ _ _ _ Hfacts k' Hk') as Hin.
    destruct (inv_processed _ _ _ _ Hfacts k' Hin) as (x0 & Hx0 & _).
    apply list_elem_of_fmap. exists (k', x0). split; [done|].
    by apply elem_of_map_to_list. }
  (* a handled request is a synced one *)
  assert (∀ k, k ∈ processedIds v' → k ∈ synced evs
                                     ∧ queueStore w1 !! k = None) as Hproc.
  { intros k Hin.
    destruct (inv_processed _ _ _ _ Hfacts k Hin) as (x0 & Hx0 & Hhd).
    destruct (Hall k x0 Hx0) as [_ Hlt].
    assert (req_id x0 = k) as Hid by (by apply (Hwf k x0)).
    destruct Hhd as [[? _]|[(_ & _ & Hs & ?)|(_ & Ha & Hns & _)]]; [lia| |].
    - by rewrite Hid in Hs.
    - destruct Hns. rewrite Heq. apply list_elem_of_fmap. eauto. }
  (* the loop has stopped at its cap *)
  assert (length (synced evs) = 50%nat) as Hfifty.
  { unfold loop_cond in Hend. apply andb_false_iff in Hend as [Hend|Hend];
      apply bool_decide_eq_false in Hend; [|lia].
    exfalso.
    assert ((map_to_list (queueStore w)).*1 ⊆ synced evs) as Hkeys.
    { intros k ((k' & x) & -> & Hk%elem_of_map_to_list)%list_elem_of_fmap.
      simpl. destruct (decide (k' ∈ processedIds v')) as [Hin|Hnin];
        [by apply Hproc|].
      pose proof (inv_untouched _ _ _ _ Hfacts k' Hnin) as Hsame.
      rewrite Hk in Hsame.
      pose proof (inv_complete _ _ _ _ Hfacts k' x Hsame Hnin) as Hx.
      destruct (requests v'); [by apply elem_of_nil in Hx|].
      simpl in Hend. lia. }
    assert (length (map_to_list (queueStore w)).*1 ≤ length (synced evs))%nat.
    { apply submseteq_length, NoDup_submseteq; [|done].
      apply NoDup_fst_map_to_list. }
    rewrite length_fmap, length_map_to_list in *. lia. }
  split; [done|]. split; [done|].
  (* what is left is what was not handled *)
  assert (∀ k, queueStore w1 !! k
               = if bool_decide (k ∈ synced evs) then None
                 else queueStore w !! k) as Hleft.
  { intros k. case_bool_decide as Hk.
    - by apply Hproc, (inv_synced _ _ _ _ Hfacts).
    - apply (inv_untouched _ _ _ _ Hfacts). intros Hin.
      by destruct Hk, (Hproc k Hin). }
  split.
  - assert (queueStore w1
            = filter (λ kx, kx.1 ∉ synced evs) (queueStore w)) as ->.
    { apply map_eq. intros k. rewrite Hleft.
      destruct (queueStore w !! k) as [x|] eqn:Hk.
      - case_bool_decide as Hs.
        + symmetry. apply map_lookup_filter_None. right.
          intros x' _ Hn'. by destruct Hn'.
        + symmetry. by apply map_lookup_filter_Some.
      - case_bool_decide; symmetry; apply map_lookup_filter_None; by left. }
    assert (size (filter (λ kx, kx.1 ∈ synced evs) (queueStore w))
            = length (synced evs)) as Hin.
    { rewrite <-(length_map_to_list (filter _ (queueStore w))).
      rewrite <-(length_fmap fst). apply Permutation_length.
      apply NoDup_Permutation; [apply NoDup_fst_map_to_list|done|].
      intros k. rewrite list_elem_of_fmap. split.
      - intros ((k' & x) & -> & Hk%elem_of_map_to_list).
        by apply map_lookup_filter_Some in Hk as [_ ?].
      - intros Hk.
        pose proof (inv_synced _ _ _ _ Hfacts k Hk) as Hp.
        destruct (inv_processed _ _ _ _ Hfacts k Hp) as (x0 & Hx0 & _).
        exists (k, x0). split; [done|].
        apply elem_of_map_to_list. by apply map_lookup_filter_Some. }
    pose proof (map_size_disj_union
                  (filter (λ kx, kx.1 ∈ synced evs) (queueStore w))
                  (filter (λ kx, kx.1 ∉ synced evs) (queueStore w))
                  (map_disjoint_filter_complement _ _)) as Hsum.
    rewrite map_filter_union_complement in Hsum. lia.
  - intros k x Hk. rewrite Hleft in Hk.
    case_bool_decide as Hs; [done|]. split; [done|]. split; [done|].
    intros a Ha.
    assert (k ∉ processedIds v') as Hnin
      by (intros Hin; by destruct Hs, (Hproc k Hin)).
    assert (queueStore w1 !! k = Some x) as Hk1
      by (by rewrite (inv_untouched _ _ _ _ Hfacts k Hnin)).
    assert (req_id x = k) as Hid by (by apply (Hwf k x)).
    apply (inv_attempts_before _ _ _ _ Hfacts a x Ha);
      [by apply (inv_complete _ _ _ _ Hfacts k)|by rewrite Hid].
Qed.

End Cap.

(** ** Fresh reference data *)

Section ReferenceDataRefresh.
Context {P : Platform}.
Variable B : Browser.
Implicit Types (w : World P).

(** X23 — fresh reference data replace the cache.  When the gateway
    answers [getReferenceData] with a status in 200–299: a [null] body is
    passed on and the cache is left alone; any other body is passed on and
    written to the cache, whatever the cache held; and if [localStorage]
    refuses that write, the fresh body is dropped and the call falls back
    on the old cache, or rejects when there is none. *)
Theorem reference_data_refresh token cached w resp o1 :
  capacitor_request P (reference_data_request token) (outside w)
  = (Some resp, o1) →
  http_ok (status resp) = true →
  match data resp with
  | None =>
      (getReferenceData B token cached w).1
      = Returned (Direct None, cached)
  | Some d =>
      if localStorage_refuses B "cached_reference_data"
           (JSON_stringify B (Direct (Some d)))
      then
        if truthy cached
        then match JSON_parse B (default "" cached) with
             | Some parsed =>
                 (getReferenceData B token cached w).1
                 = Returned (parsed, cached)
             | None =>
                 (getReferenceData B token cached w).1
                 = Thrown (ExError "SyntaxError")
             end
        else (getReferenceData B token cached w).1
             = Thrown (ExError "QuotaExceededError")
      else
        (getReferenceData B token cached w).1
        = Returned (Direct (Some d),
                    Some (JSON_stringify B (Direct (Some d))))
  end.
Proof.
  intros Hcap Hok.
  destruct (directRequest_ok "/price-reports/reference-data"
              (options_of None (Some (bearer token)) None None false)
              w resp o1 Hcap Hok) as (w1 & Hdirect & _).
  assert (getReferenceData B token cached w
          = try_catch
              (if result_truthy (Direct (data resp))
               then
                 if localStorage_refuses B "cached_reference_data"
                      (JSON_stringify B (Direct (data resp)))
                 then throw (ExError "QuotaExceededError")
                 else ret (Direct (data resp),
                           Some (JSON_stringify B (Direct (data resp))))
               else ret (Direct (data resp), cached))
              (λ error,
                 if truthy cached
                 then match JSON_parse B (default "" cached) with
                      | Some parsed => ret (parsed, cached)
                      | None => throw (ExError "SyntaxError")
                      end
                 else throw error) w1) as ->.
  { unfold getReferenceData, try_catch, bind at 1.
    rewrite request_direct by done. unfold bind at 1. rewrite Hdirect.
    done. }
  unfold try_catch.
  destruct (data resp) as [d|]; simpl; [|done].
  destruct (localStorage_refuses B _ _); simpl; [|done].
  destruct (truthy cached); [|done].
  by destruct (JSON_parse B (default "" cached)).
Qed.

End ReferenceDataRefresh.

(** ** The ids of queued requests *)

Lemma pretty_N_go_no_underscore (x : N) (s : string) :
  no_underscore s = true → no_underscore (pretty_N_go x s) = true.
Proof.
  revert s. induction (N.lt_wf_0 x) as [x _ IH]; intros s Hs.
  assert (x = 0 ∨ 0 < x)%N as [->|Hpos] by lia.
  - by rewrite pretty_N_go_0.
  - rewrite pretty_N_go_step by done. apply IH; [by apply N.div_lt|].
    simpl. rewrite Hs, andb_true_r.
    unfold pretty_N_char. by repeat case_match.
Qed.

Lemma pretty_Z_no_underscore (z : Z) : no_underscore (pretty z) = true.
Proof.
  assert (∀ p : positive, no_underscore (pretty p) = true) as Hpos.
  { intros p. unfold pretty, pretty_positive, pretty, pretty_N.
    case_decide; [done|]. by apply pretty_N_go_no_underscore. }
  destruct z as [|p|p]; [done|apply Hpos|].
  unfold pretty, pretty_Z. simpl. apply Hpos.
Qed.

Lemma split_at_underscore (a b s t : string) :
  no_underscore a = true → no_underscore b = true →
  a +:+ "_" +:+ s = b +:+ "_" +:+ t → a = b ∧ s = t.
Proof.
  revert b. induction a as [|c a IH]; intros [|c' b] Ha Hb Heq;
    unfold String.append in Heq; simpl in Heq; fold String.append in Heq;
    simpl in Ha, Hb.
  - by injection Heq as ->.
  - injection Heq as <- _. done.
  - injection Heq as -> _. done.
  - apply andb_prop in Ha as [_ Ha]. apply andb_prop in Hb as [_ Hb].
    injection Heq as -> Heq. by destruct (IH b Ha Hb Heq) as [-> ->].
Qed.

Section Ids.
Context {P : Platform}.
Implicit Types (w : World P).

(** The id a queued acknowledgement carries: the clock reading and the
    random suffix [generateId] has read. *)
Lemma request_queued_id endpoint' options w ack w1 :
  request endpoint' options w = (Returned (Queued ack), w1) →
  ack_requestId ack
  = "req_" +:+ pretty (date_now P (outside w)).1
      +:+ "_" +:+ (math_random P (date_now P (outside w)).2).1.
Proof.
  unfold request. unfold bind at 1, get.
  destruct (default false (opt_offlineable options) && negb (isOnline w)).
  2:{ unfold bind.
      destruct (directRequest endpoint' options w) as [[d|e|] w'];
        by intros [=]. }
  unfold handleOfflineRequest, queueRequest, generateId.
  unfold bind, try_catch, ask, ret, throw, modify. cbn beta.
  destruct (date_now P (outside w)) as [t1 o1]. cbn.
  destruct (math_random P o1) as [suffix o2]. cbn.
  destruct (date_now P o2) as [t2 o3]. cbn.
  destruct (write_refused P o3) as [[] o4]; cbn; [by intros [=]|].
  destruct (date_now P o4) as [t3 o5]. cbn. by intros [= <- <-].
Qed.

(** X24 — generated ids tell their requests apart.  The id of a queued
    request is [req_<clock reading>_<random suffix>]; two such ids are
    equal only if both the clock readings and the suffixes are.  So of two
    submissions queued one after the other at different clock readings,
    the second does not overwrite the first: the queue then holds both
    records, each under its own acknowledged id. *)
Theorem queued_ids_do_not_collide endpoint1 options1 endpoint2 options2
    w ack1 w1 ack2 w2 :
  request endpoint1 options1 w = (Returned (Queued ack1), w1) →
  request endpoint2 options2 w1 = (Returned (Queued ack2), w2) →
  (date_now P (outside w)).1 ≠ (date_now P (outside w1)).1 →
  ack_requestId ack1 ≠ ack_requestId ack2
  ∧ ∃ r1 r2,
      queueStore w2 !! ack_requestId ack1 = Some r1
      ∧ queueStore w2 !! ack_requestId ack2 = Some r2
      ∧ req_id r1 = ack_requestId ack1 ∧ endpoint r1 = endpoint1
      ∧ req_id r2 = ack_requestId ack2 ∧ endpoint r2 = endpoint2
      ∧ queueStore w2
        = <[ack_requestId ack2 := r2]>
            (<[ack_requestId ack1 := r1]> (queueStore w)).
Proof.
  intros Hrun1 Hrun2 Hclock.
  pose proof (request_queued_id _ _ _ _ _ Hrun1) as Hid1.
  pose proof (request_queued_id _ _ _ _ _ Hrun2) as Hid2.
  assert (ack_requestId ack1 ≠ ack_requestId ack2) as Hne.
  { rewrite Hid1, Hid2. intros [= Heq].
    apply split_at_underscore in Heq as [Heq%(inj pretty) _];
      auto using pretty_Z_no_underscore. }
  split; [done|].
  destruct (request_queued _ _ _ _ _ Hrun1) as (_ & _ & now1 & o1 & ->).
  destruct (request_queued _ _ _ _ _ Hrun2) as (_ & _ & now2 & o2 & ->).
  eexists _, _. simpl.
  rewrite lookup_insert_ne by done. rewrite !lookup_insert_eq. done.
Qed.

End Ids.

(** ** What a drain does to the stores *)

(** A drain writes the stores in four ways only: it removes a request, an
    image or a group of images, and it sets the retry count of a request
    in place.  A property of the stores that these four steps keep is kept
    by a drain. *)
Section StoresInvariant.
Context {P : Platform}.
Implicit Types (w : World P).

Variable I : gmap string OfflineRequest → gmap string StoredImage →
             gmap string OfflineReportImages → Prop.

Hypothesis I_removeRequest : ∀ q i g k, I q i g → I (delete k q) i g.
Hypothesis I_updateRequestRetry : ∀ q i g k r n,
  I q i g → q !! k = Some r → I (<[k := set_retries n r]> q) i g.
Hypothesis I_removeStoredImage : ∀ q i g k, I q i g → I q (delete k i) g.
Hypothesis I_removeStoredReportImages :
  ∀ q i g k, I q i g → I q i (delete k g).

Lemma keeps_ret {A} (a : A) : keeps (P:=P) I (ret a).
Proof. by intros w. Qed.

Lemma keeps_throw {A} e : keeps (P:=P) (A:=A) I (throw e).
Proof. by intros w. Qed.

Lemma keeps_get {A} (f : World P → A) : keeps (P:=P) I (get f).
Proof. by intros w. Qed.

Lemma keeps_ask {A} (f : Outside P → A * Outside P) : keeps (P:=P) I (ask f).
Proof. intros w. unfold ask. by destruct (f (outside w)). Qed.

Lemma keeps_emit e : keeps (P:=P) I (emit e).
Proof. by intros w. Qed.

Lemma keeps_bind {A B} (m : M P A) (k : A → M P B) :
  keeps (P:=P) I m → (∀ a, keeps (P:=P) I (k a)) → keeps (P:=P) I (bind m k).
Proof.
  intros Hm Hk w Hw. unfold bind. specialize (Hm w Hw).
  destruct (m w) as [[a|e|] w1]; simpl in *; [|done..]. by apply Hk.
Qed.

Lemma keeps_try_catch {A} (m : M P A) (h : Exn → M P A) :
  keeps (P:=P) I m → (∀ e, keeps (P:=P) I (h e)) → keeps (P:=P) I (try_catch m h).
Proof.
  intros Hm Hh w Hw. unfold try_catch. specialize (Hm w Hw).
  destruct (m w) as [[a|e|] w1]; simpl in *; [done| |done]. by apply Hh.
Qed.

Lemma keeps_try_finally {A} (m : M P A) (fin : World P → World P) :
  keeps (P:=P) I m → keeps (P:=P) I (modify fin) → keeps (P:=P) I (try_finally m fin).
Proof.
  intros Hm Hfin w Hw. unfold try_finally. specialize (Hm w Hw).
  destruct (m w) as [[a|e|] w1]; simpl in *; [| |done]; by apply (Hfin w1).
Qed.

Lemma keeps_map_M {A B} (f : A → M P B) l :
  (∀ a, keeps (P:=P) I (f a)) → keeps (P:=P) I (map_M f l).
Proof.
  intros Hf. induction l as [|x l IH]; simpl; [apply keeps_ret|].
  apply keeps_bind; [done|]. intros y.
  apply keeps_bind; [done|]. intros ys. apply keeps_ret.
Qed.

Lemma keeps_for_each {A} (f : A → M P unit) l :
  (∀ a, keeps (P:=P) I (f a)) → keeps (P:=P) I (for_each f l).
Proof.
  intros Hf. induction l as [|x l IH]; simpl; [apply keeps_ret|].
  apply keeps_bind; [done|]. by intros _.
Qed.

Lemma keeps_modify (f : World P → World P) :
  (∀ w, I (queueStore w) (imagesStore w) (reportImagesStore w) →
        I (queueStore (f w)) (imagesStore (f w)) (reportImagesStore (f w))) →
  keeps (P:=P) I (modify f).
Proof. intros Hf w. by apply Hf. Qed.

Lemma keeps_removeRequest k : keeps (P:=P) I (removeRequest k).
Proof. intros w Hw. by apply I_removeRequest. Qed.

Lemma keeps_updateRequestRetry k n : keeps (P:=P) I (updateRequestRetry k n).
Proof.
  intros w Hw. unfold updateRequestRetry, bind, get, getItem.
  destruct (queueStore w !! k) as [r|] eqn:Hk; simpl; [|done].
  by apply I_updateRequestRetry.
Qed.

Lemma keeps_removeStoredImage k : keeps (P:=P) I (removeStoredImage k).
Proof. intros w Hw. by apply I_removeStoredImage. Qed.

Lemma keeps_removeStoredReportImages k :
  keeps (P:=P) I (removeStoredReportImages k).
Proof. intros w Hw. by apply I_removeStoredReportImages. Qed.

Ltac keeps_step :=
  first
    [ apply keeps_ret | apply keeps_throw | apply keeps_get
    | apply keeps_ask | apply keeps_emit
    | apply keeps_removeRequest | apply keeps_updateRequestRetry
    | apply keeps_removeStoredImage
    | apply keeps_removeStoredReportImages
    | apply keeps_bind; [|intros ?]
    | apply keeps_try_catch; [|intros ?] ].

Lemma keeps_directRequest e o : keeps (P:=P) I (directRequest e o).
Proof.
  unfold directRequest. apply keeps_try_catch.
  - apply keeps_bind; [apply keeps_emit|intros _].
    apply keeps_bind; [apply keeps_ask|intros [response|]];
      [|keeps_step].
    destruct (_ || _); keeps_step.
  - intros []; keeps_step.
Qed.

Lemma keeps_uploadImages token uploadData :
  keeps (P:=P) I (uploadImages token uploadData).
Proof.
  unfold uploadImages. destruct (upload_form uploadData); [|keeps_step].
  apply keeps_try_catch; [|intros []; keeps_step].
  apply keeps_bind; [apply keeps_emit|intros _].
  apply keeps_bind; [apply keeps_ask|intros [response|]];
    [|keeps_step].
  destruct (negb _); [keeps_step|].
  destruct (f_json response); keeps_step.
Qed.

Lemma keeps_base64ToFile d n : keeps (P:=P) I (base64ToFile d n).
Proof.
  unfold base64ToFile. destruct (decode_data_url P d) as [[? ?]|];
    keeps_step.
Qed.

Lemma keeps_processApiRequest r : keeps (P:=P) I (processApiRequest r).
Proof.
  unfold processApiRequest.
  apply keeps_bind; [apply keeps_directRequest|intros response].
  destruct (_ && _); [|keeps_step].
  destruct response as [fullReport|]; [|keeps_step].
  apply keeps_bind; [keeps_step|intros token].
  destruct (truthy token); [|keeps_step].
  apply keeps_try_catch; [|intros _; keeps_step].
  unfold findAndUploadReportImages, findStoredImagesByTempIds.
  destruct (items fullReport) as [its|]; [|keeps_step].
  destruct (bool_decide _); [keeps_step|].
  destruct (bool_decide _); [keeps_step|].
  apply keeps_bind; [keeps_step|intros [g|]]; [|keeps_step].
  unfold uploadImagesForSyncedReport.
  destruct (bool_decide _); [keeps_step|].
  apply keeps_bind.
  { apply keeps_map_M. intros im. unfold reconcile_image.
    destruct (items fullReport); [|keeps_step].
    destruct (db_item _ _).
    - apply keeps_bind; [apply keeps_base64ToFile|intros ?].
      keeps_step.
    - apply keeps_bind; [keeps_step|intros _; keeps_step]. }
  intros results. destruct (_ && _).
  - apply keeps_bind; [keeps_step|intros token'].
    destruct (negb _); [keeps_step|].
    apply keeps_bind; [apply keeps_uploadImages|intros [|msg]];
      keeps_step.
  - apply keeps_bind; [keeps_step|intros _; keeps_step].
Qed.

Lemma keeps_processImageUpload r : keeps (P:=P) I (processImageUpload r).
Proof.
  unfold processImageUpload. destruct (fileData r) as [fd|]; [|keeps_step].
  apply keeps_bind.
  { apply keeps_map_M. intros [i key]. unfold attach_stored_image.
    apply keeps_bind; [unfold getStoredImage; keeps_step|].
    intros [storedImage|]; [|keeps_step].
    apply keeps_bind; [apply keeps_base64ToFile|intros file].
    destruct (imageData fd !! i); [|keeps_step].
    apply keeps_bind; [keeps_step|intros _; keeps_step]. }
  intros file_part.
  apply keeps_bind; [keeps_step|intros _].
  apply keeps_bind; [keeps_step|intros [response|]]; [|keeps_step].
  destruct (negb _); [keeps_step|].
  destruct (f_json response); keeps_step.
Qed.

Lemma keeps_loop_body v : keeps (P:=P) I (loop_body v).
Proof.
  unfold loop_body, getPendingRequests.
  destruct (requests v) as [|r rest]; [keeps_step|].
  destruct (bool_decide _); [keeps_step|].
  destruct (bool_decide _).
  { apply keeps_bind; [keeps_step|intros _].
    apply keeps_bind; [keeps_step|intros ?]. keeps_step. }
  apply keeps_try_catch.
  - apply keeps_bind; [keeps_step|intros [current|]]; [|keeps_step].
    apply keeps_bind; [keeps_step|intros _].
    apply keeps_bind.
    { destruct (type r);
        [apply keeps_processApiRequest|apply keeps_processImageUpload]. }
    intros _. apply keeps_bind; [keeps_step|intros _].
    apply keeps_bind; [keeps_step|intros _].
    apply keeps_bind; [keeps_step|intros ?]. keeps_step.
  - intros _. apply keeps_bind; [keeps_step|intros _].
    apply keeps_bind; [keeps_step|intros _]. keeps_step.
Qed.

Lemma keeps_sync_loop fuel v : keeps (P:=P) I (sync_loop fuel v).
Proof.
  revert v. induction fuel as [|fuel IH]; intros v; simpl;
    destruct (loop_cond v); try keeps_step.
  - by intros w.
  - apply keeps_loop_body.
  - apply IH.
Qed.

Lemma keeps_syncPendingRequests fuel : keeps (P:=P) I (syncPendingRequests fuel).
Proof.
  unfold syncPendingRequests, getPendingRequests, notifySyncComplete.
  apply keeps_bind; [keeps_step|intros [|]]; [keeps_step|].
  apply keeps_bind; [by apply keeps_modify|intros _].
  apply keeps_try_finally; [|by apply keeps_modify].
  apply keeps_bind; [keeps_step|intros requests'].
  apply keeps_bind; [apply keeps_sync_loop|intros _].
  apply keeps_bind; [keeps_step|intros cbs].
  apply keeps_for_each. intros c. keeps_step.
Qed.

End StoresInvariant.

Section StoresAfter.
Context {P : Platform}.
Variable B : Browser.
Implicit Types (w : World P).

(** X25 — a drain only uses up what is stored.  Whatever the gateway and
    the upload endpoint answer, and whatever fuel it is given, a drain
    adds no request to the queue, no image and no group of images to the
    stores, and changes none of the stored images and groups: the groups
    and the images stored afterwards are among those stored before, and so
    are the ids of the queued requests. *)
Theorem drain_only_consumes fuel w :
  reportImagesStore (syncPendingRequests fuel w).2 ⊆ reportImagesStore w
  ∧ imagesStore (syncPendingRequests fuel w).2 ⊆ imagesStore w
  ∧ dom (queueStore (syncPendingRequests fuel w).2) ⊆ dom (queueStore w).
Proof.
  apply (keeps_syncPendingRequests
           (λ q i g, g ⊆ reportImagesStore w ∧ i ⊆ imagesStore w
                     ∧ dom q ⊆ dom (queueStore w))); [..|done].
  - intros q i g k (? & ? & ?). rewrite dom_delete. set_solver.
  - intros q i g k r n (? & ? & ?) Hk%elem_of_dom_2.
    rewrite dom_insert. set_solver.
  - intros q i g k (? & ? & ?). split; [done|]. split; [|done].
    etrans; [apply delete_subseteq|done].
  - intros q i g k (? & ? & ?). split; [|done].
    etrans; [apply delete_subseteq|done].
Qed.

Lemma stores_wf_request endpoint' options :
  keeps (P:=P) (λ q i g, queue_wf q ∧ map_Forall (λ k i, img_id i = k) i
                         ∧ groups_wf g)
    (request endpoint' options).
Proof.
  unfold request, handleOfflineRequest, queueRequest, generateId.
  apply keeps_bind; [apply keeps_get|intros online].
  destruct (_ && _).
  - apply keeps_bind; [|intros ?; apply keeps_ret].
    apply keeps_try_catch; [|intros ?; apply keeps_throw].
    apply keeps_bind; [|intros ?].
    + apply keeps_bind; [|intros id].
      { apply keeps_bind; [apply keeps_ask|intros ?].
        apply keeps_bind; [apply keeps_ask|intros ?]. apply keeps_ret. }
      apply keeps_bind; [apply keeps_ask|intros now].
      apply keeps_bind; [apply keeps_ask|intros [|]].
      * apply keeps_bind; [apply keeps_throw|intros ?; apply keeps_ret].
      * apply keeps_bind; [|intros ?; apply keeps_ret].
        apply keeps_modify. intros w (Hq & Hi & Hg). simpl.
        split; [|done]. by apply map_Forall_insert_2.
    + apply keeps_bind; [apply keeps_ask|intros ?]. apply keeps_ret.
  - apply keeps_bind; [|intros ?; apply keeps_ret].
    unfold directRequest. apply keeps_try_catch.
    + apply keeps_bind; [apply keeps_emit|intros _].
      apply keeps_bind; [apply keeps_ask|intros [response|]];
        [|apply keeps_throw].
      destruct (_ || _); [apply keeps_throw|apply keeps_ret].
    + intros []; apply keeps_throw.
Qed.

Lemma stores_wf_storeOfflineReportImages images' :
  keeps (P:=P) (λ q i g, queue_wf q ∧ map_Forall (λ k i, img_id i = k) i
                         ∧ groups_wf g)
    (storeOfflineReportImages B images').
Proof.
  unfold storeOfflineReportImages.
  apply keeps_bind; [apply keeps_ask|intros now].
  apply keeps_bind; [|intros imagesData].
  { apply keeps_map_M. intros img.
    apply keeps_bind; [|intros ?; apply keeps_ret].
    unfold fileToBase64.
    destruct (readAsDataURL B _); [apply keeps_ret|apply keeps_throw]. }
  apply keeps_bind; [apply keeps_ask|intros timestamp].
  apply keeps_bind; [apply keeps_ask|intros [|]].
  - apply keeps_bind; [apply keeps_throw|intros ?; apply keeps_ret].
  - apply keeps_bind; [|intros ?; apply keeps_ret].
    apply keeps_modify. intros w (Hq & Hi & Hg). simpl.
    split; [done|]. split; [done|]. by apply map_Forall_insert_2.
Qed.

Lemma stores_wf_storeImage file itemId' requestId :
  keeps (P:=P) (λ q i g, queue_wf q ∧ map_Forall (λ k i, img_id i = k) i
                         ∧ groups_wf g)
    (storeImage B file itemId' requestId).
Proof.
  unfold storeImage.
  destruct (readAsDataURL B file) as [imageData'|]; [|apply keeps_throw].
  destruct (bool_decide _); [apply keeps_throw|].
  apply keeps_bind; [apply keeps_ask|intros now].
  apply keeps_bind; [apply keeps_ask|intros [|]].
  - apply keeps_bind; [apply keeps_throw|intros ?; apply keeps_ret].
  - apply keeps_bind; [|intros ?; apply keeps_ret].
    apply keeps_modify. intros w (Hq & Hi & Hg). simpl.
    split; [done|]. split; [|done]. by apply map_Forall_insert_2.
Qed.

Lemma stores_wf_syncPendingRequests fuel :
  keeps (P:=P) (λ q i g, queue_wf q ∧ map_Forall (λ k i, img_id i = k) i
                         ∧ groups_wf g)
    (syncPendingRequests fuel).
Proof.
  apply keeps_syncPendingRequests.
  - intros q i g k (? & ? & ?). split; [|done]. by apply map_Forall_delete.
  - intros q i g k r n (Hq & ? & ?) Hk. split; [|done].
    apply map_Forall_insert_2; [|done]. by apply (Hq k r).
  - intros q i g k (? & ? & ?). split; [done|]. split; [|done].
    by apply map_Forall_delete.
  - intros q i g k (? & ? & ?). split; [done|]. split; [done|].
    by apply map_Forall_delete.
Qed.

(** X26 — records stay under their own ids.  That every queued request,
    every stored image and every stored group of images is stored under
    the key that is its own [id] is kept by each operation that writes a
    store, whatever it returns: a call through [request], the two
    operations that store images, and a drain. *)
Theorem stores_stay_well_formed w :
  stores_wf w →
  (∀ endpoint' options, stores_wf (request endpoint' options w).2)
  ∧ (∀ images', stores_wf (storeOfflineReportImages B images' w).2)
  ∧ (∀ file itemId' requestId,
       stores_wf (storeImage B file itemId' requestId w).2)
  ∧ (∀ fuel, stores_wf (syncPendingRequests fuel w).2).
Proof.
  intros Hw. split; [|split; [|split]]; intros.
  - by apply stores_wf_request.
  - by apply stores_wf_storeOfflineReportImages.
  - by apply stores_wf_storeImage.
  - by apply stores_wf_syncPendingRequests.
Qed.

End StoresAfter.

(** ** Instances of the further properties *)

Lemma drain_handles_every_request_witness :
  queue_wf (queueStore three_queued)
  ∧ queueStore three_queued !! "b" = Some (demo_request "b" "500" 20 0)
  ∧ handled (demo_request "b" "500" 20 0)
      (queueStore (drain three_queued).2 !! "b")
      (trace three_queued (drain three_queued).2).
Proof.
  split; [exact three_queued_wf|]. split; [reflexivity|].
  apply (drain_handles_every_request three_queued "b");
    [exact three_queued_wf|reflexivity| |reflexivity].
  apply Nat.ltb_lt. vm_compute. reflexivity.
Defined.

Lemma replay_at_most_once_witness :
  queue_wf (queueStore three_queued)
  ∧ NoDup (req_id <$> attempts (trace three_queued (drain three_queued).2))
  ∧ synced (trace three_queued (drain three_queued).2) = ["c"]
  ∧ queueStore (drain three_queued).2 !! "c" = None.
Proof.
  split; [exact three_queued_wf|].
  destruct (replay_at_most_once three_queued three_queued_wf)
    as (Hnd & _ & Hgone).
  split; [exact Hnd|]. split; [vm_compute; reflexivity|].
  apply (Hgone "c"). vm_compute. constructor.
Defined.

Lemma sync_complete_callbacks_witness :
  syncInProgress three_queued = false
  ∧ callbacks_fired
      (trace three_queued
         (drain (onSyncComplete "toast" three_queued).2).2)
    = ["use-offline-queue"; "use-network-status"; "toast"]
  ∧ syncInProgress (drain (onSyncComplete "toast" three_queued).2).2 = false.
Proof.
  split; [reflexivity|].
  destruct (sync_complete_callbacks "toast" three_queued eq_refl)
    as (evs & _ & Htrace & Hcb & Hguard & _).
  split; [|exact Hguard].
  rewrite Htrace, callbacks_fired_app, Hcb, callbacks_fired_callbacks.
  reflexivity.
Defined.

Lemma two_sendable_wf : queue_wf (queueStore two_sendable).
Proof. apply queue_wf_decide. vm_compute. reflexivity. Defined.

Lemma two_sendable_requests k r :
  queueStore two_sendable !! k = Some r →
  r = demo_request "a" "ok" 10 0 ∨ r = demo_request "b" "ok" 20 0.
Proof.
  unfold two_sendable, demo_world. simpl.
  rewrite !lookup_insert_Some, lookup_empty. naive_solver.
Qed.

Lemma healthy_drain_empties_outbox_witness :
  queue_wf (queueStore two_sendable)
  ∧ (size (queueStore two_sendable) ≤ 50)%nat
  ∧ queueStore (drain two_sendable).2 = ∅
  ∧ synced (trace two_sendable (drain two_sendable).2) = ["a"; "b"].
Proof.
  assert (size (queueStore two_sendable) ≤ 50)%nat as Hsize
    by (apply Nat.leb_le; vm_compute; reflexivity).
  split; [exact two_sendable_wf|]. split; [exact Hsize|].
  destruct (healthy_drain_empties_outbox two_sendable two_sendable_wf
              eq_refl Hsize) as (Hempty & _).
  - intros k r [-> | ->]%two_sendable_requests; reflexivity.
  - intros k r w' [-> | ->]%two_sendable_requests; reflexivity.
  - split; [exact Hempty|]. vm_compute. reflexivity.
Defined.

Lemma online_requests_go_direct_witness :
  isOnline idle = true
  ∧ opt_offlineable create_options = Some true
  ∧ queueStore (request "/price-reports" create_options idle).2 = ∅
  ∧ http_calls (trace idle (request "/price-reports" create_options idle).2)
    = [capacitor_options "/price-reports" create_options].
Proof.
  split; [reflexivity|]. split; [reflexivity|].
  destruct (online_requests_go_direct (P:=demo) "/price-reports"
              create_options idle eq_refl) as (Hq & Hcalls & _).
  split; [exact Hq|exact Hcalls].
Defined.

Lemma offline_calls_replay_as_sent_witness :
  ∃ ack w1 r,
    api_call (CreateReport "token" "report") (offline false)
    = (Returned (Queued ack), w1)
    ∧ queueStore w1 !! ack_requestId ack = Some r
    ∧ http_calls (trace idle (processApiRequest r idle).2)
      = http_calls (trace idle (api_call (CreateReport "token" "report")
                                  idle).2).
Proof.
  destruct (api_call (CreateReport "token" "report") (offline false))
    as [[[d|ack]|e|] w1] eqn:Hrun; try (vm_compute in Hrun; discriminate).
  destruct (offline_calls_replay_as_sent
              (CreateReport "token" "report") (offline false) ack w1 Hrun)
    as (_ & _ & r & Hq & _ & _ & Hsame).
  exists ack, w1, r. split; [reflexivity|].
  split; [by rewrite Hq, lookup_insert_eq|].
  exact (proj1 (Hsame idle idle eq_refl)).
Defined.

Lemma offline_submission_round_trip_witness :
  ∃ ack w1,
    request "/price-reports" create_options (on_offline idle).2
    = (Returned (Queued ack), w1)
    ∧ queueStore (on_online 1 w1).2 = ∅
    ∧ http_calls (trace idle (on_online 1 w1).2)
      = [capacitor_options "/price-reports" create_options]
    ∧ synced (trace idle (on_online 1 w1).2) = [ack_requestId ack].
Proof.
  destruct (request "/price-reports" create_options (on_offline idle).2)
    as [[[d|ack]|e|] w1] eqn:Hrun; try (vm_compute in Hrun; discriminate).
  destruct (offline_submission_round_trip "/price-reports" create_options
              idle ack w1
              {| status := 201; data := Some created_report |}
              (outside w1) 1 eq_refl eq_refl Hrun eq_refl eq_refl)
    as (_ & Hq & Hcalls & Hsynced & _).
  - reflexivity.
  - reflexivity.
  - intros _ _. by eexists.
  - lia.
  - exists ack, w1. done.
Defined.

Lemma drain_triggers_witness :
  (drain_fuel three_queued ≤ 100)%nat
  ∧ on_online 100 three_queued = drain three_queued
  ∧ sync_tick 100 (offline false) = (Returned tt, offline false).
Proof.
  assert (drain_fuel three_queued ≤ 100)%nat as Hfuel
    by (apply Nat.leb_le; vm_compute; reflexivity).
  split; [exact Hfuel|]. split.
  - exact (proj1 (proj2 (proj2 (drain_triggers 100 three_queued Hfuel)))).
  - refine (proj2 (proj2 (proj2 (proj2
              (drain_triggers 100 (offline false) _))))).
    apply Nat.leb_le. vm_compute. reflexivity.
Defined.


Lemma reference_data_survives_outage_witness :
  (getReferenceData demo_browser "token" None (switched_world true)).1
  = Returned (Direct (Some created_report), Some "{id:42}")
  ∧ gateway_down (reference_data_request "token")
      (outside (switched_world false)) = true
  ∧ (getReferenceData demo_browser "token" (Some "{id:42}")
       (switched_world false)).1
    = Returned (Direct (Some created_report), Some "{id:42}").
Proof.
  split; [reflexivity|]. split; [reflexivity|].
  apply (reference_data_survives_outage demo_browser "token" None
           (switched_world true) (Direct (Some created_report))
           (Some "{id:42}")
           (getReferenceData demo_browser "token" None
              (switched_world true)).2 (switched_world false));
    [reflexivity|reflexivity|discriminate|reflexivity|reflexivity].
Defined.

Lemma idle_no_groups k : reportImagesStore idle !! k = None.
Proof. apply lookup_empty. Qed.

Lemma stored_images_are_found_witness :
  ∃ g,
    (storeOfflineReportImages demo_browser [shot "t1"] idle).1
    = Returned "report_images_1000"
    ∧ tempIds g = ["t1"]
    ∧ (findStoredImagesByTempIds ["t1"; "t2"]
         (storeOfflineReportImages demo_browser [shot "t1"] idle).2).1
      = Returned (Some g)
    ∧ (findStoredImagesByTempIds ["t2"]
         (storeOfflineReportImages demo_browser [shot "t1"] idle).2).1
      = Returned None.
Proof.
  destruct (stored_images_are_found demo_browser [shot "t1"] idle
              "report_images_1000"
              (storeOfflineReportImages demo_browser [shot "t1"] idle).2
              ["t1"; "t2"] eq_refl)
    as (g & Hg & Hids & Hfind & _).
  { intros k g Hk. by rewrite idle_no_groups in Hk. }
  exists g. split; [reflexivity|]. split; [exact Hids|].
  vm_compute in Hg. injection Hg as <-.
  split; [exact Hfind|]. reflexivity.
Defined.

Lemma captured_images_are_uploaded_witness :
  ∃ form,
    (storeOfflineReportImages demo_browser [shot "t1"] idle).1
    = Returned "report_images_1000"
    ∧ upload_form
        {| reportId := 42;
           upl_images := [ {| itemId := 7;
                              description := Some "Image for item 7" |} ];
           files := [ {| file_name := "item-t1.jpg";
                         file_type := "image/jpeg";
                         file_bytes := "JFIF" |} ] |} = Some form
    ∧ fetch_calls
        (trace (storeOfflineReportImages demo_browser [shot "t1"] idle).2
           (findAndUploadReportImages created_report
              (storeOfflineReportImages demo_browser [shot "t1"] idle).2).2)
      = [upload_request "token" form]
    ∧ reportImagesStore
        (findAndUploadReportImages created_report
           (storeOfflineReportImages demo_browser [shot "t1"] idle).2).2
      = ∅.
Proof.
  destruct (captured_images_are_uploaded demo_browser [shot "t1"] idle
              "report_images_1000"
              (storeOfflineReportImages demo_browser [shot "t1"] idle).2
              created_report created_items "token" eq_refl)
    as (pairs & form & Hpairs & Hform & Hcalls & Hacc).
  - intros k g Hk. by rewrite idle_no_groups in Hk.
  - discriminate.
  - reflexivity.
  - reflexivity.
  - discriminate.
  - intros img ->%list_elem_of_singleton. split; [discriminate|by eexists].
  - intros img d ->%list_elem_of_singleton [= <-]. reflexivity.
  - vm_compute in Hpairs. injection Hpairs as <-.
    exists form. split; [reflexivity|]. split; [exact Hform|].
    split; [exact Hcalls|].
    change (upload_accepted _ _) with true in Hacc.
    destruct Hacc as [_ ->]. reflexivity.
Defined.

Lemma reconciliation_skipped_witness :
  (processApiRequest (demo_request "a" "ok" 10 0) idle).1 = Returned tt
  ∧ trace idle (processApiRequest (demo_request "a" "ok" 10 0) idle).2
    = [EvHttp (capacitor_options "/price-reports"
                 (replay_options (demo_request "a" "ok" 10 0)))].
Proof.
  destruct (reconciliation_skipped (P:=demo) (demo_request "a" "ok" 10 0)
              idle {| status := 201; data := Some created_report |}
              (outside idle) created_report
              eq_refl eq_refl eq_refl eq_refl eq_refl)
    as (Hres & Htrace & _).
  - right. intros its k g _ Hk. by rewrite idle_no_groups in Hk.
  - split; [exact Hres|exact Htrace].
Defined.

Lemma image_request_ready i key img :
  filePaths {| filePaths := ["img_1000_7"];
               imageData := [ {| itemId := 7; description := None |} ];
               fd_reportId := 42 |} !! i = Some key →
  imagesStore with_image !! key = Some img →
  is_Some (decode_data_url demo (img_base64Data img))
  ∧ is_Some (imageData
               {| filePaths := ["img_1000_7"];
                  imageData := [ {| itemId := 7; description := None |} ];
                  fd_reportId := 42 |} !! i).
Proof.
  intros Hi _. split; [by eexists|].
  destruct i as [|i]; [by eexists|]. by destruct i.
Qed.

Lemma processImageUpload_consumes_images_witness :
  is_Some (imagesStore with_image !! "img_1000_7")
  ∧ imagesStore (processImageUpload image_request with_image).2
      !! "img_1000_7" = None
  ∧ (processImageUpload image_request with_image).1 = Returned tt
  ∧ length (fetch_calls
              (trace with_image
                 (processImageUpload image_request with_image).2)) = 1%nat.
Proof.
  split; [by eexists|].
  destruct (processImageUpload_consumes_images (P:=demo) image_request _
              with_image eq_refl image_request_ready)
    as (Hgone & file_part & Hcalls & _ & Hres).
  split; [exact (Hgone "img_1000_7")|]. split; [|by rewrite Hcalls].
  apply Hres. reflexivity.
Defined.

Lemma image_upload_retry_sends_no_file_witness :
  ∃ rq,
    fetch_calls
      (trace (processImageUpload image_request with_image).2
         (processImageUpload image_request
            (processImageUpload image_request with_image).2).2) = [rq]
    ∧ f_body rq = [("reportId", FormText "42");
                   ("images[0][itemId]", FormText "7")].
Proof.
  destruct (image_upload_retry_sends_no_file (P:=demo) image_request _
              with_image eq_refl image_request_ready)
    as (rq & Hcalls & Hbody & _).
  exists rq. split; [exact Hcalls|]. rewrite Hbody. reflexivity.
Defined.

Lemma many_sendable_wf : queue_wf (queueStore many_sendable).
Proof. apply queue_wf_decide. vm_compute. reflexivity. Defined.

Lemma many_sendable_requests k r :
  queueStore many_sendable !! k = Some r →
  type r = TypeApi ∧ retries r < 3 ∧ replay_succeeds r idle = true.
Proof.
  revert k r.
  apply (bool_decide_eq_true_1
           (map_Forall
              (λ _ r, type r = TypeApi ∧ retries r < 3
                      ∧ replay_succeeds r idle = true)
              (queueStore many_sendable))).
  vm_compute. reflexivity.
Qed.

Lemma capped_drain_takes_the_oldest_witness :
  queue_wf (queueStore many_sendable)
  ∧ (50 < size (queueStore many_sendable))%nat
  ∧ length (synced (trace many_sendable (drain many_sendable).2)) = 50%nat
  ∧ size (queueStore (drain many_sendable).2) = 2%nat.
Proof.
  assert (size (queueStore many_sendable) = 52%nat) as Hsize
    by (vm_compute; reflexivity).
  split; [exact many_sendable_wf|]. split; [rewrite Hsize; lia|].
  destruct (capped_drain_takes_the_oldest many_sendable many_sendable_wf
              eq_refl) as (Hlen & _ & Hleft & _).
  - rewrite Hsize. lia.
  - intros k r Hk. destruct (many_sendable_requests k r Hk) as (? & ? & _).
    by split.
  - intros k r w' Hk. exact (proj2 (proj2 (many_sendable_requests k r Hk))).
  - split; [exact Hlen|]. rewrite Hleft, Hsize. reflexivity.
Defined.

Lemma reference_data_refresh_witness :
  capacitor_request switched (reference_data_request "token")
    (outside (switched_world true))
  = (Some {| status := 200; data := Some created_report |}, true)
  ∧ (getReferenceData demo_browser "token" (Some "{id:7}")
       (switched_world true)).1
    = Returned (Direct (Some created_report), Some "{id:42}").
Proof.
  split; [reflexivity|].
  exact (reference_data_refresh demo_browser "token" (Some "{id:7}")
           (switched_world true)
           {| status := 200; data := Some created_report |} true
           eq_refl eq_refl).
Defined.

Lemma queued_ids_do_not_collide_witness :
  ∃ ack1 w1 ack2 w2,
    request "/price-reports" create_options (offline false)
    = (Returned (Queued ack1), w1)
    ∧ request "/price-reports" create_options w1
      = (Returned (Queued ack2), w2)
    ∧ (date_now demo (outside (offline false))).1
      ≠ (date_now demo (outside w1)).1
    ∧ ack_requestId ack1 ≠ ack_requestId ack2
    ∧ size (queueStore w2) = 2%nat.
Proof.
  assert (∃ ack1,
            request "/price-reports" create_options (offline false)
            = (Returned (Queued ack1),
               (request "/price-reports" create_options (offline false)).2))
    as [ack1 Hrun1] by (vm_compute; by eexists).
  assert (∃ ack2,
            request "/price-reports" create_options
              (request "/price-reports" create_options (offline false)).2
            = (Returned (Queued ack2),
               (request "/price-reports" create_options
                  (request "/price-reports" create_options
                     (offline false)).2).2))
    as [ack2 Hrun2] by (vm_compute; by eexists).
  assert ((date_now demo (outside (offline false))).1
          ≠ (date_now demo
               (outside (request "/price-reports" create_options
                           (offline false)).2)).1) as Hclock
    by (vm_compute; discriminate).
  destruct (queued_ids_do_not_collide (P:=demo) _ _ _ _ _ _ _ _ _
              Hrun1 Hrun2 Hclock) as (Hne & _).
  eexists ack1, _, ack2, _. split; [exact Hrun1|]. split; [exact Hrun2|].
  split; [exact Hclock|]. split; [exact Hne|]. vm_compute. reflexivity.
Defined.

Lemma stores_stay_well_formed_witness :
  stores_wf with_image
  ∧ stores_wf (request "/price-reports" create_options with_image).2
  ∧ stores_wf (drain with_image).2.
Proof.
  assert (stores_wf with_image) as Hwf.
  { split; [|split].
    - apply queue_wf_decide. vm_compute. reflexivity.
    - apply (bool_decide_eq_true_1 (map_Forall _ _)). vm_compute.
      reflexivity.
    - apply groups_wf_decide. vm_compute. reflexivity. }
  split; [exact Hwf|].
  destruct (stores_stay_well_formed demo_browser with_image Hwf)
    as (Hrequest & _ & _ & Hdrain).
  split; [apply Hrequest|apply Hdrain].
Defined.
